(** * Windowing and resampling engine of the hard-disk failure predictor

    A shallow embedding of [DatasetProcessing]
    (src/inference/Dataset_processing.py): the prime factoriser, the
    per-device under-sampler, the column reconciler, the validity filter,
    the reshaper and the window builder, with the properties that the
    specification states about them and the path from the scaled table to
    the tensor ([partition]).  It is followed by the shapes and the batch
    loops of the networks and their trainers
    (src/algorithms/Networks_pytorch.py) and by the training loop of the
    classical estimators (src/algorithms/Classification.py).

    Conventions of the embedding.
    - Python [int] is [Z]; [//] and [%] are [Z.div] and [Z.modulo], which
      floor the quotient exactly as Python does.
    - A [while] loop is a [Fixpoint] on a fuel argument; running out of
      fuel is [None].  Termination is proved separately, by exhibiting a
      sufficient amount of fuel.
    - A raised exception is [None].
    - A missing cell (NaN) is [None]; a present cell is [Some v].
    - A dask frame is the pandas frame it computes to, and the frame
      operations have their pandas meaning; a call that a dask frame does
      not have (lines 205-206) raises. *)

From Stdlib Require Import ZArith Lia Ascii String.
From stdpp Require Import base list strings gmap sorting pretty.

(** ** Factorizer *)

Module Factorizer.
Local Open Scope Z_scope.

(** The inner loop [while n % factor == 0: factors.append(factor); n //= factor],
    threading the pair [(n, factors)]. *)
Fixpoint strip (fuel : nat) (factor n : Z) (acc : list Z)
  : option (Z * list Z) :=
  match fuel with
  | O => None
  | S fuel' =>
      if n mod factor =? 0
      then strip fuel' factor (n / factor) (acc ++ [factor])
      else Some (n, acc)
  end.

(** The outer loop [while factor * factor <= n: <inner loop>; factor += 2]. *)
Fixpoint odd_loop (fuel : nat) (factor n : Z) (acc : list Z)
  : option (Z * list Z) :=
  match fuel with
  | O => None
  | S fuel' =>
      if factor * factor <=? n
      then match strip fuel' factor n acc with
           | Some (n', acc') => odd_loop fuel' (factor + 2) n' acc'
           | None => None
           end
      else Some (n, acc)
  end.

(** [factors(n)], lines 62-87. *)
Definition factors_fuel (fuel : nat) (n : Z) : option (list Z) :=
  match strip fuel 2 n [] with
  | Some (n1, acc1) =>
      match odd_loop fuel 3 n1 acc1 with
      | Some (n2, acc2) => Some (if 1 <? n2 then acc2 ++ [n2] else acc2)
      | None => None
      end
  | None => None
  end.

(** Fuel that suffices for every positive argument: each loop shortens
    [n] or moves [factor] towards it. *)
Definition fuel_for (n : Z) : nat := S (2 * Z.to_nat (Z.abs n)).

Definition factors (n : Z) : option (list Z) := factors_fuel (fuel_for n) n.

Definition product (l : list Z) : Z := foldr Z.mul 1 l.

(** No divisor of [n] lies in the interval [2, f). *)
Definition no_small_div (f n : Z) : Prop :=
  forall d, 2 <= d < f -> ~ (d | n).

(** The loop invariant of the factoriser: [acc] holds primes in ascending
    order, none above [f], whose product with the residue [n] is the
    original argument [N]; the residue has no divisor below [f]. *)
Record Inv (N f n : Z) (acc : list Z) : Prop := {
  inv_pos : 1 <= n;
  inv_prod : product acc * n = N;
  inv_prime : Forall Z.prime acc;
  inv_sorted : Sorted Z.le acc;
  inv_bound : Forall (fun x => x <= f) acc;
  inv_nodiv : no_small_div f n
}.

End Factorizer.


(** ** UnderSampler *)

Module UnderSampler.
Local Open Scope Z_scope.

(** What [under_sample] reads of a row of the per-device group: its index
    label and its [predict_val] cell ([None] is NaN). *)
Record Row := mkRow { idx : Z; predict_val : option Z }.

Abbreviation Group := (list Row).

(** A pandas Series: index labels paired with cells. *)
Abbreviation Series := (list (Z * option Z)).

(** [df.predict_val] *)
Definition predict_val_column (df : Group) : Series :=
  (fun r => (idx r, predict_val r)) <$> df.

(** Maximum of a window; NaN as soon as one observation is NaN (the
    default [min_periods] of a fixed window is the window size). *)
Definition window_max (w : list (option Z)) : option Z :=
  match w with
  | [] => None
  | c :: w' => foldl (fun acc c' => m ← acc; v ← c'; Some (Z.max m v)) c w'
  end.

(** [.rolling(k).max()] on the cells: position [i] looks at the [k] cells
    ending at [i], and is NaN while fewer than [k] cells are available. *)
Definition rolling_max (k : Z) (cells : list (option Z)) : list (option Z) :=
  imap (fun i _ =>
          if Z.of_nat i + 1 <? k then None
          else window_max (take (Z.to_nat k) (drop (i + 1 - Z.to_nat k)%nat cells)))
       cells.

Definition rolling_max_series (k : Z) (s : Series) : Series :=
  zip (s.*1) (rolling_max k (s.*2)).

(** Python's normalisation of a slice bound for a positive step
    ([PySlice_AdjustIndices]). *)
Definition adjust (len i : Z) : Z :=
  if i <? 0 then (if i + len <? 0 then 0 else i + len)
  else if len <=? i then len else i.

(** The positions denoted by [start:stop:step] in a sequence of length
    [len], for a positive [step]. *)
Definition slice_positions (len start stop step : Z) : list Z :=
  let start' := adjust len start in
  let stop' := adjust len stop in
  let n := if start' <? stop' then (stop' - start' - 1) / step + 1 else 0 in
  (fun j => start' + j * step) <$> seqZ 0 n.

(** [s[start:stop:step]] *)
Definition slice (s : Series) (start stop step : Z) : Series :=
  omap (fun p => s !! Z.to_nat p)
       (slice_positions (Z.of_nat (length s)) start stop step).

(** [under_sample(df, down_factor)], lines 89-109.  A negative window makes
    [rolling] raise and a zero factor makes [%] raise. *)
Definition under_sample (df : Group) (down_factor : Z) : option (list Z) :=
  if down_factor <=? 0 then None
  else
    let rolled := rolling_max_series down_factor (predict_val_column df) in
    let len_df := Z.of_nat (length df) in
    Some ((slice rolled ((len_df - 1) mod down_factor) (-7) down_factor).*1).

(** The retention rule in the words of the specification: position [p] of a
    group of length [len] is kept when it lies at the offset
    [(len - 1) mod k] or a whole number of strides [k] after it, and is not
    one of the last seven positions. *)
Definition retained (len k p : Z) : Prop :=
  (len - 1) mod k <= p /\ (p - (len - 1) mod k) mod k = 0 /\ p < len - 7.

#[global] Instance retained_dec len k p : Decision (retained len k p).
Proof. unfold retained. apply _. Defined.

Definition retained_positions (len k : Z) : list Z :=
  filter (retained len k) (seqZ 0 len).

(** The index labels found at a list of positions of the group. *)
Definition labels_at (df : Group) (ps : list Z) : list Z :=
  omap (fun p => (idx <$> df) !! Z.to_nat p) ps.

(** The rolling maximum that [under_sample] computes at position [p]. *)
Definition rolling_at (df : Group) (k : Z) (p : Z) : option Z :=
  mjoin (rolling_max k (predict_val <$> df) !! Z.to_nat p).

(** A group that differs from [df] in its [predict_val] cells only. *)
Definition with_predict_val (df : Group) (v : option Z) : Group :=
  (fun r => mkRow (idx r) v) <$> df.

(** Sample groups used in the examples: [n] rows labelled [first],
    [first + 1], ..., every [predict_val] equal to [v]. *)
Definition constant_group (first n : Z) (v : option Z) : Group :=
  (fun i => mkRow i v) <$> seqZ first n.

End UnderSampler.

(** ** Reshaper *)

Module Reshaper.
Import Factorizer.
Local Open Scope Z_scope.

(** The effective window depth, line 293:
    [sum(number - 1 for number in self.factors(self.window_dim)) + 1
       if self.overlap != 1 else self.window_dim].
    The conditional expression binds weaker than [+], and [factors] is only
    called when [overlap != 1]. *)
Definition data_dim (overlap window_dim : Z) : option Z :=
  if negb (overlap =? 1)
  then fs ← factors window_dim;
       Some (foldr Z.add 0 ((fun number => number - 1) <$> fs) + 1)
  else Some window_dim.

(** A numpy array: its shape and its elements in row-major order. *)
Record ndarray (A : Type) := mk_ndarray { shape : list Z; data : list A }.
Arguments mk_ndarray {A} _ _.
Arguments shape {A} _.
Arguments data {A} _.

Definition size (shp : list Z) : Z := foldr Z.mul 1 shp.

Definition well_formed {A} (X : ndarray A) : Prop :=
  Forall (fun d => 0 <= d) (shape X) /\ size (shape X) = Z.of_nat (length (data X)).

(** [X.reshape(newshape)]: numpy refuses a shape of another size and a
    negative dimension (the placeholder [-1] cannot be resolved in any shape
    that [arrays_to_matrix] builds); the elements keep their row-major
    order. *)
Definition reshape {A} (X : ndarray A) (newshape : list Z) : option (ndarray A) :=
  if forallb (fun d => 0 <=? d) newshape
     && (size newshape =? Z.of_nat (length (data X)))
  then Some (mk_ndarray newshape (data X))
  else None.

(** [arrays_to_matrix(X, wind_dim)], lines 215-229, on the two-dimensional
    [df.values].  [int(X.shape[1] / wind_dim)] truncates the quotient
    towards zero (the float division is exact for the column counts a
    table can have) and raises on a zero divisor. *)
Definition arrays_to_matrix {A} (X : ndarray A) (wind_dim : Z) : option (ndarray A) :=
  match shape X with
  | [rows; cols] =>
      if wind_dim =? 0 then None
      else reshape X [rows; Z.quot cols wind_dim; wind_dim]
  | _ => None
  end.

(** [np.expand_dims(X, axis)]: a new axis of length one at position [axis]. *)
Definition expand_dims {A} (X : ndarray A) (axis : nat) : ndarray A :=
  mk_ndarray (take axis (shape X) ++ 1 :: drop axis (shape X)) (data X).

(** The end of [preprocess_dataset], lines 291-298. *)
Definition to_tensor {A} (overlap windowing window_dim : Z) (X : ndarray A)
  : option (ndarray A) :=
  if windowing =? 1
  then depth ← data_dim overlap window_dim; arrays_to_matrix X depth
  else Some (expand_dims X 1).

(** [X[i, j]] and [Y[i, j, k]] for indexes within the bounds. *)
Definition get2 {A} (X : ndarray A) (i j : Z) : option A :=
  match shape X with
  | [rows; cols] =>
      if decide (0 <= i < rows /\ 0 <= j < cols)
      then data X !! Z.to_nat (i * cols + j) else None
  | _ => None
  end.

Definition get3 {A} (X : ndarray A) (i j k : Z) : option A :=
  match shape X with
  | [d0; d1; d2] =>
      if decide (0 <= i < d0 /\ 0 <= j < d1 /\ 0 <= k < d2)
      then data X !! Z.to_nat ((i * d1 + j) * d2 + k) else None
  | _ => None
  end.

End Reshaper.

(** ** WindowBuilder *)

Module WindowBuilder.
Import Factorizer.
Local Open Scope Z_scope.

Section Frames.
(** The type of a scaled feature cell; features are only moved around. *)
Context {F : Type}.

(** One row of [self.df] after [partition] has scaled the features and put
    the identifier and label columns back.  [None] is NaN. *)
Record DeviceRecord := mkRecord {
  serial_number : option string;
  date : option string;
  failure : option Z;
  predict_val : option Z;
  validate_val : option Z;
  model : option string;
  capacity_bytes : option Z;
  features : list (option F)
}.

(** The row of NaN that [shift] and the outer join fill in. *)
Definition nan_record (width : nat) : DeviceRecord :=
  mkRecord None None None None None None None (replicate width None).

(** [self.df]: [partition] resets the index, so the label of a row is its
    position. *)
Local Abbreviation Table := (list DeviceRecord).

Definition width (df : Table) : nat :=
  match df with r :: _ => length (features r) | [] => O end.

(** A row of a windowed frame: its index label and its blocks of columns,
    left to right; every block is one copy of the columns of [self.df]. *)
Local Abbreviation WideRow := (Z * list DeviceRecord)%type.

(** A windowed frame: the number of blocks of columns and the rows. *)
Record WideTable := mkWide { depth : nat; wrows : list WideRow }.

Definition labels (W : WideTable) : list Z := (wrows W).*1.

(** [self.df.copy()] seen as a frame of one block. *)
Definition of_table (df : Table) : WideTable :=
  mkWide 1 (imap (fun i r => (Z.of_nat i, [r])) df).

(** [self.df.shift(periods)]: every row receives the cells of the row
    [periods] positions above it, the first [periods] rows receive NaN. *)
Definition shift (df : Table) (periods : nat) : Table :=
  take (length df) (replicate periods (nan_record (width df)) ++ df).

(** The blocks of the row labelled [l], NaN when the frame has no such row. *)
Definition blocks_at (nan : DeviceRecord) (W : WideTable) (l : Z) : list DeviceRecord :=
  match list_find (fun row => row.1 = l) (wrows W) with
  | Some (_, (_, blocks)) => blocks
  | None => replicate (depth W) nan
  end.

(** [concat([self.df.shift(periods), W], axis=1)]: an outer join on the
    index labels.  The rows are those of [self.df], then the rows of [W]
    with a label that [self.df] does not have. *)
Definition concat_shift (df : Table) (periods : nat) (W : WideTable) : WideTable :=
  let nan := nan_record (width df) in
  mkWide (S (depth W))
    (imap (fun i r => (Z.of_nat i, r :: blocks_at nan W (Z.of_nat i))) (shift df periods)
     ++ ((fun row => (row.1, nan :: row.2))
           <$> filter (fun row => ~ (0 <= row.1 < Z.of_nat (length df))) (wrows W))).

(** [for i in np.arange(count): W = concat([self.df.shift(i + 1), W], axis=1)] *)
Definition shift_loop (df : Table) (count : Z) (W : WideTable) : WideTable :=
  foldl (fun W' i => concat_shift df (S i) W') W (seq 0 (Z.to_nat count)).

(** [self.df[self.df['validate_val'] == 1]]: a mask over the rows. *)
Definition failed_rows (df : Table) : WideTable :=
  mkWide 1 (filter (fun row => validate_val <$> head row.2 = Some (Some 1))
                   (wrows (of_table df))).

(** [serials] looked up at an index label: the key of the row in
    [groupby(serials)]. *)
Definition serial_at (df : Table) (l : Z) : option string :=
  if decide (0 <= l) then r ← df !! Z.to_nat l; serial_number r else None.

(** The group of one device handed to [under_sample]: index labels and
    [predict_val] cells.  A windowed frame carries one [predict_val]
    column per block and [under_sample] rolls over each of them; the
    selected labels are the same for all, so the model keeps the last. *)
Definition group_of (df : Table) (W : WideTable) (key : string) : UnderSampler.Group :=
  (fun row => UnderSampler.mkRow row.1 (last row.2 ≫= predict_val))
    <$> filter (fun row => serial_at df row.1 = Some key) (wrows W).

(** The group keys in the order [groupby] visits them; rows with a NaN key
    belong to no group. *)
Definition group_keys (df : Table) (W : WideTable) : list string :=
  merge_sort String.le (remove_dups (omap (fun row => serial_at df row.1) (wrows W))).

(** [W.loc[ls, :]]: the rows labelled by [ls], in the order of [ls]. *)
Definition loc (W : WideTable) (ls : list Z) : WideTable :=
  mkWide (depth W) (l ← ls; filter (fun row => row.1 = l) (wrows W)).

(** The order of the rows of a frame by their index labels. *)
Definition index_le (row row' : WideRow) : Prop := row.1 <= row'.1.

#[global] Instance index_le_dec : RelDecision index_le.
Proof. intros row row'. unfold index_le. apply _. Defined.

(** [dd.from_pandas(windowed_df, ...)], lines 175 and 203: a dask frame
    made from a pandas frame has its rows sorted by the index.  On line
    147 the index is the range that [partition] has just set. *)
Definition from_pandas (W : WideTable) : WideTable :=
  mkWide (depth W) (merge_sort index_le (wrows W)).

(** Lines 169-175: one under-sampling pass.  [np.concatenate] raises on an
    empty list of arrays, that is when there is no group at all. *)
Definition sampling_pass (df : Table) (W : WideTable) (down_factor : Z)
  : option WideTable :=
  let keys := group_keys df W in
  if decide (keys = []) then None
  else indexes ← mapM (fun key => UnderSampler.under_sample (group_of df W key) down_factor) keys;
       Some (from_pandas (loc W (mjoin indexes))).

(** The loop over the prime factors, lines 160-175 and 188-203. *)
Fixpoint dynamic_loop (df : Table) (window_dim_divisors : list Z) (W : WideTable)
  : option WideTable :=
  match window_dim_divisors with
  | [] => Some W
  | down_factor :: rest =>
      W' ← sampling_pass df (shift_loop df (down_factor - 1) W) down_factor;
      dynamic_loop df rest W'
  end.

(** [windowed_df = windowed_df.append(windowed_df_failed)] and
    [windowed_df.reset_index(inplace=True, drop=True)], lines 205-206.
    Here [windowed_df] is a dask frame, made by [dd.from_pandas] on line
    147 or on line 203, and the statements ask of it what only a pandas
    frame has: the [reset_index] of a dask frame takes no [inplace]
    ([TypeError]), and a dask frame has no [append] any more
    ([AttributeError] on line 205).  Whatever the two frames, nothing is
    returned. *)
Definition append_reset_index (windowed_df windowed_df_failed : WideTable)
  : option WideTable :=
  None.

(** The three branches of [perform_windowing], lines 148-206, before the
    columns are renamed. *)
Definition full (df : Table) (window_dim : Z) : WideTable :=
  shift_loop df (window_dim - 1) (of_table df).

Definition dynamic (df : Table) (window_dim : Z) : option WideTable :=
  window_dim_divisors ← factors window_dim;
  dynamic_loop df window_dim_divisors (of_table df).

(** The Full sub-frame of the Hybrid branch, lines 182-187. *)
Definition windowed_df_failed (df : Table) (window_dim : Z) : WideTable :=
  shift_loop df (window_dim - 1) (failed_rows df).

(** The two frames of the Hybrid branch that reach line 205: the frame of
    the loop over the factors, which starts from all the rows of [self.df]
    (line 147), and the Full sub-frame. *)
Definition hybrid_frames (df : Table) (window_dim : Z)
  : option (WideTable * WideTable) :=
  window_dim_divisors ← factors window_dim;
  let failed := windowed_df_failed df window_dim in
  windowed_df ← dynamic_loop df window_dim_divisors (of_table df);
  Some (windowed_df, failed).

Definition hybrid (df : Table) (window_dim : Z) : option WideTable :=
  frames ← hybrid_frames df window_dim;
  append_reset_index frames.1 frames.2.

Definition perform_windowing (df : Table) (overlap window_dim : Z) : option WideTable :=
  if overlap =? 1 then Some (full df window_dim)
  else if overlap =? 2 then dynamic df window_dim
  else hybrid df window_dim.

(** The rightmost block that the row of [self.df] labelled like [r] has in
    the Full sub-frame: its own cells when the mask selects it, NaN
    otherwise. *)
Definition own_block (df : Table) (r : DeviceRecord) : DeviceRecord :=
  if decide (validate_val r = Some 1) then r else nan_record (width df).

(** Invariant of the Full sub-frame while the shifted copies are joined. *)
Record failed_inv (df : Table) (W : WideTable) : Prop := {
  fi_depth : (1 <= depth W)%nat;
  fi_sound : forall l blocks, (l, blocks) ∈ wrows W ->
             0 <= l /\ exists r, df !! Z.to_nat l = Some r /\
                                 last blocks = Some (own_block df r);
  fi_complete : forall i r, df !! i = Some r -> validate_val r = Some 1 ->
                exists blocks, (Z.of_nat i, blocks) ∈ wrows W
}.

(** Every row of [self.df] has a row in the frame. *)
Definition covers (df : Table) (W : WideTable) : Prop :=
  forall i, (i < length df)%nat -> Z.of_nat i ∈ labels W.

End Frames.

Arguments DeviceRecord : clear implicits.
Arguments WideTable : clear implicits.

Abbreviation Table F := (list (DeviceRecord F)).
Abbreviation WideRow F := (Z * list (DeviceRecord F))%type.

(** A sample device: [good] days with [validate_val = 0], then [bad] days
    with [validate_val = 1]; the only feature is the day number. *)
Definition sample_day (serial : string) (day v : Z) : DeviceRecord Z :=
  mkRecord (Some serial) (Some (pretty day)) (Some 0) (Some v) (Some v)
           (Some "ST4000") (Some 4000) [Some day].

Definition sample_device (serial : string) (good bad : Z) : Table Z :=
  ((fun d => sample_day serial d 0) <$> seqZ 0 good)
  ++ ((fun d => sample_day serial d 1) <$> seqZ good bad).

End WindowBuilder.

(** ** ColumnReconciler *)

Module ColumnReconciler.

(** One iteration of the loop of [rename_columns], lines 124-129, on the
    dictionary [count] and the list [cols]. *)
Definition rename_step (state : gmap string nat * list string) (column : string)
  : gmap string nat * list string :=
  let count := state.1 in
  let count := if decide (count !! column = None) then <[column := 0%nat]> count
               else count in
  let c := S (default 0%nat (count !! column)) in
  let count := <[column := c]> count in
  let new_column := if decide (1 < c)%nat then column +:+ "_" +:+ pretty c
                    else column in
  (count, state.2 ++ [new_column]).

(** The list [cols] when the loop ends. *)
Definition renamed (columns : list string) : list string :=
  (foldl rename_step (∅, []) columns).2.

(** [rename_columns], lines 111-132, on the column labels:
    [df.sort_index(axis=1)] orders the labels as Python orders strings. *)
Definition rename_columns (columns : list string) : list string :=
  merge_sort String.le (renamed columns).

(** The name given to the occurrence number [c] of [column]. *)
Definition numbered (column : string) (c : nat) : string :=
  if decide (1 < c)%nat then column +:+ "_" +:+ pretty c else column.

(** How often [column] occurs in a list of labels. *)
Definition occurrences (column : string) (l : list string) : nat :=
  length (filter (fun x => x = column) l).

(** The labels of a windowed frame of [depth] blocks before renaming. *)
Definition windowed_columns (base : list string) (depth : nat) : list string :=
  mjoin (replicate depth base).

(** Two states of the loop that hold the same counts and the same labels up
    to their order. *)
Definition same_labels (st st' : gmap string nat * list string) : Prop :=
  st.1 = st'.1 /\ st.2 ≡ₚ st'.2.

Fixpoint has_underscore (s : string) : bool :=
  match s with
  | EmptyString => false
  | String a s' => bool_decide (a = "_"%char) || has_underscore s'
  end.

(** No label of the list is another label of the list followed by an
    underscore and a number from 2 on. *)
Definition collision_free (l : list string) : Prop :=
  forall c c' n, c ∈ l -> c' ∈ l -> (1 < n)%nat -> c' <> c +:+ "_" +:+ pretty n.

End ColumnReconciler.

(** ** ValidityFilter *)

Module ValidityFilter.
Local Open Scope Z_scope.

Inductive value := Num (z : Z) | Str (s : string).

(** A table: the column labels and the rows, every row holding one cell
    per column; [None] is a missing value. *)
Record DataFrame := mkFrame {
  columns : list string;
  rows : list (list (option value))
}.

(** The elements of [l] at the positions where [mask] is true. *)
Definition select {A} (mask : list bool) (l : list A) : list A :=
  (filter (fun p => p.1 = true) (zip mask l)).*2.

(** [\d] on one character.  A label of this model is a string of
    characters with code points below 256; among these the decimal digits
    that [\d] matches are the ten digits from 0 to 9. *)
Definition is_digit (a : ascii) : bool :=
  (48 <=? nat_of_ascii a)%nat && (nat_of_ascii a <=? 57)%nat.

(** [\d*$]: digits up to the end of the string, or up to a final newline. *)
Fixpoint digits_to_end (s : string) : bool :=
  match s with
  | EmptyString => true
  | String a s' =>
      if is_digit a then digits_to_end s'
      else bool_decide (s = String "010"%char EmptyString)
  end.

(** [_\d+$] *)
Definition numbered_suffix (s : string) : bool :=
  match s with
  | String "_"%char (String d s') => is_digit d && digits_to_end s'
  | _ => false
  end.

Fixpoint strip_prefix (p s : string) : option string :=
  match p, s with
  | EmptyString, _ => Some s
  | String a p', String b s' => if decide (a = b) then strip_prefix p' s' else None
  | String _ _, EmptyString => None
  end.

Definition base_names : list string :=
  ["serial_number"; "date"; "capacity_bytes"; "model"]%string.

(** [re.match(pattern, col)] with the pattern of line 246,
    [^serial_number_\d+$|^date_\d+$|^capacity_bytes_\d+$|^model_\d+$]. *)
Definition matches_pattern (col : string) : bool :=
  existsb (fun base_name =>
             match strip_prefix base_name col with
             | Some rest => numbered_suffix rest
             | None => false
             end) base_names.

(** [df.drop(columns=columns_to_drop)]: every column with a label in the
    list goes. *)
Definition drop_columns (columns_to_drop : list string) (df : DataFrame) : DataFrame :=
  let mask := (fun col => bool_decide (col ∉ columns_to_drop)) <$> columns df in
  mkFrame (select mask (columns df)) (select mask <$> rows df).

Definition essential_columns : list string :=
  ["date"; "serial_number"; "capacity_bytes"]%string.

(** A row has a value in every column labelled by [subset]. *)
Definition complete_in (df : DataFrame) (subset : list string)
    (row : list (option value)) : bool :=
  forallb (fun p => if bool_decide (p.1 ∈ subset) then bool_decide (is_Some p.2) else true)
          (zip (columns df) row).

(** [df.dropna(subset=subset)] *)
Definition dropna_rows (subset : list string) (df : DataFrame) : DataFrame :=
  mkFrame (columns df) (filter (fun row => complete_in df subset row = true) (rows df)).

(** What the filter prints. *)
Inductive message :=
  | Dropped (rows_dropped : Z)
  | DoNotExist (missing_columns : list string).

(** Lines 245-248. *)
Definition drop_numbered_identifiers (df : DataFrame) : DataFrame :=
  let columns_to_drop := filter (fun col => matches_pattern col = true) (columns df) in
  drop_columns columns_to_drop df.

(** Lines 250-273. *)
Definition drop_incomplete_rows (df : DataFrame) : DataFrame * message :=
  let missing_columns := filter (fun col => col ∉ columns df) essential_columns in
  if decide (missing_columns = []) then
    let rows_before := Z.of_nat (length (rows df)) in
    let df' := dropna_rows essential_columns df in
    let rows_after := Z.of_nat (length (rows df')) in
    (df', Dropped (rows_before - rows_after))
  else (df, DoNotExist missing_columns).

(** The first two steps of the filter, lines 245-273. *)
Definition validity_filter_rows (df : DataFrame) : DataFrame * message :=
  drop_incomplete_rows (drop_numbered_identifiers df).

(** A table without a [capacity_bytes] column, and one with a missing
    [date]. *)
Definition sample_without_capacity : DataFrame :=
  mkFrame ["date"; "serial_number"; "smart_5_raw"; "date_2"]%string
          [[Some (Str "2020-01-01"); Some (Str "A"); Some (Num 0); None];
           [None; Some (Str "A"); Some (Num 1); Some (Str "2020-01-01")]].

Definition sample_with_missing_date : DataFrame :=
  mkFrame ["capacity_bytes"; "date"; "serial_number"; "smart_5_raw"; "date_2"]%string
          [[Some (Num 4000); Some (Str "2020-01-01"); Some (Str "A"); Some (Num 0); None];
           [Some (Num 4000); None; Some (Str "A"); Some (Num 1); Some (Str "2020-01-01")]].

End ValidityFilter.

(** ** WindowBuilder, continued: what the frames hold *)

Module Windows.
Import Factorizer WindowBuilder.
Local Open Scope Z_scope.

Section Frames.
Context {F : Type}.

(** The row of [df] that lies [j] positions above row [i], NaN above the
    first row. *)
Definition lagged (df : list (DeviceRecord F)) (i j : nat) : DeviceRecord F :=
  if decide (j <= i)%nat
  then default (nan_record (width df)) (df !! (i - j)%nat)
  else nan_record (width df).

(** The blocks [count], ..., 1, 0 positions above row [i], left to right. *)
Definition lagged_blocks (df : list (DeviceRecord F)) (count i : nat)
  : list (DeviceRecord F) :=
  (fun j => lagged df i j) <$> reverse (seq 0 (S count)).

(** The labels that one under-sampling pass retains, computed from the
    labels of the frame alone: every group cut by [under_sample], and the
    labels of all groups in ascending order. *)
Definition pass_labels (df : list (DeviceRecord F)) (down_factor : Z) (ls : list Z)
  : option (list Z) :=
  let keys := merge_sort String.le (remove_dups (omap (serial_at df) ls)) in
  if decide (keys = []) then None
  else (fun indexes => merge_sort Z.le (mjoin indexes))
         <$> mapM (fun key =>
                     UnderSampler.under_sample
                       ((fun l => UnderSampler.mkRow l None)
                          <$> filter (fun l => serial_at df l = Some key) ls)
                       down_factor) keys.

(** The labels of a frame are those of rows of [df]. *)
Definition in_range (df : list (DeviceRecord F)) (W : WideTable F) : Prop :=
  Forall (fun l => 0 <= l < Z.of_nat (length df)) (labels W).

End Frames.

End Windows.

(** ** Preprocessing *)

(** [preprocess_dataset], lines 231-298, as a whole: the validity filter,
    the removal of the columns that still hold a missing value, the sort on
    the device and the day, the removal of the four identifying columns and
    the reshaping.  Here an exception keeps its kind. *)
Module Preprocessing.
Import Reshaper ValidityFilter.
Local Open Scope Z_scope.

Inductive outcome (A : Type) :=
  | Returned (a : A)
  | KeyError (labels : list string)
      (** raised by [set_index] and by [drop] on labels that no column has *)
  | NoTensor.
      (** [to_tensor] has no result: the reshape or the division raised, or
          [factors] did not return *)
Arguments Returned {A} _.
Arguments KeyError {A} _.
Arguments NoTensor {A}.

Definition bind {A B} (m : outcome A) (f : A -> outcome B) : outcome B :=
  match m with
  | Returned a => f a
  | KeyError labels => KeyError labels
  | NoTensor => NoTensor
  end.

(** The cell of [row] in the first column labelled [label]. *)
Definition cell (df : DataFrame) (label : string) (row : list (option value))
  : option value :=
  '(j, _) ← list_find (fun col => col = label) (columns df); mjoin (row !! j).

(** No row has a missing value in column number [j]. *)
Definition column_complete (df : DataFrame) (j : nat) : bool :=
  forallb (fun row => bool_decide (is_Some (mjoin (row !! j)))) (rows df).

(** [df.dropna(axis='columns')], line 276. *)
Definition dropna_columns (df : DataFrame) : DataFrame :=
  let mask := imap (fun j _ => column_complete df j) (columns df) in
  mkFrame (select mask (columns df)) (select mask <$> rows df).

(** A frame with an index of several levels: every row comes with its key,
    one cell per level. *)
Record IndexedFrame := mkIndexed {
  names : list string;
  icolumns : list string;
  irows : list (list (option value) * list (option value))
}.

(** [df.set_index(keys)], line 280: a [KeyError] names the keys that are no
    column; otherwise the key columns leave the frame and become the levels
    of the index.  A frame that [rename_columns] returns has each of the
    two keys at most once, and so has every frame below; on a key that
    labels several columns pandas cannot build the index, and the
    definition, which takes the first of them, is used under
    [unique_keys] only. *)
Definition set_index (keys : list string) (df : DataFrame) : outcome IndexedFrame :=
  let missing := filter (fun col => col ∉ columns df) keys in
  if decide (missing = []) then
    let df' := drop_columns keys df in
    Returned (mkIndexed keys (columns df')
                (zip ((fun row => (fun key => cell df key row) <$> keys) <$> rows df)
                     (rows df')))
  else KeyError missing.

(** The order of the cells of one level: numbers as numbers, strings as
    Python orders strings, numbers before strings, missing values last. *)
Definition value_le (a b : option value) : Prop :=
  match a, b with
  | Some (Num x), Some (Num y) => x <= y
  | Some (Str s), Some (Str t) => String.le s t
  | Some (Num _), Some (Str _) => True
  | Some (Str _), Some (Num _) => False
  | _, None => True
  | None, Some _ => False
  end.

#[global] Instance value_eq_dec : EqDecision value.
Proof. solve_decision. Defined.

#[global] Instance value_le_dec a b : Decision (value_le a b).
Proof. destruct a as [[]|], b as [[]|]; simpl; apply _. Defined.

(** Keys compare level by level. *)
Fixpoint key_le (k k' : list (option value)) : Prop :=
  match k, k' with
  | [], _ => True
  | _ :: _, [] => False
  | a :: k, b :: k' => if decide (a = b) then key_le k k' else value_le a b
  end.

#[global] Instance key_le_dec k k' : Decision (key_le k k').
Proof.
  revert k'. induction k as [|a k IH]; intros [|b k']; simpl; try apply _.
  destruct (decide (a = b)); apply _.
Defined.

(** A stable sort: [x] goes in front of the first element that is not
    below it. *)
Fixpoint insert_sorted {A} (R : relation A) `{!RelDecision R} (x : A) (l : list A)
  : list A :=
  match l with
  | [] => [x]
  | y :: l' => if decide (R x y) then x :: l else y :: insert_sorted R x l'
  end.

Definition stable_sort {A} (R : relation A) `{!RelDecision R} (l : list A) : list A :=
  foldr (insert_sorted R) [] l.

Definition row_le (r r' : list (option value) * list (option value)) : Prop :=
  key_le r.1 r'.1.

#[global] Instance row_le_dec : RelDecision row_le.
Proof. intros r r'. unfold row_le. apply _. Defined.

(** [df.sort_index()], line 281: the rows in the order of their keys, rows
    of one key in the order they had. *)
Definition sort_index (df : IndexedFrame) : IndexedFrame :=
  mkIndexed (names df) (icolumns df) (stable_sort row_le (irows df)).

(** [df.reset_index()], line 285: the levels of the index are columns
    again, in front of the others. *)
Definition reset_index (df : IndexedFrame) : DataFrame :=
  mkFrame (names df ++ icolumns df) ((fun r => r.1 ++ r.2) <$> irows df).

(** [df.drop(columns=labels)], line 288: a [KeyError] names the labels
    that no column has. *)
Definition drop (labels : list string) (df : DataFrame) : outcome DataFrame :=
  let missing := filter (fun col => col ∉ columns df) labels in
  if decide (missing = []) then Returned (drop_columns labels df)
  else KeyError missing.

(** [df.values], line 289. *)
Definition values (df : DataFrame) : ndarray (option value) :=
  mk_ndarray [Z.of_nat (length (rows df)); Z.of_nat (length (columns df))]
             (mjoin (rows df)).

Definition index_columns : list string := ["serial_number"; "date"]%string.

Definition identifying_columns : list string :=
  ["serial_number"; "date"; "model"; "capacity_bytes"]%string.

(** Lines 243-285, the branch of [windowing == 1]. *)
Definition drop_invalid_windows (df : DataFrame) : outcome DataFrame :=
  let df := (validity_filter_rows df).1 in
  let df := dropna_columns df in
  bind (set_index index_columns df) (fun df =>
  Returned (reset_index (sort_index df))).

(** [preprocess_dataset], lines 231-298. *)
Definition preprocess_dataset (overlap windowing window_dim : Z) (df : DataFrame)
  : outcome (ndarray (option value)) :=
  bind (if windowing =? 1 then drop_invalid_windows df else Returned df) (fun df =>
  bind (drop identifying_columns df) (fun df =>
  match to_tensor overlap windowing window_dim (values df) with
  | Some X => Returned X
  | None => NoTensor
  end)).

(** Every row has one cell per column. *)
Definition rectangular (df : DataFrame) : Prop :=
  Forall (fun row => length row = length (columns df)) (rows df).

(** Each key of the index labels at most one column. *)
Definition unique_keys (df : DataFrame) : Prop :=
  Forall (fun key => (ColumnReconciler.occurrences key (columns df) <= 1)%nat)
         index_columns.

(** Three days of one device, one without [smart_9_raw] and one without
    [date]. *)
Definition sample_frame : DataFrame :=
  mkFrame
    ["capacity_bytes"; "date"; "failure"; "model"; "serial_number"; "smart_5_raw";
     "smart_9_raw"]%string
    [[Some (Num 4000); Some (Str "2020-01-03"); Some (Num 0); Some (Str "ST4000");
      Some (Str "A"); Some (Num 7); None];
     [Some (Num 4000); Some (Str "2020-01-01"); Some (Num 0); Some (Str "ST4000");
      Some (Str "A"); Some (Num 5); Some (Num 100)];
     [Some (Num 4000); None; Some (Num 0); Some (Str "ST4000");
      Some (Str "A"); Some (Num 6); Some (Num 101)]].

End Preprocessing.

(** ** Partition *)

(** [partition], lines 33-60, from the scaled table on: the windowed frame
    with its columns, [rename_columns] on the frame, and
    [preprocess_dataset]. *)
Module Partition.
Import WindowBuilder ColumnReconciler ValidityFilter Preprocessing.
Local Open Scope Z_scope.

(** The columns of [self.df] once line 54 has put the seven columns of
    [temporal] behind the scaled features. *)
Definition temporal : list string :=
  ["serial_number"; "date"; "failure"; "predict_val"; "validate_val"; "model";
   "capacity_bytes"]%string.

Definition df_columns (features : list string) : list string := features ++ temporal.

Section Frames.
Context {F : Type} (cell_of : F -> value).

(** The cells of one row of [self.df], in the order of its columns. *)
Definition record_cells (r : DeviceRecord F) : list (option value) :=
  ((fun cell : option F => cell_of <$> cell) <$> WindowBuilder.features r)
  ++ [Str <$> serial_number r; Str <$> date r; Num <$> failure r;
      Num <$> predict_val r; Num <$> validate_val r; Str <$> model r;
      Num <$> capacity_bytes r].

(** The cells of one row of a windowed frame: those of its blocks, left to
    right. *)
Definition window_cells (blocks : list (DeviceRecord F)) : list (option value) :=
  mjoin (record_cells <$> blocks).

(** [final_df], line 209: the windowed frame with the labels of its
    columns, every block a copy of the columns of [self.df]. *)
Definition final_df (features : list string) (W : WideTable F) : DataFrame :=
  mkFrame (windowed_columns (df_columns features) (depth W))
          ((fun row => window_cells row.2) <$> wrows W).

End Frames.

(** The new labels with the positions of their columns, in the order that
    [sort_index(axis=1)] gives them. *)
Definition label_le (a b : string * nat) : Prop := String.le a.1 b.1.

#[global] Instance label_le_dec : RelDecision label_le.
Proof. intros a b. unfold label_le. apply _. Defined.

Definition sorted_columns (columns : list string) : list (string * nat) :=
  stable_sort label_le (imap (fun j c => (c, j)) (renamed columns)).

(** The cells of a row in the order of the sorted columns. *)
Definition reorder (order : list (string * nat)) (row : list (option value))
  : list (option value) :=
  omap (fun p => row !! p.2) order.

(** [rename_columns], lines 111-132, on a frame: the columns get their new
    labels and are put in the order of these, each with its cells. *)
Definition rename_columns (df : DataFrame) : DataFrame :=
  let order := sorted_columns (columns df) in
  mkFrame (order.*1) (reorder order <$> rows df).

(** [partition], lines 56-60, on the scaled table [df] whose feature
    columns are labelled [features]: no result when [perform_windowing] has
    none. *)
Definition partition {F} (cell_of : F -> value) (features : list string)
    (df : Table F) (overlap windowing window_dim : Z)
  : option (outcome (Reshaper.ndarray (option value))) :=
  windowed_df ← perform_windowing df overlap window_dim;
  Some (preprocess_dataset overlap windowing window_dim
          (rename_columns (final_df cell_of features windowed_df))).

(** Every cell of the record holds a value, and there is one feature per
    label. *)
Definition complete_record {F} (width : nat) (r : DeviceRecord F) : Prop :=
  is_Some (serial_number r) /\ is_Some (date r) /\ is_Some (failure r) /\
  is_Some (predict_val r) /\ is_Some (validate_val r) /\ is_Some (model r) /\
  is_Some (capacity_bytes r) /\
  Forall is_Some (WindowBuilder.features r) /\
  length (WindowBuilder.features r) = width.

End Partition.

(** ** Networks *)

(** The temporal convolutional network and its trainer
    (src/algorithms/Networks_pytorch.py), on the shapes of the tensors: a
    tensor is the list of its dimensions and a layer maps the shape of its
    input to the shape of its output, or raises.  The shape rules are the
    ones of the torch layers. *)
Module Networks.
Local Open Scope Z_scope.

Record Conv1d := mkConv1d {
  in_channels : Z;
  out_channels : Z;
  kernel_size : Z;
  dilation : Z;
  padding : Z
}.

(** [nn.Conv1d] with stride 1 on [(N, C, L)] or [(C, L)]: the channels must
    be the ones of the layer and the dilated kernel must fit in the padded
    input. *)
Definition conv1d (layer : Conv1d) (x : list Z) : option (list Z) :=
  let out l := l + 2 * padding layer - dilation layer * (kernel_size layer - 1) - 1 + 1 in
  match x with
  | [n; c; l] =>
      if (c =? in_channels layer) && (0 <? out l)
      then Some [n; out_channels layer; out l] else None
  | [c; l] =>
      if (c =? in_channels layer) && (0 <? out l)
      then Some [out_channels layer; out l] else None
  | _ => None
  end.

(** [nn.AvgPool1d(kernel_size, stride=stride, padding=padding)]. *)
Definition avg_pool1d (kernel_size stride padding : Z) (x : list Z) : option (list Z) :=
  let out l := (l + 2 * padding - kernel_size) / stride + 1 in
  match x with
  | [n; c; l] => if 0 <? out l then Some [n; c; out l] else None
  | [c; l] => if 0 <? out l then Some [c; out l] else None
  | _ => None
  end.

(** [nn.BatchNorm1d(num_features)] on [(N, C, L)] or [(N, C)]: in training
    mode it refuses an input with a single value per channel. *)
Definition batch_norm1d (num_features : Z) (training : bool) (x : list Z)
  : option (list Z) :=
  match x with
  | [n; c; l] =>
      if (c =? num_features) && negb (training && (n * l =? 1)) then Some x else None
  | [n; c] =>
      if (c =? num_features) && negb (training && (n =? 1)) then Some x else None
  | _ => None
  end.

(** [nn.ReLU] and [nn.Dropout] keep the shape. *)
Definition relu (x : list Z) : option (list Z) := Some x.
Definition dropout (x : list Z) : option (list Z) := Some x.

(** [x.flatten(1)] *)
Definition flatten (x : list Z) : option (list Z) :=
  match x with
  | d0 :: d1 :: rest => Some [d0; foldr Z.mul 1 (d1 :: rest)]
  | _ => None
  end.

Record Linear := mkLinear { in_features : Z; out_features : Z }.

(** [nn.Linear]: the last dimension must be [in_features]. *)
Definition linear (layer : Linear) (x : list Z) : option (list Z) :=
  match last x with
  | Some d =>
      if d =? in_features layer
      then Some (take (length x - 1) x ++ [out_features layer]) else None
  | None => None
  end.

Record TCN_Network := mkTCN_Network {
  b0_tcn0 : Conv1d; b0_tcn0_BN : Z;
  b0_tcn1 : Conv1d; b0_tcn1_BN : Z;
  b1_tcn0 : Conv1d; b1_tcn0_BN : Z;
  b1_tcn1 : Conv1d; b1_tcn1_BN : Z;
  b2_tcn0 : Conv1d; b2_tcn0_BN : Z;
  b2_tcn1 : Conv1d; b2_tcn1_BN : Z;
  FC0 : Linear; FC0_BN : Z;
  FC1 : Linear; FC1_BN : Z;
  GwayFC : Linear
}.

(** [math.ceil(x / 2)] *)
Definition ceil_half (x : Z) : Z := - ((- x) / 2).

(** Line 216. *)
Definition dim_fc (history_signal : Z) : Z :=
  ceil_half (ceil_half (ceil_half history_signal)) * 128.

(** [TCN_Network.__init__], lines 151-233. *)
Definition TCN_Network_init (history_signal num_inputs : Z) : TCN_Network :=
  {| b0_tcn0 := mkConv1d num_inputs 32 3 2 2; b0_tcn0_BN := 32;
     b0_tcn1 := mkConv1d 32 64 3 2 2; b0_tcn1_BN := 64;
     b1_tcn0 := mkConv1d 64 64 3 2 2; b1_tcn0_BN := 64;
     b1_tcn1 := mkConv1d 64 128 3 2 2; b1_tcn1_BN := 128;
     b2_tcn0 := mkConv1d 128 128 3 4 4; b2_tcn0_BN := 128;
     b2_tcn1 := mkConv1d 128 128 3 4 4; b2_tcn1_BN := 128;
     FC0 := mkLinear (dim_fc history_signal) 256; FC0_BN := 256;
     FC1 := mkLinear 256 64; FC1_BN := 64;
     GwayFC := mkLinear 64 2 |}.

(** The three pooling layers of the network. *)
Definition conv_pool : list Z -> option (list Z) := avg_pool1d 3 2 1.

(** The layers of one line of [forward], innermost call first. *)
Definition sequential (layers : list (list Z -> option (list Z))) (x : list Z)
  : option (list Z) :=
  foldl (fun m layer => m ≫= layer) (Some x) layers.

(** [TCN_Network.forward], lines 235-260, in training or in evaluation
    mode. *)
Definition forward (net : TCN_Network) (training : bool) (x : list Z)
  : option (list Z) :=
  x ← sequential [conv1d (b0_tcn0 net); batch_norm1d (b0_tcn0_BN net) training; relu] x;
  x ← sequential [conv1d (b0_tcn1 net); conv_pool;
                  batch_norm1d (b0_tcn1_BN net) training; relu] x;
  x ← sequential [conv1d (b1_tcn0 net); batch_norm1d (b1_tcn0_BN net) training; relu] x;
  x ← sequential [conv1d (b1_tcn1 net); conv_pool;
                  batch_norm1d (b1_tcn1_BN net) training; relu] x;
  x ← sequential [conv1d (b2_tcn0 net); batch_norm1d (b2_tcn0_BN net) training; relu] x;
  x ← sequential [conv1d (b2_tcn1 net); conv_pool;
                  batch_norm1d (b2_tcn1_BN net) training; relu] x;
  x ← flatten x;
  x ← sequential [linear (FC0 net); batch_norm1d (FC0_BN net) training; relu; dropout] x;
  x ← sequential [linear (FC1 net); batch_norm1d (FC1_BN net) training; relu; dropout] x;
  linear (GwayFC net) x.

(** [X[start:stop]] on the first axis. *)
Definition rows_slice {T} (X : list T) (start stop : Z) : list T :=
  omap (fun p => X !! Z.to_nat p)
       (UnderSampler.slice_positions (Z.of_nat (length X)) start stop 1).

(** The batches of [TCNTrainer.train] and [TCNTrainer.test], lines 524 and
    534-536 (599 and 606-609), and likewise of [MLPTrainer], lines 713-722
    and 771-779: [nbatches + 1] slices of [batch_size] rows; [//] raises on
    a [batch_size] of zero. *)
Definition batches {T} (X : list T) (batch_size : Z) : option (list (list T)) :=
  if batch_size =? 0 then None
  else
    let nbatches := Z.of_nat (length X) / batch_size in
    Some ((fun batch_idx =>
             rows_slice X (batch_idx * batch_size) ((batch_idx + 1) * batch_size))
            <$> seqZ 0 (nbatches + 1)).

(** The forward passes of [TCNTrainer.train], lines 534-548, on the
    shuffled samples [Xtrain], each of [num_inputs] channels and
    [history_signal] steps: one pass per batch, in training mode; an
    exception in a pass ends [train].  The result lists the shapes of the
    outputs. *)
Definition train_forward {T} (net : TCN_Network) (Xtrain : list T)
    (num_inputs history_signal batch_size : Z) : option (list (list Z)) :=
  bs ← batches Xtrain batch_size;
  mapM (fun data => forward net true [Z.of_nat (length data); num_inputs; history_signal])
       bs.

End Networks.

(** ** FPLSTM *)

(** The data set and the batches of the LSTM network
    (src/algorithms/Networks_pytorch.py): [FPLSTMDataset], lines 15-55,
    [LSTMTrainer.FPLSTM_collate], lines 319-332, and the shapes of
    [FPLSTM.forward], lines 57-106.  Arrays and tensors are [ndarray]s; the
    two dictionaries of the data set are finite maps. *)
Module FPLSTM.
Import Reshaper.
Local Open Scope Z_scope.

(** [x[i, :, :]] for [i] in [range(x.shape[0])]. *)
Definition sample {A} (x : ndarray A) (i : nat) : option (ndarray A) :=
  match shape x with
  | [n; c; l] =>
      if decide (Z.of_nat i < n)
      then Some (mk_ndarray [c; l]
                   (take (Z.to_nat (c * l)) (drop (i * Z.to_nat (c * l)) (data x))))
      else None
  | _ => None
  end.

(** [np.swapaxes(m, 0, 1)] of a matrix. *)
Definition swapaxes {A} (m : ndarray A) : option (ndarray A) :=
  match shape m with
  | [r; c] =>
      Some (mk_ndarray [c; r]
              (mjoin ((fun j => omap (fun i => data m !! (i * Z.to_nat c + j)%nat)
                                     (seq 0 (Z.to_nat r)))
                        <$> seq 0 (Z.to_nat c))))
  | _ => None
  end.

Record FPLSTMDataset (A B : Type) := mkFPLSTMDataset {
  x_tensors : gmap Z (ndarray A);
  y_tensors : gmap Z B
}.
Arguments mkFPLSTMDataset {A B} _ _.
Arguments x_tensors {A B} _.
Arguments y_tensors {A B} _.

(** The dictionary [{i : f(i) for i in range(n)}]. *)
Definition dict_of_range {V} (n : nat) (f : nat -> option V) : option (gmap Z V) :=
  foldl (fun d i => d ← d; v ← f i; Some (<[Z.of_nat i := v]> d)) (Some ∅) (seq 0 n).

(** [FPLSTMDataset.__init__], lines 28-33, on an array [x] of three axes and
    the labels [y]. *)
Definition FPLSTMDataset_init {A B} (x : ndarray A) (y : list B)
  : option (FPLSTMDataset A B) :=
  match shape x with
  | [n; c; l] =>
      xs ← dict_of_range (Z.to_nat n) (fun i => sample x i ≫= swapaxes);
      ys ← dict_of_range (length y) (fun i => y !! i);
      Some (mkFPLSTMDataset xs ys)
  | _ => None
  end.

(** [__len__], lines 35-42. *)
Definition len {A B} (ds : FPLSTMDataset A B) : Z := Z.of_nat (base.size (x_tensors ds)).

(** [__getitem__], lines 44-55: a key that a dictionary does not have
    raises [KeyError]. *)
Definition getitem {A B} (ds : FPLSTMDataset A B) (idx : Z) : option (ndarray A * B) :=
  x ← x_tensors ds !! idx; y ← y_tensors ds !! idx; Some (x, y).

(** [torch.stack]: the tensors must be of one shape, and one at least. *)
Definition stack {A} (ts : list (ndarray A)) : option (ndarray A) :=
  match ts with
  | [] => None
  | t :: _ =>
      if decide (Forall (fun t' => shape t' = shape t) ts)
      then Some (mk_ndarray (Z.of_nat (length ts) :: shape t) (mjoin (data <$> ts)))
      else None
  end.

(** [t.permute(1, 0, 2)] of a tensor of three axes. *)
Definition permute_1_0_2 {A} (t : ndarray A) : option (ndarray A) :=
  match shape t with
  | [d0; d1; d2] =>
      Some (mk_ndarray [d1; d0; d2]
              (mjoin ((fun j =>
                 mjoin ((fun i =>
                   omap (fun k => data t !! ((i * Z.to_nat d1 + j) * Z.to_nat d2 + k)%nat)
                        (seq 0 (Z.to_nat d2)))
                   <$> seq 0 (Z.to_nat d0)))
                 <$> seq 0 (Z.to_nat d1))))
  | _ => None
  end.

(** [FPLSTM_collate], lines 319-332; the labels of the batch are stacked
    in a vector. *)
Definition FPLSTM_collate {A B} (batch : list (ndarray A * B))
  : option (ndarray A * list B) :=
  x_batch ← stack (batch.*1) ≫= permute_1_0_2;
  if decide (batch = []) then None else Some (x_batch, batch.*2).

Record FPLSTM := mkFPLSTM {
  lstm_size : Z;
  fc1_size : Z;
  input_size : Z;
  n_classes : Z
}.

(** [nn.LSTM(input_size, lstm_size)]: the hidden state that it returns
    last, of shape [(1, B, lstm_size)] on a batch of sequences [(T, B, F)]
    and of shape [(1, lstm_size)] on a single sequence [(T, F)]. *)
Definition lstm_last_hidden (net : FPLSTM) (x : list Z) : option (list Z) :=
  match x with
  | [t; b; f] =>
      if (f =? input_size net) && (0 <? t) then Some [1; b; lstm_size net] else None
  | [t; f] =>
      if (f =? input_size net) && (0 <? t) then Some [1; lstm_size net] else None
  | _ => None
  end.

(** [h[-1]]: the last entry along the first axis. *)
Definition last_entry (x : list Z) : option (list Z) :=
  match x with
  | d0 :: rest => if 0 <? d0 then Some rest else None
  | [] => None
  end.

(** [FPLSTM.forward], lines 87-106, on the shape of the batch. *)
Definition forward (net : FPLSTM) (x_batch : list Z) : option (list Z) :=
  h_last ← lstm_last_hidden net x_batch;
  h_last ← last_entry h_last;
  do1_out ← Networks.dropout h_last;
  fc1_out ← Networks.sequential
               [Networks.linear (Networks.mkLinear (lstm_size net) (fc1_size net));
                Networks.relu] do1_out;
  do2_out ← Networks.dropout fc1_out;
  Networks.linear (Networks.mkLinear (fc1_size net) (n_classes net)) do2_out.

(** Two windows of two channels and three steps, with their labels, and the
    data set built from them. *)
Definition sample_windows : ndarray Z := mk_ndarray [2; 2; 3] (seqZ 0 12).
Definition sample_labels : list Z := [0; 1].
Definition sample_dataset : FPLSTMDataset Z Z :=
  default (mkFPLSTMDataset ∅ ∅) (FPLSTMDataset_init sample_windows sample_labels).
Definition sample_batch : list (ndarray Z * Z) :=
  default [] (mapM (getitem sample_dataset) [1; 0]).

End FPLSTM.

(** ** Classification *)

(** The training of a scikit-learn estimator by [train_and_evaluate_model]
    (src/algorithms/Classification.py, lines 98-198).  The calls into
    scikit-learn are parameters of the section, each of which may raise;
    the control flow between them is the one of the source. *)
Module Classification.
Import Networks.
Local Open Scope Z_scope.

(** [range(start, stop, step)] for a step other than zero. *)
Definition range (start stop step : Z) : list Z :=
  if 0 <? step
  then (fun j => start + j * step) <$> seqZ 0 ((stop - start + step - 1) / step)
  else (fun j => start + j * step) <$> seqZ 0 ((start - stop - step - 1) / (- step)).

Section Training.
(** A training sample is a row of [X_train] with its label in [Y_train]. *)
Context {Sample Estimator Path : Type}.
(** [shuffle(X_train, Y_train)], line 119. *)
Context (shuffle : list Sample -> list Sample).
(** Lines 121-167: the search for the best parameters on the whole
    training set, its scores and [save_best_params_to_json]. *)
Context (search : list Sample -> option Estimator).
(** [best_model.fit(X, Y)], line 174. *)
Context (fit : Estimator -> list Sample -> option Estimator).
(** Lines 178-196: the prediction on the test set, the metrics and the
    dump of the model, which give the path of the saved model. *)
Context (report_and_dump : Estimator -> option Path).

(** The batches of lines 170-174:
    [batch_size = len(X_train) // n_iterations] and one slice
    [X_train[i:i+batch_size]] for [i in range(0, len(X_train), batch_size)].
    [//] raises on [n_iterations = 0] and [range] on a step of zero. *)
Definition fit_batches (X_train : list Sample) (n_iterations : Z)
  : option (list (list Sample)) :=
  if n_iterations =? 0 then None
  else
    let batch_size := Z.of_nat (length X_train) / n_iterations in
    if batch_size =? 0 then None
    else Some ((fun i => rows_slice X_train i (i + batch_size))
                 <$> range 0 (Z.of_nat (length X_train)) batch_size).

(** The loop of lines 173-175. *)
Fixpoint fit_all (best_model : Estimator) (bs : list (list Sample))
  : option Estimator :=
  match bs with
  | [] => Some best_model
  | b :: bs => best_model ← fit best_model b; fit_all best_model bs
  end.

(** [train_and_evaluate_model], lines 98-198. *)
Definition train_and_evaluate_model (X_train : list Sample) (n_iterations : Z)
  : option Path :=
  let X_train := shuffle X_train in
  best_model ← search X_train;
  bs ← fit_batches X_train n_iterations;
  best_model ← fit_all best_model bs;
  report_and_dump best_model.

End Training.

End Classification.

(** ** LSTMTrainer *)

(** The bookkeeping of [LSTMTrainer.train]
    (src/algorithms/Networks_pytorch.py, lines 334-395): the rows of the
    arrays [predictions] and [true_labels] that the metrics of an epoch
    are computed from.  Both arrays are written and cut at the same
    positions, so they are one array here, of the samples paired with the
    output of the model for them. *)
Module LSTMTrainer.
Import Networks.
Local Open Scope Z_scope.

(** [arr[start:stop] = vals] on the first axis: numpy wants as many values
    as rows in the slice, or a single value, which it repeats. *)
Definition slice_assign {T} (arr : list T) (start stop : Z) (vals : list T)
  : option (list T) :=
  let len := Z.of_nat (length arr) in
  let a := UnderSampler.adjust len start in
  let b := Z.max a (UnderSampler.adjust len stop) in
  if decide (Z.of_nat (length vals) = b - a)
  then Some (take (Z.to_nat a) arr ++ vals ++ drop (Z.to_nat b) arr)
  else match vals with
       | [v] => Some (take (Z.to_nat a) arr ++ replicate (Z.to_nat (b - a)) v
                        ++ drop (Z.to_nat b) arr)
       | _ => None
       end.

(** The batches of [DataLoader(dataset, batch_size=batch_size)], on the
    samples in the order in which the loader draws them: slices of
    [batch_size] samples, the last one shorter when [batch_size] does not
    divide their number.  The loader refuses a [batch_size] that is not
    positive. *)
Definition loader_batches {T} (dataset : list T) (batch_size : Z)
  : option (list (list T)) :=
  if batch_size <=? 0 then None
  else Some ((fun i => rows_slice dataset (i * batch_size) ((i + 1) * batch_size))
               <$> seqZ 0 ((Z.of_nat (length dataset) + batch_size - 1) / batch_size)).

(** One iteration of the loop, lines 354-367, on the array and on the
    variables [batch_idx] and [batchsize], which are unbound before the
    first iteration: [batchsize] is the number of samples of the current
    batch. *)
Definition record_batch {T} (st : list T * option (Z * Z)) (batch_idx : Z)
    (data : list T) : option (list T * option (Z * Z)) :=
  let batchsize := Z.of_nat (length data) in
  arr ← slice_assign st.1 (batch_idx * batchsize) ((batch_idx + 1) * batchsize) data;
  Some (arr, Some (batch_idx, batchsize)).

(** The rows that [train] passes to the metrics, lines 346-395: an array of
    one row per sample, zero at first, is written batch by batch and cut
    at [(batch_idx + 1) * batchsize] with the values that the two
    variables have after the loop. *)
Definition train_records {T} (zero : T) (dataset : list T) (batch_size : Z)
  : option (list T) :=
  bs ← loader_batches dataset batch_size;
  st ← foldl (fun st p => st ≫= fun st => record_batch st (Z.of_nat p.1) p.2)
             (Some (replicate (length dataset) zero, None)) (imap pair bs);
  '(batch_idx, batchsize) ← st.2;
  Some (rows_slice st.1 0 ((batch_idx + 1) * batchsize)).

End LSTMTrainer.

(** * Properties *)

(** Replace a boolean comparison on [Z] by the truth value that [lia]
    establishes for it. *)
Ltac ztest_true t :=
  lazymatch t with
  | (_ <? _)%Z => replace t with true by (symmetry; apply Z.ltb_lt; lia)
  | (_ <=? _)%Z => replace t with true by (symmetry; apply Z.leb_le; lia)
  | (_ =? _)%Z => replace t with true by (symmetry; apply Z.eqb_eq; lia)
  end.

Ltac ztest_false t :=
  lazymatch t with
  | (_ <? _)%Z => replace t with false by (symmetry; apply Z.ltb_ge; lia)
  | (_ <=? _)%Z => replace t with false by (symmetry; apply Z.leb_gt; lia)
  | (_ =? _)%Z => replace t with false by (symmetry; apply Z.eqb_neq; lia)
  end.
(** ** Factorizer: termination and correctness of the trial division *)

Section FactorizerFacts.
Import Factorizer.
Local Open Scope Z_scope.

Lemma product_snoc l x : product (l ++ [x]) = product l * x.
Proof. unfold product. induction l as [|y l IH]; simpl; [lia|]. rewrite IH. lia. Qed.

Lemma Sorted_le_snoc (l : list Z) y :
  Sorted Z.le l -> Forall (fun x => x <= y) l -> Sorted Z.le (l ++ [y]).
Proof.
  induction l as [|x l IH]; simpl; intros Hs Hb.
  - repeat constructor.
  - apply Sorted_inv in Hs as [Hs Hhd]. apply Forall_cons in Hb as [Hx Hb].
    constructor; [auto|].
    destruct l as [|z l]; simpl; constructor; [lia|].
    by inversion Hhd.
Qed.

Lemma strip_fuel_mono fuel fuel' f n acc r :
  strip fuel f n acc = Some r -> (fuel <= fuel')%nat -> strip fuel' f n acc = Some r.
Proof.
  revert fuel' n acc. induction fuel as [|fuel IH]; intros fuel' n acc; [done|].
  destruct fuel' as [|fuel']; [lia|]. simpl.
  destruct (n mod f =? 0); [|done]. intros H ?. apply IH; [done|lia].
Qed.

Lemma odd_loop_fuel_mono fuel fuel' f n acc r :
  odd_loop fuel f n acc = Some r -> (fuel <= fuel')%nat ->
  odd_loop fuel' f n acc = Some r.
Proof.
  revert fuel' f n acc. induction fuel as [|fuel IH]; intros fuel' f n acc; [done|].
  destruct fuel' as [|fuel']; [lia|]. simpl.
  destruct (f * f <=? n); [|done].
  destruct (strip fuel f n acc) as [[n' acc']|] eqn:Hs; [|done].
  intros H ?. rewrite (strip_fuel_mono _ fuel' _ _ _ _ Hs) by lia.
  apply IH; [done|lia].
Qed.

Lemma factors_fuel_mono fuel fuel' n l :
  factors_fuel fuel n = Some l -> (fuel <= fuel')%nat -> factors_fuel fuel' n = Some l.
Proof.
  unfold factors_fuel.
  destruct (strip fuel 2 n []) as [[n1 a1]|] eqn:Hs; [|done].
  destruct (odd_loop fuel 3 n1 a1) as [[n2 a2]|] eqn:Ho; [|done].
  intros H ?. rewrite (strip_fuel_mono _ fuel' _ _ _ _ Hs) by done.
  by rewrite (odd_loop_fuel_mono _ fuel' _ _ _ _ Ho).
Qed.

(** A factor that divides the residue while nothing smaller does is prime. *)
Lemma least_divisor_prime f n :
  2 <= f -> (f | n) -> no_small_div f n -> Z.prime f.
Proof.
  intros Hf Hdiv Hno. split; [lia|].
  intros d Hd Hdf. apply (Hno d); [lia|]. by etrans.
Qed.

(** When the square of [f] exceeds the residue the residue is prime. *)
Lemma residue_prime f n :
  0 <= f -> 1 < n -> n < f * f -> no_small_div f n -> Z.prime n.
Proof.
  intros Hf Hn Hsq Hno. split; [done|].
  intros d Hd [q Hq].
  assert (1 < q < n) by nia.
  destruct (Z_lt_le_dec d f) as [Hlt|Hge].
  - apply (Hno d); [lia|]. by exists q.
  - destruct (Z_lt_le_dec q f) as [Hlt'|Hge'].
    + apply (Hno q); [lia|]. exists d. lia.
    + assert (f * f <= q * d) by (apply Z.mul_le_mono_nonneg; lia). lia.
Qed.

Lemma strip_spec N fuel f n acc :
  2 <= f -> Inv N f n acc -> (Z.to_nat n < fuel)%nat ->
  exists n' acc',
    strip fuel f n acc = Some (n', acc') /\
    Inv N f n' acc' /\ n' <= n /\ ~ (f | n').
Proof.
  intros Hf. revert n acc.
  induction fuel as [|fuel IH]; intros n acc HI Hfuel; [lia|].
  pose proof HI as [Hpos Hprod Hpr Hso Hbd Hno]. simpl.
  destruct (n mod f =? 0) eqn:Hmod.
  - apply Z.eqb_eq in Hmod.
    assert (Hdiv : (f | n)) by (apply Z.mod_divide; [lia|done]).
    assert (Heq : n = f * (n / f)) by (apply Z_div_exact_full_2; [lia|done]).
    assert (1 <= n / f < n) by nia.
    destruct (IH (n / f) (acc ++ [f])) as (n' & acc' & Hs & HI' & Hle & Hnd).
    + split.
      * lia.
      * rewrite product_snoc. rewrite <- Hprod. rewrite Heq at 2. ring.
      * apply Forall_app. split; [done|]. constructor; [|done].
        by apply (least_divisor_prime f n).
      * by apply Sorted_le_snoc.
      * apply Forall_app. split; [done|]. constructor; [lia|done].
      * intros d Hd Hdn. apply (Hno d Hd).
        rewrite Heq. by apply Z.divide_mul_r.
    + lia.
    + exists n', acc'. split_and!; [done|done|lia|done].
  - apply Z.eqb_neq in Hmod. exists n, acc. split_and!; [done|done|lia|].
    intros Hdiv. apply Hmod. apply Z.mod_divide; [lia|done].
Qed.

Lemma Inv_step N f n acc : Inv N f n acc -> ~ (f | n) -> Inv N (f + 1) n acc.
Proof.
  intros [Hpos Hprod Hpr Hso Hbd Hno] Hnd. split; try done.
  - eapply Forall_impl; [exact Hbd|]. simpl. intros; lia.
  - intros d Hd Hdn. destruct (decide (d = f)) as [->|Hne]; [done|].
    apply (Hno d); [lia|done].
Qed.

Lemma Inv_skip_even N f n acc :
  Inv N f n acc -> 2 < f -> (2 | f) -> Inv N (f + 1) n acc.
Proof.
  intros HI Hf H2. apply Inv_step; [done|].
  intros Hfn. apply (inv_nodiv _ _ _ _ HI 2); [lia|]. by etrans.
Qed.

Lemma Inv_next_odd N f n acc :
  Inv N f n acc -> 3 <= f -> Z.odd f = true -> ~ (f | n) -> Inv N (f + 2) n acc.
Proof.
  intros HI Hf Hodd Hnd.
  replace (f + 2) with (f + 1 + 1) by lia.
  apply Inv_skip_even; [by apply Inv_step|lia|].
  apply Z.odd_spec in Hodd as [k ->]. exists (k + 1). lia.
Qed.

Lemma odd_loop_spec N fuel f n acc :
  3 <= f -> Z.odd f = true -> Inv N f n acc ->
  (Z.to_nat n + Z.to_nat (n + 1 - f) < fuel)%nat ->
  exists n' acc' f',
    odd_loop fuel f n acc = Some (n', acc') /\
    Inv N f' n' acc' /\ 0 <= f' /\ n' < f' * f'.
Proof.
  revert f n acc.
  induction fuel as [|fuel IH]; intros f n acc Hf Hodd HI Hfuel; [lia|].
  simpl. destruct (f * f <=? n) eqn:Hsq.
  - apply Z.leb_le in Hsq.
    assert (f <= n) by nia.
    destruct (strip_spec N fuel f n acc) as (n' & acc' & Hs & HI' & Hle & Hnd);
      [lia|done|lia|].
    rewrite Hs. apply IH.
    + lia.
    + rewrite Z.odd_add, Hodd. done.
    + by apply Inv_next_odd.
    + pose proof (inv_pos _ _ _ _ HI'). lia.
  - apply Z.leb_gt in Hsq. exists n, acc, f. split_and!; [done|done|lia|lia].
Qed.

Lemma factors_fuel_spec n :
  0 < n ->
  exists l, factors n = Some l /\
            Forall Z.prime l /\ Sorted Z.le l /\ product l = n.
Proof.
  intros Hn. unfold factors, factors_fuel, fuel_for.
  assert (HI0 : Inv n 2 n []).
  { split; [lia|unfold product; simpl; lia|done|constructor|done|].
    intros d Hd. lia. }
  destruct (strip_spec n (S (2 * Z.to_nat (Z.abs n))) 2 n [])
    as (n1 & a1 & Hs & HI1 & Hle1 & Hnd1); [lia|done|lia|].
  rewrite Hs.
  pose proof (inv_pos _ _ _ _ HI1) as Hpos1.
  destruct (odd_loop_spec n (S (2 * Z.to_nat (Z.abs n))) 3 n1 a1)
    as (n2 & a2 & f' & Ho & HI2 & Hf' & Hsq); [lia|done| |lia|].
  { by apply (Inv_step n 2). }
  rewrite Ho. destruct HI2 as [Hpos Hprod Hpr Hso Hbd Hno].
  destruct (1 <? n2) eqn:Hlt.
  - apply Z.ltb_lt in Hlt.
    assert (Hge : f' <= n2).
    { destruct (Z_lt_le_dec n2 f') as [Hc|]; [|done].
      exfalso. apply (Hno n2); [lia|]. reflexivity. }
    exists (a2 ++ [n2]). split_and!; [done| | |].
    + apply Forall_app. split; [done|]. constructor; [|done].
      by apply (residue_prime f').
    + apply Sorted_le_snoc; [done|].
      eapply Forall_impl; [exact Hbd|]. simpl. intros; lia.
    + rewrite product_snoc. done.
  - apply Z.ltb_ge in Hlt. exists a2. split_and!; [done|done|done|].
    assert (n2 = 1) as -> by lia. lia.
Qed.

(** C8.  For a positive [n], [factors(n)] returns (with the default fuel and
    with any larger one) a list of primes in ascending order whose product
    is [n]; [factors(1)] is the empty list and [factors(12)] is [2, 2, 3]. *)
Theorem factors_prime_factorisation (n : Z) (Hn : 0 < n) :
  exists l,
    factors n = Some l /\
    (forall fuel, (fuel_for n <= fuel)%nat -> factors_fuel fuel n = Some l) /\
    Forall Z.prime l /\ Sorted Z.le l /\ product l = n /\
    (n = 1 -> l = []) /\ (n = 12 -> l = [2; 2; 3]).
Proof.
  destruct (factors_fuel_spec n Hn) as (l & Hl & Hpr & Hso & Hprod).
  exists l. split_and!; try done.
  - intros fuel Hfuel. by apply (factors_fuel_mono (fuel_for n)).
  - intros ->. vm_compute in Hl. congruence.
  - intros ->. vm_compute in Hl. congruence.
Qed.

Lemma factors_prime_factorisation_witness :
  exists l, factors 12 = Some l /\
    (forall fuel, (fuel_for 12 <= fuel)%nat -> factors_fuel fuel 12 = Some l) /\
    Forall Z.prime l /\ Sorted Z.le l /\ product l = 12 /\
    (12 = 1 -> l = []) /\ (12 = 12 -> l = [2; 2; 3]).
Proof. apply (factors_prime_factorisation 12). lia. Defined.

(** The loop [while n % 2 == 0] never ends on [n = 0]: no amount of fuel
    yields a result. *)
Lemma factors_zero_diverges fuel : factors_fuel fuel 0 = None.
Proof.
  unfold factors_fuel.
  assert (H : forall acc, strip fuel 2 0 acc = None).
  { induction fuel as [|fuel IH]; intros acc; [done|]. simpl. apply IH. }
  by rewrite H.
Qed.

End FactorizerFacts.

(** ** UnderSampler: which positions are retained *)

Section UnderSamplerFacts.
Import UnderSampler.
Local Open Scope Z_scope.

Example under_sample_10_2 :
  under_sample (constant_group 100 10 (Some 0)) 2 = Some [101].
Proof. vm_compute. reflexivity. Qed.

(** *** Strictly increasing lists of integers *)

Lemma StronglySorted_lt_NoDup (l : list Z) : StronglySorted Z.lt l -> NoDup l.
Proof.
  induction 1 as [|x l Hl IH Hx]; constructor; [|done].
  intros Hin. rewrite Forall_forall in Hx. specialize (Hx x Hin). lia.
Qed.

Lemma StronglySorted_lt_ext (l1 l2 : list Z) :
  StronglySorted Z.lt l1 -> StronglySorted Z.lt l2 ->
  (forall x, x ∈ l1 <-> x ∈ l2) -> l1 = l2.
Proof.
  intros H1 H2 Hext.
  apply (StronglySorted_unique_strong Z.lt); [intros; lia|done|done|].
  apply NoDup_Permutation; auto using StronglySorted_lt_NoDup.
Qed.

Lemma StronglySorted_filter {A} (R : relation A) (P : A -> Prop)
    `{forall x, Decision (P x)} (l : list A) :
  StronglySorted R l -> StronglySorted R (filter P l).
Proof.
  induction 1 as [|x l Hl IH Hx]; [constructor|].
  rewrite filter_cons. destruct (decide (P x)); [|done].
  constructor; [done|].
  rewrite Forall_forall in Hx |- *. intros y [_ Hy]%list_elem_of_filter. auto.
Qed.

Lemma StronglySorted_seqZ m n : StronglySorted Z.lt (seqZ m n).
Proof.
  unfold seqZ. apply (StronglySorted_fmap _ lt); [intros; lia|].
  generalize (Z.to_nat n) as len, 0%nat as a.
  induction len as [|len IH]; intros a; simpl; constructor; [apply IH|].
  apply Forall_forall. intros y Hy%elem_of_seq. lia.
Qed.

(** *** The slice [start:-7:k] *)

Lemma slice_positions_sorted len start stop step :
  0 < step -> StronglySorted Z.lt (slice_positions len start stop step).
Proof.
  intros Hstep. unfold slice_positions.
  apply (StronglySorted_fmap _ Z.lt); [intros; nia|apply StronglySorted_seqZ].
Qed.

Lemma elem_of_slice_positions len k p :
  0 < k -> 0 <= len ->
  p ∈ slice_positions len ((len - 1) mod k) (-7) k <-> retained len k p /\ 0 <= p < len.
Proof.
  intros Hk Hlen. unfold slice_positions, retained, adjust.
  pose proof (Z.mod_pos_bound (len - 1) k Hk) as Hs.
  set (s := (len - 1) mod k) in *.
  rewrite list_elem_of_fmap. setoid_rewrite elem_of_seqZ.
  ztest_true (-7 <? 0).
  ztest_false (s <? 0).
  destruct (-7 + len <? 0) eqn:H7; [apply Z.ltb_lt in H7|apply Z.ltb_ge in H7];
    destruct (len <=? s) eqn:Hls; [apply Z.leb_le in Hls|apply Z.leb_gt in Hls
                                   |apply Z.leb_le in Hls|apply Z.leb_gt in Hls].
  - ztest_false (len <? 0).
    split; [intros (j & -> & ?); lia|intros [(? & ? & ?) ?]; lia].
  - ztest_false (s <? 0).
    split; [intros (j & -> & ?); lia|intros [(? & ? & ?) ?]; lia].
  - ztest_false (len <? -7 + len).
    split; [intros (j & -> & ?); lia|intros [(? & ? & ?) ?]; lia].
  - destruct (s <? -7 + len) eqn:Hlt; [apply Z.ltb_lt in Hlt|apply Z.ltb_ge in Hlt].
    + split.
      * intros (j & -> & Hj).
        assert (j * k <= -7 + len - s - 1).
        { etrans; [|apply (Z.mul_div_le _ k); lia]. nia. }
        split_and!; try lia; try nia.
        replace (s + j * k - s) with (j * k) by lia. by apply Z.mod_mul; lia.
      * intros [(Hge & Hmod & Hp) Hr].
        exists ((p - s) / k).
        assert (p - s = k * ((p - s) / k)) as Hdiv
          by (apply Z_div_exact_full_2; [lia|done]).
        split; [lia|].
        assert (0 <= (p - s) / k) by (apply Z.div_pos; lia).
        assert ((p - s) / k <= (-7 + len - s - 1) / k)
          by (apply Z.div_le_mono; lia).
        lia.
    + split; [intros (j & -> & ?); lia|intros [(? & ? & ?) ?]; lia].
Qed.

Lemma slice_positions_retained len k :
  0 < k -> 0 <= len ->
  slice_positions len ((len - 1) mod k) (-7) k = retained_positions len k.
Proof.
  intros Hk Hlen. apply StronglySorted_lt_ext.
  - by apply slice_positions_sorted.
  - apply StronglySorted_filter, StronglySorted_seqZ.
  - intros p. rewrite elem_of_slice_positions by done.
    unfold retained_positions. rewrite list_elem_of_filter, elem_of_seqZ.
    split; intros [? ?]; (split; [done|lia]).
Qed.

(** *** From positions to index labels *)

Lemma length_rolling_max k cells : length (rolling_max k cells) = length cells.
Proof. unfold rolling_max. apply length_imap. Qed.

Lemma rolling_max_series_index k (s : Series) : (rolling_max_series k s).*1 = s.*1.
Proof.
  unfold rolling_max_series. apply fst_zip.
  by rewrite length_rolling_max, !length_fmap.
Qed.

Lemma length_rolling_max_series k (s : Series) :
  length (rolling_max_series k s) = length s.
Proof. by rewrite <- (length_fmap fst), rolling_max_series_index, length_fmap. Qed.

Lemma slice_index (s : Series) ps :
  (omap (fun p => s !! Z.to_nat p) ps).*1 = omap (fun p => s.*1 !! Z.to_nat p) ps.
Proof.
  induction ps as [|p ps IH]; [done|]. csimpl.
  rewrite list_lookup_fmap. destruct (s !! Z.to_nat p); csimpl; by rewrite IH.
Qed.

Lemma predict_val_column_index df : (predict_val_column df).*1 = idx <$> df.
Proof. unfold predict_val_column. by rewrite <- list_fmap_compose. Qed.

(** [under_sample] returns the labels found at the positions of the slice. *)
Lemma under_sample_labels df k :
  0 < k ->
  under_sample df k =
  Some (labels_at df (slice_positions (Z.of_nat (length df))
                                      ((Z.of_nat (length df) - 1) mod k) (-7) k)).
Proof.
  intros Hk. unfold under_sample, slice, labels_at.
  ztest_false (k <=? 0).
  cbv zeta. rewrite slice_index, rolling_max_series_index, predict_val_column_index.
  rewrite length_rolling_max_series. unfold predict_val_column.
  by rewrite length_fmap.
Qed.

(** Every position of the slice is inside the group, so no label is lost. *)
Lemma length_labels_at df ps :
  Forall (fun p => 0 <= p < Z.of_nat (length df)) ps ->
  length (labels_at df ps) = length ps.
Proof.
  unfold labels_at. induction 1 as [|p ps Hp _ IH]; [done|]. csimpl.
  destruct ((idx <$> df) !! Z.to_nat p) eqn:Hl; csimpl; [by rewrite IH|].
  apply lookup_ge_None in Hl. rewrite length_fmap in Hl. lia.
Qed.

Lemma retained_positions_in_range len k :
  Forall (fun p => 0 <= p < len) (retained_positions len k).
Proof.
  apply Forall_forall. intros p [_ Hp]%list_elem_of_filter.
  apply elem_of_seqZ in Hp. lia.
Qed.

(** C5.  For a group of length [L] and a positive factor [k],
    [under_sample] returns exactly the index labels of the rows at the
    positions [(L - 1) mod k], [(L - 1) mod k + k], ... that lie before the
    last seven positions of the group, in ascending order of position, one
    label per such position. *)
Theorem under_sample_stride (df : Group) (k : Z) (Hk : 0 < k) :
  let L := Z.of_nat (length df) in
  under_sample df k = Some (labels_at df (retained_positions L k)) /\
  length (labels_at df (retained_positions L k)) = length (retained_positions L k) /\
  StronglySorted Z.lt (retained_positions L k) /\
  forall p, p ∈ retained_positions L k <->
            0 <= p < L - 7 /\ exists j, 0 <= j /\ p = (L - 1) mod k + j * k.
Proof.
  intros L. split_and!.
  - rewrite under_sample_labels by done. fold L.
    by rewrite slice_positions_retained by lia.
  - apply length_labels_at, retained_positions_in_range.
  - apply StronglySorted_filter, StronglySorted_seqZ.
  - intros p. unfold retained_positions.
    rewrite list_elem_of_filter, elem_of_seqZ. unfold retained.
    pose proof (Z.mod_pos_bound (L - 1) k Hk) as Hs.
    split.
    + intros [(Hge & Hmod & Hlt) Hr]. split; [lia|].
      exists ((p - (L - 1) mod k) / k).
      assert (p - (L - 1) mod k = k * ((p - (L - 1) mod k) / k)) as Hdiv
        by (apply Z_div_exact_full_2; [lia|done]).
      split; [apply Z.div_pos; lia|lia].
    + intros [Hr (j & Hj & ->)]. split_and!; try lia; try nia.
      replace ((L - 1) mod k + j * k - (L - 1) mod k) with (j * k) by lia.
      apply Z.mod_mul. lia.
Qed.

Lemma under_sample_stride_witness :
  under_sample (constant_group 100 10 (Some 0)) 2 = Some [101] /\
  labels_at (constant_group 100 10 (Some 0)) (retained_positions 10 2) = [101].
Proof.
  destruct (under_sample_stride (constant_group 100 10 (Some 0)) 2) as (H & _);
    [lia|].
  split; [rewrite H|]; reflexivity.
Defined.

(** The selected labels are labels of the group. *)
Lemma under_sample_subset df k ix l :
  under_sample df k = Some ix -> l ∈ ix -> l ∈ idx <$> df.
Proof.
  unfold under_sample. destruct (k <=? 0); [done|]. intros [= <-].
  unfold slice. rewrite slice_index, rolling_max_series_index, predict_val_column_index.
  intros (p & _ & Hp)%list_elem_of_omap. by eapply list_elem_of_lookup_2.
Qed.

(** C9.  Two groups with the same index labels (hence the same length) yield
    the same selection for every factor, whatever their [predict_val]
    cells hold: the rolling maximum has no influence on the result. *)
Theorem under_sample_ignores_predict_val (df1 df2 : Group) (k : Z)
    (Hidx : idx <$> df1 = idx <$> df2) :
  under_sample df1 k = under_sample df2 k.
Proof.
  assert (Hlen : length df1 = length df2).
  { by rewrite <- (length_fmap idx df1), Hidx, length_fmap. }
  destruct (Z_lt_le_dec 0 k) as [Hk|Hk].
  - rewrite !under_sample_labels by done. unfold labels_at. by rewrite Hidx, Hlen.
  - unfold under_sample. by ztest_true (k <=? 0).
Qed.

Lemma under_sample_ignores_predict_val_witness :
  under_sample (constant_group 0 20 (Some 0)) 3 =
  under_sample (with_predict_val (constant_group 0 20 (Some 0)) None) 3.
Proof. apply under_sample_ignores_predict_val. reflexivity. Defined.

Lemma under_sample_short_group_nil (df : Group) (k : Z) :
  0 < k -> (length df <= 7)%nat -> under_sample df k = Some [].
Proof.
  intros Hk Hlen. rewrite under_sample_labels by done.
  rewrite slice_positions_retained by lia.
  replace (retained_positions _ _) with (@nil Z); [done|].
  symmetry. apply elem_of_nil_inv. intros p [(_ & _ & Hp) Hr]%list_elem_of_filter.
  apply elem_of_seqZ in Hr. lia.
Qed.

(** *** Where the rolling maximum is defined *)

Lemma window_max_is_Some (w : list (option Z)) :
  w <> [] -> Forall is_Some w -> is_Some (window_max w).
Proof.
  destruct w as [|c w]; [done|]. intros _ Hall.
  apply Forall_cons in Hall as [[m ->] Hw]. simpl.
  revert m. induction Hw as [|c' w [v ->] _ IH]; intros m; simpl; [by eexists|].
  apply IH.
Qed.

Lemma rolling_at_early df k p :
  0 <= p < k - 1 -> rolling_at df k p = None.
Proof.
  intros Hp. unfold rolling_at, rolling_max. rewrite list_lookup_imap.
  destruct ((predict_val <$> df) !! Z.to_nat p); [simpl|done].
  by ztest_true (Z.of_nat (Z.to_nat p) + 1 <? k).
Qed.

Lemma rolling_at_full_window df k p :
  0 < k -> k - 1 <= p < Z.of_nat (length df) ->
  Forall (fun r => is_Some (predict_val r)) df ->
  is_Some (rolling_at df k p).
Proof.
  intros Hk Hp Hall. unfold rolling_at, rolling_max. rewrite list_lookup_imap.
  destruct ((predict_val <$> df) !! Z.to_nat p) eqn:Hl.
  - simpl. ztest_false (Z.of_nat (Z.to_nat p) + 1 <? k).
    apply window_max_is_Some.
    + intros Hnil. apply (f_equal length) in Hnil.
      rewrite length_take, length_drop, length_fmap in Hnil. simpl in Hnil. lia.
    + apply Forall_take, Forall_drop, Forall_fmap.
      eapply Forall_impl; [exact Hall|done].
  - apply lookup_ge_None in Hl. rewrite length_fmap in Hl. lia.
Qed.

(** The cell that [under_sample] computes at a position of the rolled
    series is the one [rolling_at] names. *)
Lemma rolling_max_series_lookup df k i lbl v :
  rolling_max_series k (predict_val_column df) !! i = Some (lbl, v) ->
  (idx <$> df) !! i = Some lbl /\ rolling_at df k (Z.of_nat i) = v.
Proof.
  unfold rolling_max_series, rolling_at. rewrite Nat2Z.id.
  intros H. apply lookup_zip_with_Some in H as (a & b & [= -> ->] & Ha & Hb).
  rewrite predict_val_column_index in Ha. split; [done|].
  unfold predict_val_column in Hb. rewrite <- list_fmap_compose in Hb.
  change (snd ∘ _) with predict_val in Hb. by rewrite Hb.
Qed.

(** C3, counterexample.  A group of ten rows labelled 100..109 sampled with
    factor 3: the selection is the label at position 0, where the trailing
    3-row rolling maximum is undefined although no [predict_val] is
    missing. *)
Lemma under_sample_selects_undefined_max :
  under_sample (constant_group 100 10 (Some 0)) 3 = Some [100] /\
  labels_at (constant_group 100 10 (Some 0)) [0] = [100] /\
  0 < 3 - 1 /\
  rolling_at (constant_group 100 10 (Some 0)) 3 0 = None.
Proof. vm_compute. done. Qed.

(** A missing [predict_val] inside the window also leaves the rolling maximum
    undefined at a selected position, here position 1 with factor 2. *)
Example under_sample_selects_nan_window :
  under_sample (mkRow 100 None :: constant_group 101 9 (Some 0)) 2 = Some [101] /\
  rolling_at (mkRow 100 None :: constant_group 101 9 (Some 0)) 2 1 = None.
Proof. vm_compute. done. Qed.

(** C3, amended.  For a positive factor [k], a selected position [p] below
    [k - 1] has an undefined rolling maximum, and this can only be the first
    selected position [(L - 1) mod k]; a selected position at or after
    [k - 1] has a defined rolling maximum when the group has no missing
    [predict_val]. *)
Theorem under_sample_rolling_max_defined (df : Group) (k p : Z) (Hk : 0 < k)
    (Hsel : p ∈ retained_positions (Z.of_nat (length df)) k) :
  let L := Z.of_nat (length df) in
  under_sample df k = Some (labels_at df (retained_positions L k)) /\
  (p < k - 1 -> rolling_at df k p = None /\ p = (L - 1) mod k) /\
  (k - 1 <= p -> Forall (fun r => is_Some (predict_val r)) df ->
   is_Some (rolling_at df k p)).
Proof.
  intros L.
  apply list_elem_of_filter in Hsel as [(Hge & Hmod & Hlt) Hr].
  apply elem_of_seqZ in Hr. fold L in Hge, Hmod, Hlt, Hr.
  pose proof (Z.mod_pos_bound (L - 1) k Hk) as Hs.
  split_and!.
  - rewrite under_sample_labels by done. fold L.
    by rewrite slice_positions_retained by lia.
  - intros Hp. split; [apply rolling_at_early; lia|].
    rewrite Z.mod_small in Hmod by lia. lia.
  - intros Hp Hall. apply rolling_at_full_window; [done|lia|done].
Qed.

Lemma under_sample_rolling_max_defined_witness :
  under_sample (constant_group 100 10 (Some 0)) 3 =
    Some (labels_at (constant_group 100 10 (Some 0)) (retained_positions 10 3)) /\
  (0 < 3 - 1 ->
   rolling_at (constant_group 100 10 (Some 0)) 3 0 = None /\ 0 = (10 - 1) mod 3) /\
  (3 - 1 <= 0 ->
   Forall (fun r => is_Some (predict_val r)) (constant_group 100 10 (Some 0)) ->
   is_Some (rolling_at (constant_group 100 10 (Some 0)) 3 0)).
Proof.
  apply (under_sample_rolling_max_defined (constant_group 100 10 (Some 0)) 3 0).
  - lia.
  - vm_compute. left.
Defined.

End UnderSamplerFacts.

(** ** Reshaper: effective depth and shape of the tensor *)

Section ReshaperFacts.
Import Factorizer Reshaper.
Local Open Scope Z_scope.

Example data_dim_dynamic_12 : data_dim 2 12 = Some 5.
Proof. vm_compute. reflexivity. Qed.

Example data_dim_full_12 : data_dim 1 12 = Some 12.
Proof. reflexivity. Qed.

(** *** The prime factors of a number *)









(** A composite odd number: the loop over the odd factors finds 3 twice. *)
Example data_dim_dynamic_9 : factors 9 = Some [3; 3] /\ data_dim 2 9 = Some 5.
Proof. vm_compute. done. Qed.

(** C2, counterexample.  With windowing disabled a table of 2 samples and 3
    features becomes a tensor of shape (2, 1, 3), not (2, 3, 1): the
    singleton axis is inserted at position 1, not appended. *)
Lemma to_tensor_singleton_axis_not_last :
  shape <$> to_tensor 2 0 4 (mk_ndarray [2; 3] [10; 11; 12; 20; 21; 22])
    = Some [2; 1; 3] /\
  [2; 1; 3] <> [2; 3; 1].
Proof. split; [reflexivity|discriminate]. Qed.

(** C2, amended.  For a well-formed table of [n] rows and [c] columns:
    with windowing disabled the tensor has shape [(n, 1, c)]; with
    [windowing = 1], a positive depth [d] computed by [data_dim] and
    [c = b * d], the tensor has shape [(n, b, d)].  In both cases the
    elements keep their row-major order, so that row [i] is cut into [b]
    consecutive runs of [d] cells. *)
Theorem to_tensor_shape {A} (overlap windowing window_dim : Z) (X : ndarray A)
    (n c : Z) (Hshape : shape X = [n; c]) (Hwf : well_formed X) :
  (windowing <> 1 ->
   exists Y, to_tensor overlap windowing window_dim X = Some Y /\
             shape Y = [n; 1; c] /\
             forall i k, get3 Y i 0 k = get2 X i k) /\
  (windowing = 1 ->
   forall d b, data_dim overlap window_dim = Some d -> 0 < d -> 0 <= b ->
               c = b * d ->
   exists Y, to_tensor overlap windowing window_dim X = Some Y /\
             shape Y = [n; b; d] /\
             forall i j k, 0 <= j < b -> 0 <= k < d ->
                           get3 Y i j k = get2 X i (j * d + k)).
Proof.
  destruct Hwf as [Hnonneg Hsize]. rewrite Hshape in Hnonneg, Hsize.
  apply Forall_cons in Hnonneg as [Hn Hc%Forall_cons_1].
  unfold size in Hsize. simpl in Hsize.
  split.
  - intros Hw. unfold to_tensor.
    ztest_false (windowing =? 1).
    eexists. split; [done|]. unfold expand_dims. rewrite Hshape. split; [done|].
    intros i k. unfold get3, get2. rewrite Hshape. simpl.
    destruct (decide (0 <= i < n /\ 0 <= k < c)).
    + rewrite decide_True by lia. do 2 f_equal. lia.
    + by rewrite decide_False by lia.
  - intros -> d b Hd Hdpos Hb ->. unfold to_tensor. simpl. rewrite Hd. simpl.
    unfold arrays_to_matrix. rewrite Hshape.
    ztest_false (d =? 0).
    rewrite Z.quot_mul by lia. unfold reshape, size. simpl.
    ztest_true (0 <=? n).
    ztest_true (0 <=? b).
    ztest_true (0 <=? d).
    ztest_true (n * (b * (d * 1)) =? Z.of_nat (length (data X))).
    simpl. eexists. split; [done|]. split; [done|].
    intros i j k Hj Hk. unfold get3, get2. rewrite Hshape. simpl.
    destruct (decide (0 <= i < n)).
    + rewrite !decide_True by nia. do 2 f_equal. lia.
    + by rewrite !decide_False by lia.
Qed.

Lemma to_tensor_shape_witness :
  (0 <> 1 ->
   exists Y, to_tensor 2 0 4 (mk_ndarray [2; 3] [10; 11; 12; 20; 21; 22]) = Some Y /\
             shape Y = [2; 1; 3] /\
             forall i k, get3 Y i 0 k
                         = get2 (mk_ndarray [2; 3] [10; 11; 12; 20; 21; 22]) i k) /\
  (0 = 1 ->
   forall d b, data_dim 2 4 = Some d -> 0 < d -> 0 <= b -> 3 = b * d ->
   exists Y, to_tensor 2 0 4 (mk_ndarray [2; 3] [10; 11; 12; 20; 21; 22]) = Some Y /\
             shape Y = [2; b; d] /\
             forall i j k, 0 <= j < b -> 0 <= k < d ->
                           get3 Y i j k
                           = get2 (mk_ndarray [2; 3] [10; 11; 12; 20; 21; 22]) i (j * d + k)).
Proof.
  apply (to_tensor_shape 2 0 4 (mk_ndarray [2; 3] [10; 11; 12; 20; 21; 22]) 2 3).
  - reflexivity.
  - split; [repeat constructor; lia|reflexivity].
Defined.

(** The same theorem on a windowed table: 2 samples, 6 columns,
    [window_dim = 4] under Dynamic overlap, hence depth 3 and 2 features. *)
Example to_tensor_windowed_2_6 :
  shape <$> to_tensor 2 1 4 (mk_ndarray [2; 6] (seqZ 0 12)) = Some [2; 2; 3].
Proof. vm_compute. reflexivity. Qed.

(** A row length that the depth does not divide makes the reshape fail. *)
Example to_tensor_indivisible :
  to_tensor 2 1 4 (mk_ndarray [2; 5] (seqZ 0 10)) = None.
Proof. vm_compute. reflexivity. Qed.

End ReshaperFacts.

(** ** WindowBuilder: routing of the rows in Hybrid mode *)

Section WindowBuilderFacts.
Import Factorizer WindowBuilder.
Local Open Scope Z_scope.
Context {F : Type}.
Implicit Types (df : Table F) (W : WideTable F) (r : DeviceRecord F).

Lemma length_shift df periods : length (shift df periods) = length df.
Proof. unfold shift. rewrite length_take, length_app. lia. Qed.

Lemma elem_of_concat_shift df periods W l blocks :
  (l, blocks) ∈ wrows (concat_shift df periods W) <->
  (exists i r, shift df periods !! i = Some r /\ l = Z.of_nat i /\
               blocks = r :: blocks_at (nan_record (width df)) W (Z.of_nat i)) \/
  (exists blocks', (l, blocks') ∈ wrows W /\ ~ (0 <= l < Z.of_nat (length df)) /\
                   blocks = nan_record (width df) :: blocks').
Proof.
  unfold concat_shift. simpl. rewrite elem_of_app, elem_of_lookup_imap, list_elem_of_fmap.
  split; intros [H|H]; [left|right|left|right].
  - destruct H as (i & r & [= -> ->] & Hi). eauto.
  - destruct H as ([l' bs] & [= -> ->] & [Hout Hin]%list_elem_of_filter). eauto.
  - destruct H as (i & r & Hi & -> & ->). eauto.
  - destruct H as (bs & Hin & Hout & ->). exists (l, bs). split; [done|].
    apply list_elem_of_filter. done.
Qed.

Lemma last_cons_replicate {A} (x y : A) n : (1 <= n)%nat ->
  last (x :: replicate n y) = Some y.
Proof.
  intros Hn. destruct n as [|n]; [lia|].
  rewrite last_cons. by rewrite replicate_S_end, last_snoc.
Qed.

Lemma failed_rows_inv df : failed_inv df (failed_rows df).
Proof.
  split.
  - simpl. lia.
  - intros l blocks [Hmask Hin]%list_elem_of_filter.
    apply elem_of_lookup_imap in Hin as (i & r & [= -> ->] & Hi).
    simpl in Hmask. injection Hmask as Hmask.
    split; [lia|]. exists r. rewrite Nat2Z.id. split; [done|].
    unfold own_block. by rewrite decide_True.
  - intros i r Hi Hv. exists [r]. apply list_elem_of_filter. split.
    + simpl. by rewrite Hv.
    + apply elem_of_lookup_imap. eauto.
Qed.

Lemma concat_shift_inv df periods W :
  failed_inv df W -> failed_inv df (concat_shift df periods W).
Proof.
  intros [Hdepth Hsound Hcomplete]. split.
  - simpl. lia.
  - intros l blocks [(i & r' & Hi & -> & ->)|(bs & Hin & Hout & ->)]%elem_of_concat_shift.
    + split; [lia|]. rewrite Nat2Z.id.
      assert (is_Some (df !! i)) as [r Hr].
      { apply lookup_lt_is_Some. apply lookup_lt_Some in Hi.
        by rewrite length_shift in Hi. }
      exists r. split; [done|]. unfold blocks_at.
      destruct (list_find (fun row : WideRow F => row.1 = Z.of_nat i) (wrows W))
        as [[j [l' bs]]|] eqn:Hfind.
      * apply list_find_Some in Hfind as (Hj & Hl' & _). simpl in Hl'. subst l'.
        destruct (Hsound (Z.of_nat i) bs) as (_ & r0 & Hr0 & Hlast).
        { eapply list_elem_of_lookup_2. exact Hj. }
        rewrite Nat2Z.id, Hr in Hr0. injection Hr0 as <-.
        by rewrite last_cons, Hlast.
      * rewrite last_cons_replicate by done. f_equal.
        unfold own_block. rewrite decide_False; [done|].
        intros Hv. destruct (Hcomplete i r Hr Hv) as (bs & Hin).
        apply list_find_None in Hfind. rewrite Forall_forall in Hfind.
        by apply (Hfind _ Hin).
    + exfalso. destruct (Hsound l bs Hin) as (Hl & r & Hr & _).
      apply lookup_lt_Some in Hr. lia.
  - intros i r Hi _.
    assert (is_Some (shift df periods !! i)) as [r' Hr'].
    { apply lookup_lt_is_Some. rewrite length_shift. by eapply lookup_lt_Some. }
    eexists. apply elem_of_concat_shift. left. eauto.
Qed.

Lemma shift_loop_inv df count W :
  failed_inv df W -> failed_inv df (shift_loop df count W).
Proof.
  unfold shift_loop. generalize (seq 0 (Z.to_nat count)) as steps.
  intros steps. revert W.
  induction steps as [|i steps IH]; intros W HW; simpl; [done|].
  apply IH. by apply concat_shift_inv.
Qed.

(** *** The Dynamic procedure returns a frame *)

Lemma concat_shift_covers df periods W : covers df (concat_shift df periods W).
Proof.
  intros i Hi. unfold labels.
  assert (is_Some (shift df periods !! i)) as [r Hr]
    by (apply lookup_lt_is_Some; by rewrite length_shift).
  apply list_elem_of_fmap. eexists (_, _). split; [done|].
  apply elem_of_concat_shift. left. eauto.
Qed.

Lemma shift_loop_covers df count W :
  0 < count -> covers df (shift_loop df count W).
Proof.
  intros Hcount. unfold shift_loop.
  destruct (Z.to_nat count) as [|n] eqn:Hn; [lia|].
  rewrite seq_S, foldl_app. simpl. apply concat_shift_covers.
Qed.

Lemma group_keys_nonempty df W i r s :
  covers df W -> df !! i = Some r -> serial_number r = Some s ->
  group_keys df W <> [].
Proof.
  intros Hcov Hi Hs Hnil.
  assert (Hin : s ∈ group_keys df W).
  { unfold group_keys. rewrite merge_sort_Permutation, elem_of_remove_dups.
    apply list_elem_of_omap.
    assert (Hlab : Z.of_nat i ∈ labels W) by (apply Hcov; by eapply lookup_lt_Some).
    apply list_elem_of_fmap in Hlab as ([l bs] & Hl & Hrow).
    simpl in Hl. subst l. exists (Z.of_nat i, bs). split; [done|].
    unfold serial_at. simpl. rewrite decide_True by lia.
    by rewrite Nat2Z.id, Hi. }
  rewrite Hnil in Hin. by apply elem_of_nil in Hin.
Qed.

Lemma sampling_pass_is_Some df W k i r s :
  0 < k -> covers df W -> df !! i = Some r -> serial_number r = Some s ->
  is_Some (sampling_pass df W k).
Proof.
  intros Hk Hcov Hi Hs. unfold sampling_pass.
  rewrite decide_False by (by eapply group_keys_nonempty).
  assert (is_Some (mapM (fun key => UnderSampler.under_sample (group_of df W key) k)
                        (group_keys df W))) as [idxs ->]; [|by eexists].
  apply mapM_is_Some. apply Forall_forall. intros key _. simpl.
  rewrite under_sample_labels by done. by eexists.
Qed.

Lemma dynamic_loop_is_Some df divisors W i r s :
  Forall (fun k => 2 <= k) divisors ->
  df !! i = Some r -> serial_number r = Some s ->
  is_Some (dynamic_loop df divisors W).
Proof.
  intros Hdiv Hi Hs. revert W.
  induction Hdiv as [|k divisors Hk _ IH]; intros W; simpl; [by eexists|].
  destruct (sampling_pass_is_Some df (shift_loop df (k - 1) W) k i r s)
    as [W' ->]; [lia|apply shift_loop_covers; lia|done|done|].
  simpl. apply IH.
Qed.

Lemma dynamic_is_Some df window_dim i r s :
  0 < window_dim -> df !! i = Some r -> serial_number r = Some s ->
  is_Some (dynamic df window_dim).
Proof.
  intros Hw Hi Hs. unfold dynamic.
  destruct (factors_fuel_spec window_dim Hw) as (fs & -> & Hprime & _). simpl.
  eapply dynamic_loop_is_Some; [|done..].
  eapply Forall_impl; [exact Hprime|]. intros p Hp. by apply Z.prime_ge_2.
Qed.

(** *** A device of at most seven rows leaves nothing after a pass *)

Lemma sampling_pass_short_device df W k W' key :
  0 < k -> sampling_pass df W k = Some W' ->
  (length (group_of df W key) <= 7)%nat ->
  forall row, row ∈ wrows W' -> serial_at df row.1 <> Some key.
Proof.
  intros Hk Hpass Hshort row Hrow Hserial. unfold sampling_pass in Hpass.
  destruct (decide (group_keys df W = [])); [done|].
  destruct (mapM _ (group_keys df W)) as [indexes|] eqn:Hmap; [|done].
  injection Hpass as <-. simpl in Hrow. rewrite merge_sort_Permutation in Hrow.
  apply list_elem_of_bind in Hrow as (l & [Hl _]%list_elem_of_filter & Hin).
  apply list_elem_of_join in Hin as (ix & Hlix & Hix).
  apply mapM_Some in Hmap.
  apply list_elem_of_lookup in Hix as (j & Hj).
  destruct (Forall2_lookup_r _ _ _ _ _ Hmap Hj) as (key' & _ & Hkey').
  assert (key' = key) as ->.
  { apply (under_sample_subset _ _ _ l) in Hkey'; [|done].
    unfold group_of in Hkey'. rewrite <- list_fmap_compose in Hkey'.
    apply list_elem_of_fmap in Hkey' as (row' & -> & [Hs _]%list_elem_of_filter).
    simpl in Hl. rewrite Hl, Hs in Hserial. by injection Hserial. }
  rewrite under_sample_short_group_nil in Hkey' by done.
  injection Hkey' as <-. by apply elem_of_nil in Hlix.
Qed.

(** C10.  A group of at most seven rows yields the empty selection for every
    positive factor; hence, when the rows of a device form such a group in
    an under-sampling pass of the Dynamic or Hybrid procedure, the frame
    that the pass returns holds no row of that device. *)
Theorem under_sample_short_group (g : UnderSampler.Group) (k : Z)
    (Hk : 0 < k) (Hlen : (length g <= 7)%nat) :
  UnderSampler.under_sample g k = Some [] /\
  forall (df : Table F) (W W' : WideTable F) (key : string),
    group_of df W key = g -> sampling_pass df W k = Some W' ->
    forall row, row ∈ wrows W' -> serial_at df row.1 <> Some key.
Proof.
  split; [by apply under_sample_short_group_nil|].
  intros df W W' key <- Hpass. by eapply sampling_pass_short_device.
Qed.

(** *** The number of blocks of the windowed frame *)

Lemma depth_shift_loop df count W :
  depth (shift_loop df count W) = (Z.to_nat count + depth W)%nat.
Proof.
  unfold shift_loop.
  assert (H : forall steps W0,
             depth (foldl (fun W' i => concat_shift df (S i) W') W0 steps)
             = (length steps + depth W0)%nat).
  { induction steps as [|i steps IH]; intros W0; simpl; [done|].
    rewrite IH. simpl. lia. }
  by rewrite H, length_seq.
Qed.

Lemma depth_sampling_pass df W k W' :
  sampling_pass df W k = Some W' -> depth W' = depth W.
Proof.
  unfold sampling_pass. destruct (decide _); [done|].
  destruct (mapM _ _); [|done]. by intros [= <-].
Qed.

Lemma depth_dynamic_loop df divisors W W' :
  Forall (fun k => 1 <= k) divisors ->
  dynamic_loop df divisors W = Some W' ->
  Z.of_nat (depth W') =
  Z.of_nat (depth W) + foldr Z.add 0 ((fun number => number - 1) <$> divisors).
Proof.
  intros Hdiv. revert W.
  induction Hdiv as [|k divisors Hk _ IH]; intros W; csimpl.
  - intros [= <-]. lia.
  - destruct (sampling_pass df _ k) as [W1|] eqn:Hpass; [|done]. csimpl.
    intros HW'. rewrite (IH _ HW').
    rewrite (depth_sampling_pass _ _ _ _ Hpass), depth_shift_loop. lia.
Qed.

(** Under Full and Dynamic overlap the windowed frame has as many blocks of
    columns as the depth that the reshaper computes. *)
Lemma perform_windowing_depth df overlap window_dim T :
  0 < window_dim -> overlap = 1 \/ overlap = 2 ->
  perform_windowing df overlap window_dim = Some T ->
  Reshaper.data_dim overlap window_dim = Some (Z.of_nat (depth T)).
Proof.
  intros Hw [-> | ->]; unfold perform_windowing, Reshaper.data_dim; simpl.
  - intros [= <-]. unfold full. rewrite depth_shift_loop. simpl. f_equal. lia.
  - unfold dynamic.
    destruct (factors_fuel_spec window_dim Hw) as (fs & -> & Hprime & _). simpl.
    intros HT. f_equal. apply depth_dynamic_loop in HT; [simpl in HT; lia|].
    eapply Forall_impl; [exact Hprime|]. intros p Hp%Z.prime_ge_2. lia.
Qed.

(** In Hybrid mode the Full sub-frame has [window_dim] blocks, whatever the
    depth of the Dynamic frame. *)
Lemma depth_windowed_df_failed df window_dim :
  0 < window_dim -> Z.of_nat (depth (windowed_df_failed df window_dim)) = window_dim.
Proof.
  intros Hw. unfold windowed_df_failed. rewrite depth_shift_loop. simpl. lia.
Qed.

(** *** The Hybrid branch *)

(** The frame that the loop over the factors builds in the Hybrid branch
    is the frame of the Dynamic branch: it starts from every row of the
    table, the rows of the Full sub-frame included. *)
Lemma hybrid_frames_dynamic df window_dim :
  hybrid_frames df window_dim
  = (windowed_df ← dynamic df window_dim;
     Some (windowed_df, windowed_df_failed df window_dim)).
Proof. unfold hybrid_frames, dynamic. by destruct (factors window_dim). Qed.

(** Lines 205-206 raise whatever the two frames are: the Hybrid branch
    returns no frame. *)
Lemma hybrid_raises df window_dim : hybrid df window_dim = None.
Proof. unfold hybrid. by destruct (hybrid_frames df window_dim). Qed.

Lemma perform_windowing_hybrid df overlap window_dim :
  overlap <> 1 -> overlap <> 2 -> perform_windowing df overlap window_dim = None.
Proof.
  intros H1 H2. unfold perform_windowing.
  ztest_false (overlap =? 1).
  ztest_false (overlap =? 2).
  apply hybrid_raises.
Qed.

(** The Full sub-frame is a mask over the rows: every row whose own
    [validate_val] is 1 has a row in it that holds its own cells, and
    every row of the sub-frame holds, as its own cells, those of the row
    of the table with its label when that row's [validate_val] is 1 and
    NaN otherwise. *)
Lemma windowed_df_failed_own_cells (df : Table F) (window_dim : Z) :
  let failed := windowed_df_failed df window_dim in
  (forall i r, df !! i = Some r -> validate_val r = Some 1 ->
     exists blocks, (Z.of_nat i, blocks) ∈ wrows failed /\ last blocks = Some r) /\
  (forall l blocks, (l, blocks) ∈ wrows failed ->
     0 <= l /\ exists r, df !! Z.to_nat l = Some r /\
                         last blocks = Some (own_block df r)).
Proof.
  intros failed.
  assert (Hinv : failed_inv df failed) by apply shift_loop_inv, failed_rows_inv.
  destruct Hinv as [_ Hsound Hcomplete].
  split; [|done].
  intros i r Hi Hv. destruct (Hcomplete i r Hi Hv) as (blocks & Hin).
  exists blocks. split; [done|].
  destruct (Hsound _ _ Hin) as (_ & r' & Hr' & Hlast).
  rewrite Nat2Z.id, Hi in Hr'. injection Hr' as <-.
  rewrite Hlast. unfold own_block. by rewrite decide_True.
Qed.

End WindowBuilderFacts.

Section WindowBuilderExamples.
Import WindowBuilder.
Local Open Scope Z_scope.

(** C4.  One device "A" with seven days of [validate_val = 0] followed by
    three days of [validate_val = 1], in Hybrid mode ([overlap = 0]).  With
    [window_dim = 1] the Full sub-frame holds the rows 7, 8 and 9 only,
    although every row belongs to a device with [validate_val = 1] in its
    history, and the frame of the loop over the factors holds all ten
    rows, the rows 7, 8 and 9 included, not the remaining ones.  With
    [window_dim = 2] the join gives row 3 a row in the Full sub-frame, but
    its own cells there are NaN, while row 8 keeps its own.  And no frame
    comes out: on this table as on every other, lines 205-206 raise. *)
Theorem hybrid_full_subframe_is_row_mask :
  serial_number <$> sample_device "A" 7 3 = replicate 10 (Some "A"%string) /\
  validate_val <$> sample_device "A" 7 3
    = replicate 7 (Some 0) ++ replicate 3 (Some 1) /\
  (fun frames => (labels frames.1, labels frames.2))
    <$> hybrid_frames (sample_device "A" 7 3) 1
    = Some (seqZ 0 10, [7; 8; 9]) /\
  last (blocks_at (nan_record 0) (windowed_df_failed (sample_device "A" 7 3) 2) 3)
    = Some (nan_record 1) /\
  last (blocks_at (nan_record 0) (windowed_df_failed (sample_device "A" 7 3) 2) 8)
    = Some (sample_day "A" 8 1) /\
  perform_windowing (sample_device "A" 7 3) 0 1 = None /\
  (forall (df : Table Z) (overlap window_dim : Z),
     overlap <> 1 -> overlap <> 2 -> perform_windowing df overlap window_dim = None).
Proof.
  split_and!; [vm_compute; done..|].
  intros df overlap window_dim. apply perform_windowing_hybrid.
Qed.

Lemma under_sample_short_group_witness :
  UnderSampler.under_sample (UnderSampler.constant_group 0 7 (Some 1)) 2 = Some [] /\
  forall (df : Table Z) (W W' : WideTable Z) (key : string),
    group_of df W key = UnderSampler.constant_group 0 7 (Some 1) ->
    sampling_pass df W 2 = Some W' ->
    forall row, row ∈ wrows W' -> serial_at df row.1 <> Some key.
Proof.
  apply (under_sample_short_group (F:=Z) (UnderSampler.constant_group 0 7 (Some 1)) 2).
  - lia.
  - vm_compute. lia.
Defined.

(** A device of seven rows next to one of ten: the pass with factor 2 keeps
    one row of the second device and none of the first. *)
Example sampling_pass_two_devices :
  labels <$> sampling_pass (sample_device "A" 7 0 ++ sample_device "B" 10 0)
                           (of_table (sample_device "A" 7 0 ++ sample_device "B" 10 0)) 2
  = Some [8].
Proof. vm_compute. reflexivity. Qed.

(** Three devices of ten rows each under Dynamic overlap with
    [window_dim = 4]: two passes with factor 2, three blocks of columns, and
    the row at position 1 of every device. *)
Example dynamic_three_devices :
  (fun T => (labels T, depth T))
    <$> dynamic (sample_device "A" 10 0 ++ sample_device "B" 10 0
                 ++ sample_device "C" 10 0) 4
  = Some ([1; 11; 21], 3%nat).
Proof. vm_compute. reflexivity. Qed.

End WindowBuilderExamples.

(** ** ColumnReconciler *)

Section ColumnReconcilerFacts.
Import ColumnReconciler.

Example rename_columns_shifted :
  rename_columns ["x"; "date"; "x"; "date"; "x"; "date"]%string
  = ["date"; "date_2"; "date_3"; "x"; "x_2"; "x_3"]%string.
Proof. vm_compute. reflexivity. Qed.

(** The labels come out in lexicographic order. *)
Lemma rename_columns_sorted columns : Sorted String.le (rename_columns columns).
Proof. apply (Sorted_merge_sort String.le). Qed.

Lemma rename_columns_Permutation columns : rename_columns columns ≡ₚ renamed columns.
Proof. apply merge_sort_Permutation. Qed.

Lemma occurrences_snoc_eq c l : occurrences c (l ++ [c]) = S (occurrences c l).
Proof.
  unfold occurrences. rewrite filter_app, length_app, filter_cons_True by done.
  simpl. lia.
Qed.

Lemma occurrences_snoc_ne c l x :
  x <> c -> occurrences c (l ++ [x]) = occurrences c l.
Proof.
  intros Hne. unfold occurrences.
  rewrite filter_app, length_app, filter_cons_False by done. simpl. lia.
Qed.

(** The state of the loop after a prefix of the labels: the dictionary
    counts the occurrences, and occurrence number [i >= 2] of a label
    [col] has become [col_i]. *)
Lemma rename_loop_state l :
  (forall c, (foldl rename_step (∅, []) l).1 !! c =
             if decide (occurrences c l = 0%nat) then None
             else Some (occurrences c l)) /\
  (foldl rename_step (∅, []) l).2 =
  imap (fun i c => numbered c (occurrences c (take (S i) l))) l.
Proof.
  induction l as [|x l [IHc IHl]] using rev_ind; [done|].
  rewrite foldl_snoc. unfold rename_step at 1. simpl.
  set (st := foldl rename_step (∅, []) l) in *.
  assert (Hc : S (default 0%nat
      ((if decide (st.1 !! x = None) then <[x:=0%nat]> st.1 else st.1) !! x))
      = occurrences x (l ++ [x])).
  { rewrite occurrences_snoc_eq. f_equal.
    rewrite IHc. destruct (decide (occurrences x l = 0%nat)) as [->|Hne].
    - rewrite decide_True by done. by rewrite lookup_insert_eq.
    - rewrite decide_False by done. by rewrite IHc, decide_False. }
  split.
  - intros c. destruct (decide (x = c)) as [->|Hne].
    + rewrite lookup_insert_eq, Hc.
      rewrite decide_False; [done|]. rewrite occurrences_snoc_eq. lia.
    + rewrite lookup_insert_ne by done.
      rewrite occurrences_snoc_ne by done.
      destruct (decide (st.1 !! x = None)); [rewrite lookup_insert_ne by done|];
        apply IHc.
  - rewrite Hc, IHl, imap_app. simpl. f_equal.
    + apply imap_ext. intros i c Hi. simpl.
      by rewrite take_app_le by (apply lookup_lt_Some in Hi; lia).
    + rewrite take_ge by (rewrite length_app; simpl; lia). done.
Qed.

Lemma renamed_numbered columns :
  renamed columns =
  imap (fun i c => numbered c (occurrences c (take (S i) columns))) columns.
Proof. apply rename_loop_state. Qed.

(** *** When the renamed labels are distinct *)

Lemma append_cons a s t : String a s +:+ t = String a (s +:+ t).
Proof. reflexivity. Qed.

Lemma append_nil t : "" +:+ t = t.
Proof. reflexivity. Qed.

Lemma has_underscore_app s t :
  has_underscore (s +:+ t) = has_underscore s || has_underscore t.
Proof.
  induction s as [|a s IH]; [done|].
  rewrite append_cons. simpl. rewrite IH. by rewrite orb_assoc.
Qed.

Lemma pretty_N_go_underscore_free x s :
  has_underscore s = false -> has_underscore (pretty_N_go x s) = false.
Proof.
  revert s. induction (N.lt_wf_0 x) as [x _ IH]; intros s Hs.
  assert (x = 0 \/ 0 < x)%N as [->|Hx] by lia.
  - by rewrite pretty_N_go_0.
  - rewrite pretty_N_go_step by done. apply IH; [by apply N.div_lt|].
    simpl. rewrite Hs, orb_false_r. apply bool_decide_eq_false.
    unfold pretty_N_char. by repeat case_match.
Qed.

Lemma pretty_nat_underscore_free (n : nat) : has_underscore (pretty n) = false.
Proof.
  unfold pretty, pretty_nat, pretty, pretty_N.
  destruct (decide (N.of_nat n = 0%N)); [done|].
  by apply pretty_N_go_underscore_free.
Qed.

(** A string splits in one way only at its last underscore. *)
Lemma split_last_underscore a b d1 d2 :
  has_underscore d1 = false -> has_underscore d2 = false ->
  a +:+ "_" +:+ d1 = b +:+ "_" +:+ d2 -> a = b /\ d1 = d2.
Proof.
  intros H1 H2. revert b.
  induction a as [|x a IH]; intros [|y b]; rewrite ?append_cons, ?append_nil.
  - intros [= ->]. done.
  - intros [= <- ->]. rewrite has_underscore_app in H1. simpl in H1.
    by rewrite orb_true_r in H1.
  - intros [= -> <-]. rewrite has_underscore_app in H2. simpl in H2.
    by rewrite orb_true_r in H2.
  - intros [= -> Heq]. destruct (IH b Heq) as [-> ->]. done.
Qed.

Lemma numbered_inj l c c' o o' :
  collision_free l -> c ∈ l -> c' ∈ l -> (1 <= o)%nat -> (1 <= o')%nat ->
  numbered c o = numbered c' o' -> c = c' /\ o = o'.
Proof.
  intros Hfree Hc Hc' Ho Ho'. unfold numbered.
  destruct (decide (1 < o)%nat) as [Hlt|Hge], (decide (1 < o')%nat) as [Hlt'|Hge'].
  - intros [-> Hp]%split_last_underscore; auto using pretty_nat_underscore_free.
    split; [done|]. by apply (inj pretty).
  - intros Heq. exfalso. by apply (Hfree c c' o).
  - intros Heq. exfalso. by apply (Hfree c' c o').
  - intros ->. split; [done|lia].
Qed.

Lemma occurrences_take_mono c (l : list string) i j :
  (i <= j)%nat -> (occurrences c (take i l) <= occurrences c (take j l))%nat.
Proof.
  intros Hij. replace j with (i + (j - i))%nat by lia.
  rewrite <- take_take_drop. unfold occurrences. rewrite filter_app, length_app. lia.
Qed.

Lemma occurrences_take_lt c (l : list string) i j :
  (i < j)%nat -> l !! j = Some c ->
  (occurrences c (take (S i) l) < occurrences c (take (S j) l))%nat.
Proof.
  intros Hij Hj. rewrite (take_S_r l j c Hj), occurrences_snoc_eq.
  pose proof (occurrences_take_mono c l (S i) j). lia.
Qed.

Lemma occurrences_take_pos c (l : list string) i :
  l !! i = Some c -> (1 <= occurrences c (take (S i) l))%nat.
Proof. intros Hi. rewrite (take_S_r l i c Hi), occurrences_snoc_eq. lia. Qed.

(** Without a collision the reconciled schema has no duplicate. *)
Lemma rename_columns_NoDup columns :
  collision_free columns -> NoDup (rename_columns columns).
Proof.
  intros Hfree. rewrite rename_columns_Permutation, renamed_numbered.
  apply NoDup_alt. intros i j x.
  rewrite !list_lookup_imap.
  destruct (columns !! i) as [c|] eqn:Hi; [|done].
  destruct (columns !! j) as [c'|] eqn:Hj; [|done].
  simpl. intros [= <-] [= Heq].
  apply (numbered_inj columns) in Heq as [-> Hocc];
    eauto using list_elem_of_lookup_2, occurrences_take_pos.
  destruct (Nat.lt_trichotomy i j) as [Hlt|[->|Hlt]]; [|done|].
  - pose proof (occurrences_take_lt c columns i j Hlt Hj). lia.
  - pose proof (occurrences_take_lt c columns j i Hlt Hi). lia.
Qed.

(** *** The schema does not depend on the order of the columns *)

Lemma rename_step_eq st x :
  rename_step st x =
  (<[x := S (default 0%nat (st.1 !! x))]> st.1,
   st.2 ++ [numbered x (S (default 0%nat (st.1 !! x)))]).
Proof.
  unfold rename_step, numbered. simpl.
  destruct (decide (st.1 !! x = None)) as [Hx|Hx].
  - rewrite Hx, lookup_insert_eq. simpl. by rewrite insert_insert_eq.
  - done.
Qed.

Lemma rename_step_same_labels st st' x :
  same_labels st st' -> same_labels (rename_step st x) (rename_step st' x).
Proof.
  intros [Hc Hl]. rewrite !rename_step_eq, Hc. split; simpl; [done|].
  by rewrite Hl.
Qed.

Lemma rename_step_swap st x y :
  same_labels (rename_step (rename_step st x) y) (rename_step (rename_step st y) x).
Proof.
  destruct (decide (x = y)) as [->|Hne]; [done|].
  rewrite !rename_step_eq. simpl.
  rewrite !lookup_insert_ne by done. split; simpl.
  - by apply insert_insert_ne.
  - rewrite <- !(assoc_L (++)). apply Permutation_app_head. simpl. apply perm_swap.
Qed.

Lemma same_labels_trans st1 st2 st3 :
  same_labels st1 st2 -> same_labels st2 st3 -> same_labels st1 st3.
Proof. intros [? ?] [? ?]. split; by etrans. Qed.

Lemma rename_loop_same_labels l st st' :
  same_labels st st' ->
  same_labels (foldl rename_step st l) (foldl rename_step st' l).
Proof.
  revert st st'. induction l as [|x l IH]; intros st st' H; simpl; [done|].
  by apply IH, rename_step_same_labels.
Qed.

Lemma rename_loop_Permutation l l' :
  l ≡ₚ l' -> forall st st', same_labels st st' ->
  same_labels (foldl rename_step st l) (foldl rename_step st' l').
Proof.
  induction 1 as [|x l l' _ IH|x y l|l l' l'' _ IH1 _ IH2]; intros st st' Hst; simpl.
  - done.
  - by apply IH, rename_step_same_labels.
  - apply rename_loop_same_labels.
    eapply same_labels_trans; [apply rename_step_swap|].
    by do 2 apply rename_step_same_labels.
  - eapply same_labels_trans; [by apply IH1|]. by apply IH2.
Qed.

(** The reconciled schema is the same for every order of the columns. *)
Lemma rename_columns_order_independent l l' :
  l ≡ₚ l' -> rename_columns l = rename_columns l'.
Proof.
  intros Hperm. apply (Sorted_unique String.le); [apply rename_columns_sorted..|].
  rewrite !rename_columns_Permutation. unfold renamed.
  by apply rename_loop_Permutation.
Qed.

(** C6.  The columns of a windowed frame of two blocks whose base columns
    are [a] and [a_2]: the second occurrence of [a] is renamed [a_2], which
    the table already has, so the reconciled schema holds [a_2] twice. *)
Theorem rename_columns_collision :
  windowed_columns ["a"; "a_2"]%string 2 = ["a"; "a_2"; "a"; "a_2"]%string /\
  renamed ["a"; "a_2"; "a"; "a_2"]%string = ["a"; "a_2"; "a_2"; "a_2_2"]%string /\
  rename_columns ["a"; "a_2"; "a"; "a_2"]%string
    = ["a"; "a_2"; "a_2"; "a_2_2"]%string /\
  ~ NoDup (rename_columns ["a"; "a_2"; "a"; "a_2"]%string).
Proof.
  split_and!; [reflexivity..|].
  change (rename_columns _) with ["a"; "a_2"; "a_2"; "a_2_2"]%string.
  intros Hnd. apply NoDup_cons in Hnd as [_ Hnd].
  apply NoDup_cons in Hnd as [Hnotin _]. apply Hnotin. left.
Qed.

End ColumnReconcilerFacts.

(** ** ValidityFilter *)

Section ValidityFilterFacts.
Import ValidityFilter.
Local Open Scope Z_scope.

Example matches_pattern_examples :
  matches_pattern "date_2" = true /\ matches_pattern "date" = false /\
  matches_pattern "model_10" = true /\ matches_pattern "model_" = false /\
  matches_pattern "smart_5_raw_2" = false /\ matches_pattern "date_2x" = false.
Proof. vm_compute. done. Qed.

Example drop_incomplete_rows_no_capacity :
  validity_filter_rows sample_without_capacity
  = (mkFrame ["date"; "serial_number"; "smart_5_raw"]%string
             [[Some (Str "2020-01-01"); Some (Str "A"); Some (Num 0)];
              [None; Some (Str "A"); Some (Num 1)]],
     DoNotExist ["capacity_bytes"%string]).
Proof. vm_compute. reflexivity. Qed.

Example drop_incomplete_rows_missing_date :
  validity_filter_rows sample_with_missing_date
  = (mkFrame ["capacity_bytes"; "date"; "serial_number"; "smart_5_raw"]%string
             [[Some (Num 4000); Some (Str "2020-01-01"); Some (Str "A"); Some (Num 0)]],
     Dropped 1).
Proof. vm_compute. reflexivity. Qed.

Lemma select_fmap_self {A} (f : A -> bool) (l : list A) :
  select (f <$> l) l = filter (fun x => f x = true) l.
Proof.
  unfold select. induction l as [|x l IH]; [done|].
  csimpl. rewrite !filter_cons. simpl.
  destruct (decide (f x = true)); csimpl; by rewrite IH.
Qed.

Lemma columns_drop_columns to_drop df :
  columns (drop_columns to_drop df) = filter (fun col => col ∉ to_drop) (columns df).
Proof.
  unfold drop_columns. simpl. rewrite select_fmap_self.
  apply list_filter_iff. intros col. by rewrite bool_decide_eq_true.
Qed.

Lemma matches_pattern_essential col :
  col ∈ essential_columns -> matches_pattern col = false.
Proof.
  unfold essential_columns. rewrite !elem_of_cons, elem_of_nil.
  intros [->|[->|[->|[]]]]; reflexivity.
Qed.

(** The columns that the filter tests for are never dropped as numbered
    duplicates. *)
Lemma essential_column_survives df col :
  col ∈ essential_columns ->
  col ∈ columns (drop_numbered_identifiers df) <-> col ∈ columns df.
Proof.
  intros Hcol. unfold drop_numbered_identifiers.
  rewrite columns_drop_columns, !list_elem_of_filter.
  rewrite (matches_pattern_essential col Hcol). intuition congruence.
Qed.

Lemma filter_ext_elem_of {A} (P Q : A -> Prop)
    `{forall x, Decision (P x)} `{forall x, Decision (Q x)} (l : list A) :
  (forall x, x ∈ l -> P x <-> Q x) -> filter P l = filter Q l.
Proof.
  induction l as [|x l IH]; intros Hext; [done|].
  rewrite !filter_cons.
  rewrite IH by (intros y Hy; apply Hext; by right).
  assert (Hx : P x <-> Q x) by (apply Hext; by left).
  destruct (decide (P x)), (decide (Q x)); tauto.
Qed.

Lemma complete_in_spec df subset row :
  complete_in df subset row = true <->
  forall j col cell, columns df !! j = Some col -> row !! j = Some cell ->
                     col ∈ subset -> is_Some cell.
Proof.
  unfold complete_in. rewrite <- Is_true_true, forallb_True, Forall_lookup. split.
  - intros Hall j col cell Hcol Hcell Hin.
    assert (Hz : zip (columns df) row !! j = Some (col, cell)).
    { apply lookup_zip_with_Some. eauto. }
    specialize (Hall j _ Hz). simpl in Hall.
    rewrite bool_decide_true in Hall by done. by apply bool_decide_unpack in Hall.
  - intros Hall j [col cell] (c & x & [= -> ->] & Hc & Hx)%lookup_zip_with_Some.
    simpl. case_bool_decide; [|done]. apply bool_decide_pack. eauto.
Qed.

(** C7.  On a table entering the filter: when [date], [serial_number] and
    [capacity_bytes] are all among its columns, exactly the rows with a
    missing value in one of them are dropped and the number of dropped rows
    is reported; when one of them is absent, the names of the absent ones
    are reported, in the order [date], [serial_number], [capacity_bytes],
    and no row is removed.  A table lacking only [capacity_bytes] gives the
    report [['capacity_bytes']]. *)
Theorem validity_filter_rows_spec (df : DataFrame) :
  let df1 := drop_numbered_identifiers df in
  ((forall col, col ∈ essential_columns -> col ∈ columns df) ->
   exists df2,
     validity_filter_rows df
       = (df2, Dropped (Z.of_nat (length (rows df1)) - Z.of_nat (length (rows df2)))) /\
     columns df2 = columns df1 /\
     rows df2 = filter (fun row => complete_in df1 essential_columns row = true) (rows df1) /\
     forall row, row ∈ rows df2 <->
       row ∈ rows df1 /\
       forall j col cell, columns df1 !! j = Some col -> row !! j = Some cell ->
                          col ∈ essential_columns -> is_Some cell) /\
  ((exists col, col ∈ essential_columns /\ col ∉ columns df) ->
   validity_filter_rows df
     = (df1, DoNotExist (filter (fun col => col ∉ columns df) essential_columns))) /\
  ("date"%string ∈ columns df -> "serial_number"%string ∈ columns df ->
   "capacity_bytes"%string ∉ columns df ->
   validity_filter_rows df = (df1, DoNotExist ["capacity_bytes"%string])).
Proof.
  intros df1.
  assert (Hmissing : filter (fun col => col ∉ columns df1) essential_columns
                     = filter (fun col => col ∉ columns df) essential_columns).
  { apply filter_ext_elem_of. intros col Hcol.
    unfold df1. by rewrite essential_column_survives. }
  unfold validity_filter_rows, drop_incomplete_rows. fold df1. rewrite Hmissing.
  split_and!.
  - intros Hall.
    assert (filter (fun col => col ∉ columns df) essential_columns = []) as ->.
    { apply elem_of_nil_inv. intros col [Hnot Hin]%list_elem_of_filter. auto. }
    rewrite decide_True by done.
    eexists. split; [done|]. split; [done|]. split; [done|].
    intros row. simpl. rewrite list_elem_of_filter, complete_in_spec. tauto.
  - intros (col & Hin & Hnot).
    rewrite decide_False; [done|].
    intros Hnil. by apply (filter_nil_not_elem_of _ _ col Hnil Hnot).
  - intros Hdate Hserial Hcap. unfold essential_columns.
    rewrite filter_cons_False by (intros Hn; by apply Hn).
    rewrite filter_cons_False by (intros Hn; by apply Hn).
    rewrite filter_cons_True by done. rewrite filter_nil.
    by rewrite decide_False.
Qed.

Lemma validity_filter_rows_spec_witness :
  validity_filter_rows sample_without_capacity
  = (drop_numbered_identifiers sample_without_capacity,
     DoNotExist ["capacity_bytes"%string]) /\
  exists df2,
    validity_filter_rows sample_with_missing_date = (df2, Dropped (2 - 1)) /\
    length (rows df2) = 1%nat.
Proof.
  split.
  - apply (validity_filter_rows_spec sample_without_capacity); compute_done.
  - destruct (validity_filter_rows_spec sample_with_missing_date)
      as [(df2 & Heq & _ & Hrows & _) _].
    + apply Forall_forall. compute_done.
    + exists df2. rewrite Hrows. split; [|reflexivity].
      rewrite Heq, Hrows. reflexivity.
Defined.

End ValidityFilterFacts.

(** ** WindowBuilder, continued *)

Section WindowsFacts.
Import Factorizer WindowBuilder Windows.
Local Open Scope Z_scope.
Context {F : Type}.
Implicit Types (df : Table F) (W : WideTable F) (r : DeviceRecord F).

Lemma shift_lookup df periods i :
  (i < length df)%nat -> shift df periods !! i = Some (lagged df i periods).
Proof.
  intros Hi. unfold shift, lagged. rewrite lookup_take_lt by done.
  destruct (decide (periods <= i)%nat) as [Hle|Hgt].
  - rewrite lookup_app_r by (rewrite length_replicate; lia).
    rewrite length_replicate.
    destruct (df !! (i - periods)%nat) eqn:Hl; [done|].
    apply lookup_ge_None in Hl. lia.
  - rewrite lookup_app_l by (rewrite length_replicate; lia).
    apply lookup_replicate_2. lia.
Qed.

Lemma blocks_at_imap nan d (g : nat -> list (DeviceRecord F)) (l : Table F) i :
  (i < length l)%nat ->
  blocks_at nan (mkWide d (imap (fun j _ => (Z.of_nat j, g j)) l)) (Z.of_nat i) = g i.
Proof.
  intros Hi. unfold blocks_at. simpl.
  destruct (lookup_lt_is_Some_2 l i Hi) as [x Hx].
  assert (Hfind : list_find (fun row : WideRow F => row.1 = Z.of_nat i)
                            (imap (fun j _ => (Z.of_nat j, g j)) l)
                  = Some (i, (Z.of_nat i, g i))); [|by rewrite Hfind].
  apply list_find_Some. split_and!.
  - by rewrite list_lookup_imap, Hx.
  - done.
  - intros j [l' bs] Hj Hlt. rewrite list_lookup_imap in Hj.
    destruct (l !! j); [|done]. injection Hj as <- <-. simpl. lia.
Qed.

(** The frame after [count] joins of shifted copies onto the table. *)
Lemma shift_loop_of_table df (count : nat) :
  wrows (shift_loop df (Z.of_nat count) (of_table df))
  = imap (fun i _ => (Z.of_nat i, lagged_blocks df count i)) df.
Proof.
  unfold shift_loop. rewrite Nat2Z.id.
  induction count as [|count IH].
  - simpl. apply imap_ext. intros i r Hi. simpl.
    unfold lagged_blocks, lagged. simpl. by rewrite Nat.sub_0_r, Hi.
  - rewrite seq_S, foldl_app. simpl.
    set (prev := foldl _ (of_table df) (seq 0 count)) in *.
    assert (Hprev : prev = mkWide (depth prev)
                (imap (fun i _ => (Z.of_nat i, lagged_blocks df count i)) df)).
    { destruct prev. simpl in *. by rewrite IH. }
    unfold concat_shift. simpl.
    replace (filter _ (wrows prev)) with (@nil (WideRow F)).
    2:{ symmetry. apply elem_of_nil_inv. intros [l bs] [Hout Hin]%list_elem_of_filter.
        rewrite IH in Hin. apply elem_of_lookup_imap in Hin as (i & r & [= -> ->] & Hi).
        apply lookup_lt_Some in Hi. simpl in Hout. lia. }
    rewrite app_nil_r. apply list_eq. intros i. rewrite !list_lookup_imap.
    destruct (decide (i < length df)%nat) as [Hi|Hi].
    + rewrite shift_lookup by done.
      destruct (lookup_lt_is_Some_2 df i Hi) as [r ->]. simpl. do 2 f_equal.
      rewrite Hprev, blocks_at_imap by done.
      unfold lagged_blocks. rewrite (seq_S (S count)), reverse_snoc. done.
    + rewrite (lookup_ge_None_2 df) by lia.
      rewrite lookup_ge_None_2; [done|]. rewrite length_shift. lia.
Qed.

(** *** What a pass sees after a join *)

Lemma labels_concat_shift df periods W :
  in_range df W ->
  labels (concat_shift df periods W) = seqZ 0 (Z.of_nat (length df)).
Proof.
  intros Hin. unfold labels, concat_shift. simpl.
  replace (filter _ (wrows W)) with (@nil (WideRow F)).
  2:{ symmetry. apply elem_of_nil_inv. intros [l bs] [Hout Hrow]%list_elem_of_filter.
      unfold in_range, labels in Hin. rewrite Forall_forall in Hin.
      apply Hout, Hin. apply list_elem_of_fmap. by exists (l, bs). }
  rewrite app_nil_r. apply list_eq. intros i.
  rewrite list_lookup_fmap, list_lookup_imap.
  destruct (decide (i < length df)%nat) as [Hi|Hi].
  - rewrite shift_lookup by done. simpl. symmetry. apply lookup_seqZ. lia.
  - rewrite lookup_ge_None_2 by (rewrite length_shift; lia).
    symmetry. apply lookup_seqZ_ge. lia.
Qed.

Lemma in_range_seqZ df W :
  labels W = seqZ 0 (Z.of_nat (length df)) -> in_range df W.
Proof.
  intros Hl. unfold in_range. rewrite Hl. apply Forall_forall.
  intros l Hl'%elem_of_seqZ. lia.
Qed.

Lemma in_range_foldl df W steps :
  in_range df W ->
  in_range df (foldl (fun W' i => concat_shift df (S i) W') W steps).
Proof.
  revert W. induction steps as [|i steps IH]; intros W HW; simpl; [done|].
  apply IH, in_range_seqZ. by apply labels_concat_shift.
Qed.

Lemma labels_shift_loop df count W :
  0 < count -> in_range df W ->
  labels (shift_loop df count W) = seqZ 0 (Z.of_nat (length df)).
Proof.
  intros Hcount HW. unfold shift_loop.
  destruct (Z.to_nat count) as [|n] eqn:Hn; [lia|].
  rewrite seq_S, foldl_app. simpl. apply labels_concat_shift.
  by apply in_range_foldl.
Qed.

Lemma under_sample_idx_ext (g1 g2 : UnderSampler.Group) k :
  UnderSampler.idx <$> g1 = UnderSampler.idx <$> g2 ->
  UnderSampler.under_sample g1 k = UnderSampler.under_sample g2 k.
Proof.
  intros Hidx.
  assert (Hlen : length g1 = length g2).
  { by rewrite <- (length_fmap UnderSampler.idx g1), Hidx, length_fmap. }
  destruct (Z_lt_le_dec 0 k) as [Hk|Hk].
  - rewrite !under_sample_labels by done. unfold UnderSampler.labels_at.
    by rewrite Hidx, Hlen.
  - unfold UnderSampler.under_sample. by ztest_true (k <=? 0).
Qed.

Lemma filter_fst_fmap {A B} (P : A -> Prop) (Q : A * B -> Prop)
    `{forall x, Decision (P x)} `{forall x, Decision (Q x)} (l : list (A * B)) :
  (forall row, Q row <-> P row.1) ->
  (filter Q l).*1 = filter P (l.*1).
Proof.
  intros HPQ. induction l as [|[a b] l IH]; [done|]. csimpl.
  rewrite !filter_cons. specialize (HPQ (a, b)). simpl in HPQ.
  destruct (decide (Q (a, b))), (decide (P a)); csimpl; rewrite ?IH; tauto.
Qed.

Lemma omap_fst_fmap {A B C} (f : A -> option C) (l : list (A * B)) :
  omap (fun row => f row.1) l = omap f (l.*1).
Proof.
  induction l as [|[a b] l IH]; [done|]. csimpl. by rewrite IH.
Qed.

Lemma filter_label_singleton (rows : list (WideRow F)) l :
  NoDup (rows.*1) -> l ∈ rows.*1 ->
  (filter (fun row : WideRow F => row.1 = l) rows).*1 = [l].
Proof.
  induction rows as [|[l' bs] rows IH]; csimpl; intros Hnd Hin.
  - by apply elem_of_nil in Hin.
  - apply NoDup_cons in Hnd as [Hnotin Hnd]. rewrite filter_cons. simpl.
    destruct (decide (l' = l)) as [->|Hne].
    + csimpl. f_equal. apply elem_of_nil_inv. intros x Hx.
      apply list_elem_of_fmap in Hx as ([l2 b2] & -> & [Heq Hin2]%list_elem_of_filter).
      simpl in Heq. subst l2. apply Hnotin. apply list_elem_of_fmap. by exists (l, b2).
    + apply elem_of_cons in Hin as [->|Hin]; [done|]. by apply IH.
Qed.

Lemma loc_labels W ls :
  NoDup (labels W) -> Forall (fun l => l ∈ labels W) ls -> labels (loc W ls) = ls.
Proof.
  intros Hnd Hall. unfold labels, loc. simpl.
  induction Hall as [|l ls Hl _ IH]; [done|].
  rewrite bind_cons, fmap_app, IH.
  by rewrite (filter_label_singleton _ l Hnd Hl).
Qed.

Lemma group_of_idx df W key :
  UnderSampler.idx <$> group_of df W key
  = filter (fun l => serial_at df l = Some key) (labels W).
Proof.
  unfold group_of, labels. rewrite <- list_fmap_compose.
  by apply filter_fst_fmap.
Qed.

Lemma from_pandas_labels W :
  labels (from_pandas W) = merge_sort Z.le (labels W).
Proof.
  assert (Htotal : Total (@index_le F)).
  { intros row row'. unfold index_le. lia. }
  unfold labels, from_pandas. cbn [wrows].
  apply (Sorted_unique Z.le).
  - apply (Sorted_fmap _ index_le); [by intros x y|].
    apply (Sorted_merge_sort index_le).
  - apply (Sorted_merge_sort Z.le).
  - by rewrite !merge_sort_Permutation.
Qed.

(** The labels that a pass retains depend on the labels of its frame only. *)
Lemma sampling_pass_labels df W k :
  NoDup (labels W) ->
  labels <$> sampling_pass df W k = pass_labels df k (labels W).
Proof.
  intros Hnd. unfold sampling_pass, pass_labels, group_keys.
  rewrite (omap_fst_fmap (serial_at df)). fold (labels W).
  destruct (decide (merge_sort String.le _ = [])); [done|].
  rewrite (mapM_ext _ (fun key =>
     UnderSampler.under_sample
       ((fun l => UnderSampler.mkRow l None)
          <$> filter (fun l => serial_at df l = Some key) (labels W)) k)).
  2:{ intros key. apply under_sample_idx_ext.
      rewrite group_of_idx, <- list_fmap_compose. simpl. by rewrite list_fmap_id. }
  destruct (mapM _ _) as [indexes|] eqn:Hmap; [|done].
  cbn [fmap option_fmap option_map mbind option_bind].
  rewrite from_pandas_labels. do 2 f_equal.
  apply loc_labels; [done|]. apply Forall_forall. intros l Hl.
  apply list_elem_of_join in Hl as (ix & Hlix & Hix).
  apply mapM_Some in Hmap. apply list_elem_of_lookup in Hix as (j & Hj).
  destruct (Forall2_lookup_r _ _ _ _ _ Hmap Hj) as (key & _ & Hkey).
  apply (under_sample_subset _ _ _ l) in Hkey; [|done].
  rewrite <- list_fmap_compose in Hkey. simpl in Hkey. rewrite list_fmap_id in Hkey.
  by apply list_elem_of_filter in Hkey as [_ ?].
Qed.

Lemma pass_labels_None df k ls :
  0 < k ->
  pass_labels df k ls = None <->
  merge_sort String.le (remove_dups (omap (serial_at df) ls)) = [].
Proof.
  intros Hk. unfold pass_labels.
  destruct (decide (merge_sort String.le _ = [])) as [Hnil|Hne]; [done|].
  split; [|done]. intros Hnone. exfalso.
  apply fmap_None, mapM_None, Exists_exists in Hnone as (key & _ & Hkey).
  by rewrite under_sample_labels in Hkey.
Qed.

Lemma sampling_pass_in_range df W k W' :
  in_range df W -> sampling_pass df W k = Some W' -> in_range df W'.
Proof.
  unfold in_range, sampling_pass. rewrite !Forall_forall. intros Hin Hpass.
  destruct (decide _); [done|]. destruct (mapM _ _) as [indexes|]; [|done].
  injection Hpass as <-. intros l ([l' bs] & -> & Hrow)%list_elem_of_fmap.
  simpl in Hrow. rewrite merge_sort_Permutation in Hrow.
  apply list_elem_of_bind in Hrow as (l0 & [_ Hrow]%list_elem_of_filter & _).
  apply Hin. apply list_elem_of_fmap. by exists (l', bs).
Qed.

Lemma of_table_in_range df : in_range df (of_table df).
Proof.
  unfold in_range, labels. apply Forall_forall.
  intros l ([l' bs] & -> & Hrow)%list_elem_of_fmap.
  apply elem_of_lookup_imap in Hrow as (i & r & [= -> ->] & Hi).
  apply lookup_lt_Some in Hi. simpl. lia.
Qed.

(** The labels that the loop over the factors retains are those of one pass
    with the last factor on the whole table. *)
Lemma dynamic_loop_labels df divisors W p :
  Forall (fun k => 2 <= k) divisors -> in_range df W -> last divisors = Some p ->
  labels <$> dynamic_loop df divisors W
  = pass_labels df p (seqZ 0 (Z.of_nat (length df))).
Proof.
  intros Hdiv. revert W.
  induction Hdiv as [|k divisors Hk Hdiv IH]; intros W HW Hlast; [done|].
  simpl.
  assert (Hl : labels (shift_loop df (k - 1) W) = seqZ 0 (Z.of_nat (length df)))
    by (apply labels_shift_loop; [lia|done]).
  pose proof (sampling_pass_labels df (shift_loop df (k - 1) W) k) as Hpass.
  rewrite Hl in Hpass. specialize (Hpass (NoDup_seqZ _ _)).
  destruct divisors as [|k' divisors].
  - injection Hlast as <-. simpl.
    destruct (sampling_pass df _ k); simpl in *; done.
  - rewrite last_cons_cons in Hlast.
    destruct (sampling_pass df _ k) as [W'|] eqn:HW'; simpl in *.
    + apply IH; [|done]. eapply sampling_pass_in_range; [|exact HW'].
      by apply in_range_seqZ.
    + symmetry. symmetry in Hpass. apply pass_labels_None in Hpass; [|lia].
      apply pass_labels_None; [|done].
      apply last_Some_elem_of in Hlast. rewrite Forall_forall in Hdiv.
      specialize (Hdiv p Hlast). lia.
Qed.

Lemma factors_ge_2 n fs : 0 < n -> factors n = Some fs -> Forall (fun k => 2 <= k) fs.
Proof.
  intros Hn Hfs. destruct (factors_fuel_spec n Hn) as (fs' & Hfs' & Hprime & _).
  rewrite Hfs in Hfs'. injection Hfs' as <-.
  eapply Forall_impl; [exact Hprime|]. intros p Hp. by apply Z.prime_ge_2.
Qed.

(** Under Dynamic overlap the retained rows depend on the largest prime
    factor of [window_dim] only: every join of a shifted copy brings back
    the rows that an earlier pass removed, so only the last pass counts. *)
Theorem dynamic_largest_factor (df : Table F) (window_dim window_dim' : Z)
    (fs fs' : list Z) (Hw : 0 < window_dim) (Hw' : 0 < window_dim')
    (Hfs : factors window_dim = Some fs) (Hfs' : factors window_dim' = Some fs')
    (Hlast : last fs = last fs') :
  labels <$> dynamic df window_dim = labels <$> dynamic df window_dim'.
Proof.
  unfold dynamic. rewrite Hfs, Hfs'. simpl.
  destruct (last fs) as [p|] eqn:Hp.
  - rewrite Hlast in Hp.
    rewrite (dynamic_loop_labels df fs _ p), (dynamic_loop_labels df fs' _ p);
      [done|apply (factors_ge_2 window_dim'); done|apply of_table_in_range|done
      |apply (factors_ge_2 window_dim); done|apply of_table_in_range|by rewrite Hlast].
  - apply last_None in Hp. symmetry in Hlast. apply last_None in Hlast.
    by subst.
Qed.

(** With a [window_dim] of 2 or more, the Dynamic procedure returns a frame
    exactly when some row of the table has a serial number; on an empty
    table, or one without serial numbers, the pass has no group and
    raises. *)
Theorem dynamic_returns_iff (df : Table F) (window_dim : Z) (Hw : 2 <= window_dim) :
  is_Some (dynamic df window_dim) <->
  exists i r s, df !! i = Some r /\ serial_number r = Some s.
Proof.
  split.
  - intros Hsome.
    destruct (factors_fuel_spec window_dim) as (fs & Hfs & Hprime & _ & Hprod); [lia|].
    destruct (last fs) as [p|] eqn:Hp.
    2:{ apply last_None in Hp. subst fs. unfold product in Hprod. simpl in Hprod. lia. }
    assert (Hge : Forall (fun k => 2 <= k) fs) by (apply (factors_ge_2 window_dim); [lia|done]).
    assert (Hlab : is_Some (labels <$> dynamic df window_dim))
      by (destruct Hsome as [W ->]; by eexists).
    unfold dynamic in Hlab. rewrite Hfs in Hlab. simpl in Hlab.
    rewrite (dynamic_loop_labels df fs _ p) in Hlab
      by eauto using of_table_in_range.
    destruct (decide (merge_sort String.le
       (remove_dups (omap (serial_at df) (seqZ 0 (Z.of_nat (length df))))) = []))
      as [Hnil|Hne].
    + apply (pass_labels_None df p) in Hnil.
      * rewrite Hnil in Hlab. by destruct Hlab.
      * apply last_Some_elem_of in Hp. rewrite Forall_forall in Hge.
        specialize (Hge p Hp). lia.
    + destruct (merge_sort String.le _) as [|s keys] eqn:Hkeys; [done|].
      assert (Hs : s ∈ merge_sort String.le
         (remove_dups (omap (serial_at df) (seqZ 0 (Z.of_nat (length df))))))
        by (rewrite Hkeys; left).
      rewrite merge_sort_Permutation, elem_of_remove_dups in Hs.
      apply list_elem_of_omap in Hs as (l & _ & Hl).
      unfold serial_at in Hl. destruct (decide (0 <= l)); [|done].
      destruct (df !! Z.to_nat l) as [r|] eqn:Hr; [|done]. eauto.
  - intros (i & r & s & Hi & Hs). eapply dynamic_is_Some; [lia|done..].
Qed.

Lemma full_wrows (df : Table F) (window_dim : Z) :
  wrows (full df window_dim)
  = imap (fun i _ => (Z.of_nat i, lagged_blocks df (Z.to_nat (window_dim - 1)) i)) df.
Proof. rewrite <- shift_loop_of_table. unfold full, shift_loop. by rewrite Nat2Z.id. Qed.

(** Under Full overlap every row of the table is kept, in order, and its
    blocks are the rows [window_dim - 1], ..., 1, 0 positions above it in
    the whole table, whatever device they belong to; above the first row
    the blocks are NaN. *)
Theorem full_rows (df : Table F) (window_dim : Z) :
  labels (full df window_dim) = seqZ 0 (Z.of_nat (length df)) /\
  wrows (full df window_dim)
  = imap (fun i _ => (Z.of_nat i, lagged_blocks df (Z.to_nat (window_dim - 1)) i)) df.
Proof.
  split; [|apply full_wrows]. unfold labels. rewrite full_wrows. apply list_eq. intros i.
  rewrite list_lookup_fmap, list_lookup_imap.
  destruct (df !! i) as [r|] eqn:Hi; simpl; symmetry.
  - apply lookup_seqZ. apply lookup_lt_Some in Hi. lia.
  - apply lookup_seqZ_ge. apply lookup_ge_None in Hi. lia.
Qed.

(** *** The two frames of the Hybrid branch *)

Lemma sum_pred_le_product (fs : list Z) :
  Forall (fun k => 2 <= k) fs ->
  1 <= product fs /\
  foldr Z.add 0 ((fun f => f - 1) <$> fs) + 1 <= product fs /\
  (foldr Z.add 0 ((fun f => f - 1) <$> fs) + 1 = product fs -> (length fs <= 1)%nat).
Proof.
  unfold product. induction 1 as [|f fs Hf Hfs (Hpos & Hle & Heq)]; csimpl.
  - split_and!; lia.
  - set (s := foldr Z.add 0 ((fun f => f - 1) <$> fs)) in *.
    set (q := foldr Z.mul 1 fs) in *.
    split_and!; [nia|nia|]. intros Hs.
    assert (q = 1) by nia.
    destruct fs as [|g fs]; [simpl; lia|].
    apply Forall_cons in Hfs as [Hg Hfs]. exfalso.
    assert (1 <= foldr Z.mul 1 fs).
    { clear -Hfs. induction Hfs; simpl; nia. }
    unfold q in *. simpl in *. nia.
Qed.

Lemma prime_factor_list (n : Z) (fs : list Z) :
  Forall Z.prime fs -> product fs = n ->
  (n = 1 \/ Z.prime n) <-> (length fs <= 1)%nat.
Proof.
  intros Hprime Hprod. unfold product in Hprod.
  destruct fs as [|p [|q fs]]; simpl in *.
  - split; [lia|]. intros _. left. lia.
  - split; [lia|]. intros _. right. apply Forall_cons in Hprime as [Hp _].
    by replace n with p by lia.
  - split; [|lia]. intros Hn. exfalso.
    apply Forall_cons in Hprime as [Hp Hrest].
    apply Z.prime_ge_2 in Hp as Hp2.
    assert (Hge : Forall (fun k => 2 <= k) (q :: fs)).
    { eapply Forall_impl; [exact Hrest|]. intros x Hx. by apply Z.prime_ge_2. }
    destruct (sum_pred_le_product (q :: fs) Hge) as (Hpos & Hle & _).
    unfold product in *. simpl in *.
    assert (2 <= q * foldr Z.mul 1 fs).
    { apply Forall_cons in Hge as [Hq Hfs].
      assert (1 <= foldr Z.mul 1 fs).
      { clear -Hfs. induction Hfs; simpl; nia. }
      nia. }
    destruct Hn as [Hn|[_ Hn]]; [nia|].
    apply (Hn p); [nia|]. exists (q * foldr Z.mul 1 fs). lia.
Qed.

(** In Hybrid mode the Dynamic frame never has more blocks of columns than
    the Full sub-frame built next to it, and it has as many exactly when
    [window_dim] is 1 or a prime: for a composite [window_dim] the two
    frames differ in their numbers of columns. *)
Theorem hybrid_frames_depth (df : Table F) (window_dim : Z) (D : WideTable F)
    (Hw : 0 < window_dim) (HD : dynamic df window_dim = Some D) :
  (depth D <= depth (windowed_df_failed df window_dim))%nat /\
  (depth D = depth (windowed_df_failed df window_dim) <->
   window_dim = 1 \/ Z.prime window_dim).
Proof.
  pose proof (depth_windowed_df_failed df window_dim Hw) as Hfull.
  destruct (factors_fuel_spec window_dim Hw) as (fs & Hfs & Hprime & _ & Hprod).
  assert (Hge : Forall (fun k => 2 <= k) fs).
  { eapply Forall_impl; [exact Hprime|]. intros x Hx. by apply Z.prime_ge_2. }
  unfold dynamic in HD. rewrite Hfs in HD. simpl in HD.
  apply depth_dynamic_loop in HD;
    [|eapply Forall_impl; [exact Hge|]; simpl; intros; lia].
  simpl in HD.
  destruct (sum_pred_le_product fs Hge) as (_ & Hle & Heq).
  rewrite (prime_factor_list window_dim fs Hprime Hprod).
  split; [lia|]. split.
  - intros Hd. apply Heq. lia.
  - intros Hlen. destruct fs as [|p [|q fs]]; simpl in *; [| |lia].
    + unfold product in Hprod. simpl in Hprod. lia.
    + unfold product in Hprod. simpl in Hprod. lia.
Qed.

End WindowsFacts.

Section WindowsExamples.
Import Factorizer WindowBuilder Windows.
Local Open Scope Z_scope.

Lemma dynamic_largest_factor_witness :
  labels <$> dynamic (sample_device "A" 20 0 ++ sample_device "B" 12 0) 12
  = labels <$> dynamic (sample_device "A" 20 0 ++ sample_device "B" 12 0) 3.
Proof.
  apply (dynamic_largest_factor _ 12 3 [2; 2; 3] [3]); [lia|lia|reflexivity..].
Defined.

Example dynamic_12_labels :
  labels <$> dynamic (sample_device "A" 20 0 ++ sample_device "B" 12 0) 12
  = Some [1; 4; 7; 10; 22].
Proof. vm_compute. reflexivity. Qed.

(** The rows of the frame are in the order of the index, also when the
    devices are not: the second device has the smaller serial number and
    its group is cut first. *)
Example dynamic_index_order :
  labels <$> dynamic (sample_device "B" 10 0 ++ sample_device "A" 10 0) 2
  = Some [1; 11].
Proof. vm_compute. reflexivity. Qed.

Lemma dynamic_returns_iff_witness :
  is_Some (dynamic (sample_device "A" 10 0) 4) <->
  exists i r s, sample_device "A" 10 0 !! i = Some r /\ serial_number r = Some s.
Proof. apply dynamic_returns_iff. lia. Defined.

Example dynamic_empty_table : dynamic (F:=Z) [] 4 = None /\ dynamic (F:=Z) [] 1 = Some (of_table []).
Proof. vm_compute. done. Qed.

Lemma hybrid_frames_depth_witness :
  exists D,
    dynamic (sample_device "A" 10 0) 4 = Some D /\
    (depth D <= depth (windowed_df_failed (sample_device "A" 10 0) 4))%nat /\
    (depth D = depth (windowed_df_failed (sample_device "A" 10 0) 4) <->
     4 = 1 \/ Z.prime 4).
Proof.
  destruct (dynamic (sample_device "A" 10 0) 4) as [D|] eqn:HD; [|by vm_compute in HD].
  exists D. split; [done|]. apply (hybrid_frames_depth _ 4 D); [lia|done].
Defined.

Example hybrid_frames_depth_4 :
  depth <$> dynamic (sample_device "A" 10 0) 4 = Some 3%nat /\
  depth (windowed_df_failed (sample_device "A" 10 0) 4) = 4%nat.
Proof. vm_compute. done. Qed.

Lemma perform_windowing_depth_witness :
  exists T, perform_windowing (sample_device "A" 10 0) 2 12 = Some T /\
            Reshaper.data_dim 2 12 = Some (Z.of_nat (depth T)).
Proof.
  destruct (perform_windowing (sample_device "A" 10 0) 2 12) as [T|] eqn:HT;
    [|by vm_compute in HT].
  exists T. split; [done|].
  apply (perform_windowing_depth (sample_device "A" 10 0) 2 12 T); [lia|by right|done].
Defined.

End WindowsExamples.

(** ** Factorizer and Reshaper, continued: edge behaviour *)

Section FactorizerEdge.
Import Factorizer.
Local Open Scope Z_scope.

Lemma strip_two_negative fuel n acc :
  n < 0 -> (Z.to_nat (- n) < fuel)%nat ->
  exists n' j,
    strip fuel 2 n acc = Some (n', acc ++ replicate j 2) /\
    n = n' * 2 ^ Z.of_nat j /\ n' < 0 /\ Z.odd n' = true.
Proof.
  revert n acc. induction fuel as [|fuel IH]; intros n acc Hn Hfuel; [lia|].
  simpl. destruct (n mod 2 =? 0) eqn:Hmod.
  - apply Z.eqb_eq in Hmod.
    assert (Heq : n = 2 * (n / 2)) by (apply Z_div_exact_full_2; [lia|done]).
    destruct (IH (n / 2) (acc ++ [2])) as (n' & j & Hs & Hpow & Hneg & Hodd);
      [lia|lia|].
    exists n', (S j). split_and!; [|..|done|done].
    + rewrite Hs. by rewrite <- (assoc_L (++)).
    + rewrite Nat2Z.inj_succ, Z.pow_succ_r by lia. lia.
  - apply Z.eqb_neq in Hmod. exists n, 0%nat. split_and!.
    + by rewrite app_nil_r.
    + simpl. lia.
    + done.
    + pose proof (Zmod_odd n) as Hodd. destruct (Z.odd n); [done|lia].
Qed.

Lemma factors_negative_twos (n : Z) :
  n < 0 ->
  exists j m,
    factors n = Some (replicate j 2) /\
    n = m * 2 ^ Z.of_nat j /\ m < 0 /\ Z.odd m = true.
Proof.
  intros Hn.
  destruct (strip_two_negative (fuel_for n) n []) as (m & j & Hs & Hpow & Hneg & Hodd);
    [done|unfold fuel_for; lia|].
  exists j, m. split_and!; [|done..].
  unfold factors, factors_fuel. rewrite Hs. unfold fuel_for. simpl.
  ztest_false (3 * 3 <=? m). by ztest_false (1 <? m).
Qed.

(** On a negative argument [factors] returns, without any error, the
    factors 2 of the argument and nothing else: the odd part is dropped, so
    the product of the list is not the argument. *)
Theorem factors_negative (n : Z) (Hn : n < 0) :
  exists j m,
    factors n = Some (replicate j 2) /\
    n = m * 2 ^ Z.of_nat j /\ m < 0 /\ Z.odd m = true /\
    product (replicate j 2) <> n.
Proof.
  destruct (factors_negative_twos n Hn) as (j & m & Hf & Hpow & Hneg & Hodd).
  exists j, m. split_and!; [done..|].
  assert (0 < product (replicate j 2)); [|lia].
  unfold product. clear. induction j as [|j IH]; simpl; lia.
Qed.

(** [factors] returns on every argument but 0, where its first loop never
    ends: no number of iterations yields a result. *)
Theorem factors_returns_iff (n : Z) :
  (exists fuel l, factors_fuel fuel n = Some l) <-> n <> 0.
Proof.
  split.
  - intros (fuel & l & Hl) ->. by rewrite factors_zero_diverges in Hl.
  - intros Hn. exists (fuel_for n).
    assert (n < 0 \/ 0 < n) as [Hneg|Hpos] by lia.
    + destruct (factors_negative_twos n Hneg) as (j & _ & Hf & _). eauto.
    + destruct (factors_fuel_spec n Hpos) as (l & Hf & _). eauto.
Qed.

Lemma factors_negative_witness :
  exists j m,
    factors (-12) = Some (replicate j 2) /\
    -12 = m * 2 ^ Z.of_nat j /\ m < 0 /\ Z.odd m = true /\
    product (replicate j 2) <> -12.
Proof. apply (factors_negative (-12)). lia. Defined.

Example factors_minus_12 : factors (-12) = Some [2; 2].
Proof. vm_compute. reflexivity. Qed.

End FactorizerEdge.

Section ReshaperEdge.
Import Reshaper.
Local Open Scope Z_scope.

(** For a table with at least one row and a positive depth, the reshape
    succeeds exactly when the depth divides the number of columns; an
    empty table is reshaped whatever its number of columns. *)
Theorem arrays_to_matrix_divides {A} (X : ndarray A) (n c d : Z)
    (Hshape : shape X = [n; c]) (Hwf : well_formed X) (Hd : 0 < d) :
  (0 < n -> is_Some (arrays_to_matrix X d) <-> (d | c)) /\
  (n = 0 -> shape <$> arrays_to_matrix X d = Some [0; Z.quot c d; d]).
Proof.
  destruct Hwf as [Hnonneg Hsize]. rewrite Hshape in Hnonneg, Hsize.
  apply Forall_cons in Hnonneg as [Hn Hc%Forall_cons_1].
  unfold size in Hsize. simpl in Hsize.
  unfold arrays_to_matrix. rewrite Hshape. ztest_false (d =? 0).
  unfold reshape, size. simpl.
  assert (Hq : 0 <= Z.quot c d) by (apply Z.quot_pos; lia).
  ztest_true (0 <=? n). ztest_true (0 <=? Z.quot c d). ztest_true (0 <=? d). simpl.
  split.
  - intros Hpos.
    destruct (n * (c ÷ d * (d * 1)) =? Z.of_nat (length (data X))) eqn:Heq.
    + apply Z.eqb_eq in Heq. split; [|by eexists]. intros _.
      exists (c ÷ d). nia.
    + apply Z.eqb_neq in Heq. split; [by intros []|]. intros [q ->]. exfalso.
      apply Heq. rewrite Z.quot_mul by lia. lia.
  - intros ->.
    by ztest_true (0 * (c ÷ d * (d * 1)) =? Z.of_nat (length (data X))).
Qed.

Lemma arrays_to_matrix_divides_witness :
  (0 < 2 -> is_Some (arrays_to_matrix (mk_ndarray [2; 6] (seqZ 0 12)) 4) <-> (4 | 6)) /\
  (2 = 0 ->
   shape <$> arrays_to_matrix (mk_ndarray [2; 6] (seqZ 0 12)) 4 = Some [0; Z.quot 6 4; 4]).
Proof.
  apply (arrays_to_matrix_divides (mk_ndarray [2; 6] (seqZ 0 12)) 2 6 4).
  - reflexivity.
  - split; [repeat constructor; lia|reflexivity].
  - lia.
Defined.

End ReshaperEdge.

(** ** Preprocessing *)

Section PreprocessingFacts.
Import Reshaper ValidityFilter Preprocessing.
Local Open Scope Z_scope.

Lemma elem_of_select {A} (mask : list bool) (l : list A) x :
  x ∈ select mask l <-> exists j, mask !! j = Some true /\ l !! j = Some x.
Proof.
  unfold select. rewrite list_elem_of_fmap. split.
  - intros ([b y] & -> & [Hb Hin]%list_elem_of_filter). simpl in *. subst b.
    apply list_elem_of_lookup in Hin as [j Hj].
    apply lookup_zip_with_Some in Hj as (b & z & [= <- <-] & Hb & Hz). eauto.
  - intros (j & Hm & Hl). exists (true, x). split; [done|].
    apply list_elem_of_filter. split; [done|].
    apply list_elem_of_lookup. exists j. apply lookup_zip_with_Some. eauto.
Qed.

Lemma select_subseteq {A} (mask : list bool) (l : list A) : select mask l ⊆ l.
Proof.
  intros x (j & _ & Hl)%elem_of_select. by eapply list_elem_of_lookup_2.
Qed.

Lemma length_select {A} (mask : list bool) (l : list A) :
  (forall j, mask !! j = Some true -> is_Some (l !! j)) ->
  length (select mask l) = length (filter (fun b => b = true) mask).
Proof.
  unfold select. revert l. induction mask as [|b mask IH]; intros l Hl; [done|].
  destruct l as [|x l].
  - simpl. symmetry. apply length_zero_iff_nil, elem_of_nil_inv.
    intros b' [-> Hin]%list_elem_of_filter.
    apply list_elem_of_lookup in Hin as [j Hj].
    by destruct (Hl j Hj) as [? ?].
  - csimpl. rewrite !filter_cons. simpl.
    specialize (IH l (fun j Hj => Hl (S j) Hj)).
    destruct (decide (b = true)); csimpl; by rewrite IH.
Qed.

Lemma columns_validity_filter_rows df :
  columns (validity_filter_rows df).1 = columns (drop_numbered_identifiers df).
Proof.
  unfold validity_filter_rows, drop_incomplete_rows.
  by destruct (decide _).
Qed.

Lemma columns_drop_numbered_subseteq df :
  columns (drop_numbered_identifiers df) ⊆ columns df.
Proof.
  unfold drop_numbered_identifiers. rewrite columns_drop_columns.
  intros col [_ ?]%list_elem_of_filter. done.
Qed.

Lemma columns_dropna_columns_subseteq df : columns (dropna_columns df) ⊆ columns df.
Proof. apply select_subseteq. Qed.

(** After [dropna(axis='columns')] no cell is missing and every row has
    one cell per column. *)
Lemma dropna_columns_cells df row :
  row ∈ rows (dropna_columns df) ->
  Forall is_Some row /\ length row = length (columns (dropna_columns df)).
Proof.
  unfold dropna_columns. simpl.
  intros (row0 & -> & Hrow0)%list_elem_of_fmap.
  assert (Hmask : forall j, imap (fun j _ => column_complete df j) (columns df) !! j
                            = Some true ->
                            exists v, row0 !! j = Some (Some v)).
  { intros j Hj. rewrite list_lookup_imap in Hj.
    destruct (columns df !! j); [|done]. simpl in Hj. injection Hj as Hj.
    unfold column_complete in Hj.
    rewrite <- Is_true_true, forallb_True, Forall_forall in Hj.
    specialize (Hj row0 Hrow0). apply bool_decide_unpack in Hj as [v Hv].
    exists v. by destruct (row0 !! j) as [[?|]|]; simplify_eq/=. }
  split.
  - apply Forall_forall. intros c (j & Hj & Hc)%elem_of_select.
    destruct (Hmask j Hj) as [v Hv]. by simplify_eq.
  - rewrite !length_select; [done| |].
    + intros j Hj. rewrite list_lookup_imap in Hj.
      by destruct (columns df !! j).
    + intros j Hj. destruct (Hmask j Hj) as [v Hv]. eauto.
Qed.

Lemma insert_sorted_Permutation {A} (R : relation A) `{!RelDecision R} x l :
  insert_sorted R x l ≡ₚ x :: l.
Proof.
  induction l as [|y l IH]; [done|]. simpl.
  destruct (decide (R x y)); [done|]. rewrite IH. apply Permutation_swap.
Qed.

Lemma stable_sort_Permutation {A} (R : relation A) `{!RelDecision R} l :
  stable_sort R l ≡ₚ l.
Proof.
  induction l as [|x l IH]; [done|]. simpl.
  by rewrite insert_sorted_Permutation, IH.
Qed.

Lemma cell_present df label row :
  label ∈ columns df -> Forall is_Some row -> length row = length (columns df) ->
  is_Some (cell df label row).
Proof.
  intros Hin Hall Hlen. unfold cell.
  destruct (list_find (fun col => col = label) (columns df)) as [[j c]|] eqn:Hfind.
  - apply list_find_Some in Hfind as (Hj & _ & _). simpl.
    apply lookup_lt_Some in Hj. rewrite <- Hlen in Hj.
    apply lookup_lt_is_Some_2 in Hj as [c' Hc']. rewrite Hc'. simpl.
    rewrite Forall_forall in Hall. apply Hall. by eapply list_elem_of_lookup_2.
  - apply list_find_None in Hfind. rewrite Forall_forall in Hfind.
    by destruct (Hfind label Hin).
Qed.

(** The two ways out of the branch of [windowing == 1]: a [KeyError] of
    [set_index], or a rectangular frame without any missing cell that has
    one row per row that passed the validity filter. *)
Lemma drop_invalid_windows_cases df :
  let df1 := dropna_columns (validity_filter_rows df).1 in
  (exists labels,
     drop_invalid_windows df = KeyError labels /\ labels <> [] /\
     labels ⊆ index_columns /\ exists label, label ∈ labels /\ label ∉ columns df1) \/
  (exists df',
     drop_invalid_windows df = Returned df' /\
     index_columns ⊆ columns df1 /\
     columns df' = index_columns ++ filter (fun col => col ∉ index_columns) (columns df1) /\
     length (rows df') = length (rows df1) /\
     Forall (fun row => Forall is_Some row /\ length row = length (columns df'))
            (rows df')).
Proof.
  intros df1.
  assert (Hcells : forall row, row ∈ rows df1 ->
              Forall is_Some row /\ length row = length (columns df1))
    by apply dropna_columns_cells.
  unfold drop_invalid_windows. fold df1. clearbody df1. unfold set_index.
  destruct (decide (filter (fun col => col ∉ columns df1) index_columns = []))
    as [Hnil|Hcons].
  - right. eexists. split; [done|].
    assert (Hkeys : index_columns ⊆ columns df1).
    { intros key Hkey. destruct (decide (key ∈ columns df1)) as [|Hnot]; [done|].
      by destruct (filter_nil_not_elem_of _ _ key Hnil Hnot). }
    split; [done|]. unfold bind, reset_index, sort_index.
    cbn [columns rows names icolumns irows].
    rewrite columns_drop_columns. split; [done|].
    rewrite length_fmap, stable_sort_Permutation, length_zip, !length_fmap.
    split; [unfold drop_columns; cbn [rows]; rewrite length_fmap; lia|].
    apply Forall_fmap.
    apply Forall_forall. intros [key rest] Hin.
    apply list_elem_of_lookup in Hin as [i Hi].
    apply lookup_zip_with_Some in Hi as (k & r & [= <- <-] & Hk & Hr).
    unfold drop_columns in Hr. cbn [rows] in Hr.
    rewrite list_lookup_fmap in Hk, Hr.
    destruct (rows df1 !! i) as [row|] eqn:Hrow; [|done].
    cbn [fmap option_fmap option_map] in Hk, Hr.
    injection Hk as <-. injection Hr as <-.
    destruct (Hcells row) as [Hall Hlen]; [by eapply list_elem_of_lookup_2|].
    unfold compose. cbn [fst snd]. split.
    + apply Forall_app. split.
      * repeat constructor; (apply cell_present; [apply Hkeys|done..]);
          compute_done.
      * eapply Forall_forall. intros c Hc. rewrite Forall_forall in Hall.
        apply Hall. by eapply select_subseteq.
    + rewrite !length_app. f_equal.
      rewrite <- columns_drop_columns. unfold drop_columns. simpl.
      rewrite !length_select; [done| |].
      * intros j Hj. rewrite list_lookup_fmap in Hj.
        by destruct (columns df1 !! j).
      * intros j Hj. rewrite list_lookup_fmap in Hj.
        apply lookup_lt_is_Some_2. rewrite Hlen.
        destruct (columns df1 !! j) eqn:Hc; [|done]. by eapply lookup_lt_Some.
  - left. eexists. split; [done|]. split; [done|]. split.
    + intros label [_ ?]%list_elem_of_filter. done.
    + destruct (filter _ index_columns) as [|label labels] eqn:Hf; [done|].
      exists label. split; [by left|].
      assert (Hin : label ∈ filter (fun col => col ∉ columns df1) index_columns)
        by (rewrite Hf; by left).
      by apply list_elem_of_filter in Hin as [? _].
Qed.

Lemma columns_filtered_subseteq df :
  columns (dropna_columns (validity_filter_rows df).1) ⊆ columns df.
Proof.
  etrans; [apply columns_dropna_columns_subseteq|].
  rewrite columns_validity_filter_rows. apply columns_drop_numbered_subseteq.
Qed.

Lemma index_columns_identifying : index_columns ⊆ identifying_columns.
Proof.
  intros key. unfold index_columns, identifying_columns.
  rewrite !elem_of_cons. tauto.
Qed.

Lemma drop_KeyError labels df label :
  label ∈ labels -> label ∉ columns df ->
  exists missing, drop labels df = @KeyError DataFrame missing /\ missing <> [] /\
                  missing ⊆ labels /\ label ∈ missing.
Proof.
  intros Hin Hnot. unfold drop.
  assert (Hl : label ∈ filter (fun col => col ∉ columns df) labels)
    by (by apply list_elem_of_filter).
  destruct (decide _) as [Hnil|Hcons].
  - rewrite Hnil in Hl. by apply elem_of_nil in Hl.
  - eexists. split; [done|]. split; [done|]. split; [|done].
    intros l [_ ?]%list_elem_of_filter. done.
Qed.

Lemma to_tensor_data {A} overlap windowing window_dim (X0 X : ndarray A) :
  to_tensor overlap windowing window_dim X0 = Some X -> data X = data X0.
Proof.
  unfold to_tensor. destruct (windowing =? 1).
  - destruct (data_dim overlap window_dim) as [d|]; [|done]. simpl.
    unfold arrays_to_matrix. destruct (shape X0) as [|r [|c [|? ?]]]; try done.
    destruct (d =? 0); [done|]. unfold reshape.
    destruct (_ && _); [|done]. by intros [= <-].
  - by intros [= <-].
Qed.

(** A frame without one of [serial_number], [date], [model] and
    [capacity_bytes] never gets through [preprocess_dataset], with or
    without windowing: printing that essential columns do not exist
    (line 273) is always followed by a [KeyError], raised by [set_index]
    (line 280) or by [drop] (line 288), that names some of the four. *)
Theorem preprocess_dataset_missing_identifier
    (overlap windowing window_dim : Z) (df : DataFrame) (label : string)
    (Hkeys : unique_keys df)
    (Hlabel : label ∈ identifying_columns) (Hmissing : label ∉ columns df) :
  exists labels,
    preprocess_dataset overlap windowing window_dim df = KeyError labels /\
    labels <> [] /\ labels ⊆ identifying_columns /\
    (windowing <> 1 -> labels = filter (fun col => col ∉ columns df) identifying_columns).
Proof.
  unfold preprocess_dataset. destruct (windowing =? 1) eqn:Hw.
  - apply Z.eqb_eq in Hw.
    destruct (drop_invalid_windows_cases df)
      as [(labels & -> & Hne & Hsub & _)|(df' & -> & Hidx & Hcols & _)].
    + exists labels. simpl. split_and!; [done|done| |done].
      etrans; [done|apply index_columns_identifying].
    + simpl.
      assert (Hnot : label ∉ columns df').
      { rewrite Hcols. intros [Hin|[_ Hin]%list_elem_of_filter]%elem_of_app.
        - by apply Hmissing, columns_filtered_subseteq, Hidx.
        - by apply Hmissing, columns_filtered_subseteq. }
      destruct (drop_KeyError identifying_columns df' label)
        as (missing & -> & Hne & Hsub & _); [done..|].
      exists missing. simpl. done.
  - apply Z.eqb_neq in Hw. simpl.
    destruct (drop_KeyError identifying_columns df label)
      as (missing & Hdrop & Hne & Hsub & _); [done..|].
    exists missing. rewrite Hdrop. simpl. split_and!; [done..|].
    intros _. unfold drop in Hdrop. destruct (decide _); [done|]. congruence.
Qed.

(** With windowing, the tensor that [preprocess_dataset] returns has no
    missing value: a column with a missing value in a row that passed the
    validity filter is removed as a whole (line 276). *)
Theorem preprocess_dataset_no_missing_value
    (overlap windowing window_dim : Z) (df : DataFrame) (X : ndarray (option value))
    (Hkeys : unique_keys df) (Hw : windowing = 1)
    (HX : preprocess_dataset overlap windowing window_dim df = Returned X) :
  Forall is_Some (data X).
Proof.
  unfold preprocess_dataset in HX. subst windowing. simpl in HX.
  destruct (drop_invalid_windows_cases df)
    as [(labels & Heq & _)|(df' & Heq & _ & _ & _ & Hcells)];
    rewrite Heq in HX; simpl in HX; [done|].
  unfold drop in HX. destruct (decide _); [|done]. simpl in HX.
  destruct (to_tensor _ _ _ _) as [X'|] eqn:HT; [|done]. injection HX as ->.
  apply to_tensor_data in HT. rewrite HT. simpl.
  apply Forall_forall. intros c Hc.
  apply list_elem_of_join in Hc as (row & Hc & Hrow).
  apply list_elem_of_fmap in Hrow as (row0 & -> & Hrow0).
  rewrite Forall_forall in Hcells. destruct (Hcells row0 Hrow0) as [Hall _].
  rewrite Forall_forall in Hall. apply Hall. by eapply select_subseteq.
Qed.

Lemma filter_identifying_reset (cols : list string) :
  filter (fun col => col ∉ identifying_columns)
         (index_columns ++ filter (fun col => col ∉ index_columns) cols)
  = filter (fun col => col ∉ identifying_columns) cols.
Proof.
  rewrite filter_app.
  replace (filter (fun col => col ∉ identifying_columns) index_columns)
    with (@nil string) by (symmetry; compute_done).
  rewrite app_nil_l, list_filter_filter. apply list_filter_iff.
  intros col. split; [tauto|]. intros Hcol. split; [done|].
  intros Hin. by apply Hcol, index_columns_identifying.
Qed.

Lemma rectangular_drop_columns labels df :
  rectangular df -> rectangular (drop_columns labels df).
Proof.
  unfold rectangular, drop_columns. cbn [rows columns]. intros Hrect.
  apply Forall_fmap, Forall_forall. intros row Hrow. cbn [compose].
  rewrite Forall_forall in Hrect. specialize (Hrect row Hrow).
  rewrite !length_select; [done| |].
  - intros j Hj. rewrite list_lookup_fmap in Hj. by destruct (columns df !! j).
  - intros j Hj. apply lookup_lt_is_Some_2. rewrite Hrect.
    apply lookup_lt_Some in Hj. by rewrite length_fmap in Hj.
Qed.

Lemma length_join_rectangular {A} (ls : list (list A)) (c : nat) :
  Forall (fun row => length row = c) ls -> length (mjoin ls) = (length ls * c)%nat.
Proof.
  induction 1 as [|row ls Hrow _ IH]; [done|].
  csimpl. rewrite length_app, IH. lia.
Qed.

(** With windowing, the tensor has one sample per row that passed the
    validity filter: the columns that still hold a missing value are
    removed, never the rows.  Its last axis is the effective depth and the
    axis in the middle counts the complete columns other than the four
    identifying ones. *)
Theorem preprocess_dataset_shape
    (overlap windowing window_dim : Z) (df : DataFrame) (X : ndarray (option value))
    (Hkeys : unique_keys df) (Hw : windowing = 1)
    (HX : preprocess_dataset overlap windowing window_dim df = Returned X) :
  let df1 := (validity_filter_rows df).1 in
  let kept := filter (fun col => col ∉ identifying_columns)
                     (columns (dropna_columns df1)) in
  exists depth,
    data_dim overlap window_dim = Some depth /\
    shape X = [Z.of_nat (length (rows df1));
               Z.quot (Z.of_nat (length kept)) depth; depth] /\
    ((0 < length (rows df1))%nat ->
     Z.of_nat (length kept) = Z.quot (Z.of_nat (length kept)) depth * depth).
Proof.
  intros df1 kept. unfold preprocess_dataset in HX. subst windowing.
  rewrite Z.eqb_refl in HX.
  destruct (drop_invalid_windows_cases df)
    as [(labels & Heq & _)|(df' & Heq & _ & Hcols & Hlen & Hcells)];
    rewrite Heq in HX; cbn [bind] in HX; [done|].
  unfold drop in HX. destruct (decide _); [|done]. cbn [bind] in HX.
  assert (Hrect : rectangular (drop_columns identifying_columns df')).
  { apply rectangular_drop_columns. eapply Forall_impl; [done|]. by intros row [_ ?]. }
  apply length_join_rectangular in Hrect.
  assert (Hn : length (rows (drop_columns identifying_columns df'))
               = length (rows df1)).
  { unfold drop_columns. cbn [rows]. rewrite length_fmap, Hlen.
    unfold dropna_columns. cbn [rows]. by rewrite length_fmap. }
  assert (Hc : columns (drop_columns identifying_columns df') = kept).
  { by rewrite columns_drop_columns, Hcols, filter_identifying_reset. }
  rewrite Hn, Hc in Hrect.
  destruct (to_tensor _ _ _ _) as [X'|] eqn:HT; [|done]. injection HX as ->.
  unfold to_tensor in HT. rewrite Z.eqb_refl in HT.
  destruct (data_dim overlap window_dim) as [depth|]; [|done]. cbn [mbind option_bind] in HT.
  exists depth. split; [done|].
  unfold arrays_to_matrix, values in HT. cbn [shape] in HT. rewrite Hn, Hc in HT.
  destruct (depth =? 0); [done|]. unfold reshape in HT.
  destruct (_ && _) eqn:Hok; [|done]. injection HT as <-. cbn [shape].
  split; [done|]. intros Hpos.
  apply andb_prop in Hok as [_ Hsize%Z.eqb_eq].
  unfold size in Hsize. cbn [foldr data] in Hsize. rewrite Hrect in Hsize. nia.
Qed.

Lemma lookup_join_rectangular {A} (ls : list (list A)) (c i k : nat) :
  Forall (fun row => length row = c) ls -> (k < c)%nat ->
  mjoin ls !! (i * c + k)%nat = ls !! i ≫= (fun row => row !! k).
Proof.
  intros Hrect Hk. revert i.
  induction Hrect as [|row ls Hrow _ IH]; intros i; [done|].
  csimpl. destruct i as [|i]; simpl.
  - rewrite lookup_app_l by lia. done.
  - rewrite lookup_app_r by lia. rewrite <- IH. f_equal. lia.
Qed.

Lemma select_filter_lookup {A} (P : string -> Prop) `{forall col, Decision (P col)}
    (cols : list string) (row : list A) (k : nat) (label : string) :
  length row = length cols -> filter P cols !! k = Some label ->
  exists j c, cols !! j = Some label /\ row !! j = Some c /\
              select ((fun col => bool_decide (P col)) <$> cols) row !! k = Some c.
Proof.
  unfold select. revert row k.
  induction cols as [|col cols IH]; intros [|c row] k Hlen Hk; try done.
  injection Hlen as Hlen. rewrite filter_cons in Hk. csimpl.
  rewrite filter_cons. cbn [fst]. destruct (decide (P col)) as [HP|HP].
  - rewrite bool_decide_true by done. rewrite decide_True by done. csimpl.
    destruct k as [|k].
    + injection Hk as <-. by exists 0%nat, c.
    + destruct (IH row k Hlen Hk) as (j & c' & ? & ? & ?). by exists (S j), c'.
  - rewrite bool_decide_false by done. rewrite decide_False by done.
    destruct (IH row k Hlen Hk) as (j & c' & ? & ? & ?). by exists (S j), c'.
Qed.

Lemma cell_lookup df label row j c :
  NoDup (columns df) -> columns df !! j = Some label -> row !! j = Some c ->
  cell df label row = c.
Proof.
  intros Hnodup Hj Hc. unfold cell.
  destruct (list_find (fun col => col = label) (columns df)) as [[j' col]|] eqn:Hfind.
  - apply list_find_Some in Hfind as (Hj' & -> & _).
    rewrite (NoDup_lookup _ _ _ _ Hnodup Hj' Hj). simpl. by rewrite Hc.
  - apply list_find_None in Hfind. rewrite Forall_forall in Hfind.
    destruct (Hfind label); [by eapply list_elem_of_lookup_2|done].
Qed.

(** Without windowing, a rectangular frame with distinct labels that has
    the four identifying columns always gives a tensor, of one row per
    row of the frame and a middle axis of length one.  It holds every
    other column of the frame, in the order of the frame, missing values
    included: the labels [failure], [predict_val] and [validate_val] stay
    among the features. *)
Theorem preprocess_dataset_flat
    (overlap windowing window_dim : Z) (df : DataFrame)
    (Hw : windowing <> 1) (Hrect : rectangular df) (Hnodup : NoDup (columns df))
    (Hident : identifying_columns ⊆ columns df) :
  let kept := filter (fun col => col ∉ identifying_columns) (columns df) in
  exists X,
    preprocess_dataset overlap windowing window_dim df = Returned X /\
    shape X = [Z.of_nat (length (rows df)); 1; Z.of_nat (length kept)] /\
    (forall i k row label,
       rows df !! i = Some row -> kept !! k = Some label ->
       get3 X (Z.of_nat i) 0 (Z.of_nat k) = Some (cell df label row)) /\
    (forall label,
       label ∈ columns df -> label ∉ identifying_columns ->
       exists k, forall i row,
         rows df !! i = Some row ->
         get3 X (Z.of_nat i) 0 (Z.of_nat k) = Some (cell df label row)).
Proof.
  intros kept. unfold preprocess_dataset.
  apply Z.eqb_neq in Hw. rewrite Hw. cbn [bind]. unfold drop.
  rewrite decide_True.
  2:{ apply elem_of_nil_inv. intros col [Hnot Hin]%list_elem_of_filter. auto. }
  cbn [bind]. unfold to_tensor. rewrite Hw.
  eexists. split; [done|].
  assert (Hc : columns (drop_columns identifying_columns df) = kept)
    by apply columns_drop_columns.
  assert (Hn : length (rows (drop_columns identifying_columns df)) = length (rows df)).
  { unfold drop_columns. cbn [rows]. by rewrite length_fmap. }
  assert (Hentries : forall i k row label,
            rows df !! i = Some row -> kept !! k = Some label ->
            get3 (expand_dims (values (drop_columns identifying_columns df)) 1)
                 (Z.of_nat i) 0 (Z.of_nat k) = Some (cell df label row)).
  { intros i k row label Hi Hk.
    unfold get3, expand_dims, values. cbn [shape data take list.drop app].
    rewrite Hn, Hc.
    pose proof (lookup_lt_Some _ _ _ Hi) as Hilt.
    pose proof (lookup_lt_Some _ _ _ Hk) as Hklt.
    rewrite decide_True by lia.
    replace (Z.to_nat ((Z.of_nat i * 1 + 0) * Z.of_nat (length kept) + Z.of_nat k))
      with (i * length kept + k)%nat by lia.
    rewrite (lookup_join_rectangular _ (length kept)); [|..|done].
    2:{ pose proof (rectangular_drop_columns identifying_columns df Hrect) as Hr.
        unfold rectangular in Hr. by rewrite Hc in Hr. }
    unfold drop_columns. cbn [rows]. rewrite list_lookup_fmap, Hi. csimpl.
    unfold rectangular in Hrect. rewrite Forall_forall in Hrect.
    destruct (select_filter_lookup (fun col => col ∉ identifying_columns)
                (columns df) row k label) as (j & c & Hj & Hcj & ->);
      [by apply Hrect, list_elem_of_lookup_2 with i|done|].
    f_equal. symmetry. by eapply cell_lookup. }
  split_and!.
  - unfold expand_dims, values. cbn [shape take list.drop app]. by rewrite Hn, Hc.
  - done.
  - intros label Hin Hnot.
    assert (Hk : label ∈ kept) by (by apply list_elem_of_filter).
    apply list_elem_of_lookup in Hk as [k Hk]. exists k. eauto.
Qed.

Lemma preprocess_dataset_missing_identifier_witness :
  exists labels,
    preprocess_dataset 2 1 4 sample_without_capacity = KeyError labels /\
    labels <> [] /\ labels ⊆ identifying_columns /\
    (1 <> 1 -> labels = filter (fun col => col ∉ columns sample_without_capacity)
                               identifying_columns).
Proof.
  apply (preprocess_dataset_missing_identifier 2 1 4 sample_without_capacity
           "capacity_bytes"); compute_done.
Defined.

Example preprocess_dataset_without_capacity :
  preprocess_dataset 2 1 4 sample_without_capacity = KeyError ["date"%string] /\
  preprocess_dataset 2 0 4 sample_without_capacity
  = KeyError ["model"; "capacity_bytes"]%string.
Proof. split; vm_compute; reflexivity. Qed.

Example preprocess_dataset_sample_frame :
  preprocess_dataset 2 1 1 sample_frame
  = Returned (mk_ndarray [2; 2; 1] [Some (Num 0); Some (Num 5); Some (Num 0); Some (Num 7)]).
Proof. vm_compute. reflexivity. Qed.

Lemma preprocess_dataset_no_missing_value_witness :
  Forall is_Some [Some (Num 0); Some (Num 5); Some (Num 0); Some (Num 7)].
Proof.
  apply (preprocess_dataset_no_missing_value 2 1 1 sample_frame
           (mk_ndarray [2; 2; 1]
              [Some (Num 0); Some (Num 5); Some (Num 0); Some (Num 7)]));
    [compute_done|reflexivity|vm_compute; reflexivity].
Defined.

Lemma preprocess_dataset_shape_witness :
  exists depth,
    data_dim 2 1 = Some depth /\
    [2; 2; 1] = [Z.of_nat (length (rows (validity_filter_rows sample_frame).1));
                 Z.quot
                   (Z.of_nat
                      (length
                         (filter (fun col => col ∉ identifying_columns)
                            (columns
                               (dropna_columns (validity_filter_rows sample_frame).1)))))
                   depth;
                 depth] /\
    ((0 < length (rows (validity_filter_rows sample_frame).1))%nat ->
     Z.of_nat
       (length
          (filter (fun col => col ∉ identifying_columns)
             (columns (dropna_columns (validity_filter_rows sample_frame).1))))
     = Z.quot
         (Z.of_nat
            (length
               (filter (fun col => col ∉ identifying_columns)
                  (columns (dropna_columns (validity_filter_rows sample_frame).1)))))
         depth * depth).
Proof.
  apply (preprocess_dataset_shape 2 1 1 sample_frame
           (mk_ndarray [2; 2; 1]
              [Some (Num 0); Some (Num 5); Some (Num 0); Some (Num 7)]));
    [compute_done|reflexivity|vm_compute; reflexivity].
Defined.

Lemma preprocess_dataset_flat_witness :
  let kept := filter (fun col => col ∉ identifying_columns) (columns sample_frame) in
  exists X,
    preprocess_dataset 2 0 1 sample_frame = Returned X /\
    shape X = [Z.of_nat (length (rows sample_frame)); 1; Z.of_nat (length kept)] /\
    (forall i k row label,
       rows sample_frame !! i = Some row -> kept !! k = Some label ->
       get3 X (Z.of_nat i) 0 (Z.of_nat k) = Some (cell sample_frame label row)) /\
    (forall label,
       label ∈ columns sample_frame -> label ∉ identifying_columns ->
       exists k, forall i row,
         rows sample_frame !! i = Some row ->
         get3 X (Z.of_nat i) 0 (Z.of_nat k) = Some (cell sample_frame label row)).
Proof.
  apply (preprocess_dataset_flat 2 0 1 sample_frame).
  - lia.
  - compute_done.
  - compute_done.
  - intros label Hlabel. unfold identifying_columns in Hlabel.
    rewrite !elem_of_cons, elem_of_nil in Hlabel.
    destruct Hlabel as [->|[->|[->|[->|[]]]]]; compute_done.
Defined.

Example preprocess_dataset_flat_sample :
  preprocess_dataset 2 0 1 sample_frame
  = Returned (mk_ndarray [3; 1; 3]
                [Some (Num 0); Some (Num 7); None;
                 Some (Num 0); Some (Num 5); Some (Num 100);
                 Some (Num 0); Some (Num 6); Some (Num 101)]).
Proof. vm_compute. reflexivity. Qed.

End PreprocessingFacts.

(** ** Networks *)

Section NetworksFacts.
Import Networks.
Local Open Scope Z_scope.

Lemma ceil_half_pos l : 1 <= l -> 1 <= ceil_half l.
Proof. unfold ceil_half. intros. Z.to_euclidean_division_equations. lia. Qed.

Lemma ceil_half_thrice x : ceil_half (ceil_half (ceil_half x)) = (x + 7) / 8.
Proof. unfold ceil_half. Z.to_euclidean_division_equations. lia. Qed.

Lemma conv_pool_shape n c l : 1 <= l -> conv_pool [n; c; l] = Some [n; c; ceil_half l].
Proof.
  intros Hl. unfold conv_pool, avg_pool1d.
  assert (Heq : (l + 2 * 1 - 3) / 2 + 1 = ceil_half l).
  { unfold ceil_half. Z.to_euclidean_division_equations. lia. }
  rewrite Heq. pose proof (ceil_half_pos l Hl).
  by ztest_true (0 <? ceil_half l).
Qed.

Lemma conv1d_shape cin cout d n c l :
  1 <= l ->
  conv1d (mkConv1d cin cout 3 d d) [n; c; l]
  = if decide (c = cin) then Some [n; cout; l] else None.
Proof.
  intros Hl. unfold conv1d. cbn [in_channels out_channels kernel_size dilation padding].
  replace (l + 2 * d - d * (3 - 1) - 1 + 1) with l by lia.
  ztest_true (0 <? l). rewrite andb_true_r.
  destruct (decide (c = cin)) as [->|Hne]; [by rewrite Z.eqb_refl|].
  by ztest_false (c =? cin).
Qed.

(** A convolution of the network followed by its normalisation: the
    length is kept. *)
Lemma conv_block cin cout d training n c l :
  1 <= l -> 1 <= n -> (training = true -> 2 <= n) ->
  sequential [conv1d (mkConv1d cin cout 3 d d); batch_norm1d cout training; relu]
             [n; c; l]
  = if decide (c = cin) then Some [n; cout; l] else None.
Proof.
  intros Hl Hn Htr. unfold sequential. cbn [foldl mbind option_bind].
  rewrite conv1d_shape by done.
  destruct (decide (c = cin)) as [->|Hne]; [|done].
  cbn [mbind option_bind]. unfold batch_norm1d. rewrite Z.eqb_refl.
  assert (training && (n * l =? 1) = false) as ->; [|done].
  destruct training; [|done]. simpl. apply Z.eqb_neq. specialize (Htr eq_refl). nia.
Qed.

(** A convolution followed by the pooling and the normalisation: the
    length is halved, rounding up. *)
Lemma conv_pool_block cin cout d training n c l :
  1 <= l -> 1 <= n -> (training = true -> 2 <= n) ->
  sequential [conv1d (mkConv1d cin cout 3 d d); conv_pool;
              batch_norm1d cout training; relu] [n; c; l]
  = if decide (c = cin) then Some [n; cout; ceil_half l] else None.
Proof.
  intros Hl Hn Htr. unfold sequential. cbn [foldl mbind option_bind].
  rewrite conv1d_shape by done.
  destruct (decide (c = cin)) as [->|Hne]; [|done].
  cbn [mbind option_bind]. rewrite conv_pool_shape by done.
  cbn [mbind option_bind]. unfold batch_norm1d. rewrite Z.eqb_refl.
  pose proof (ceil_half_pos l Hl).
  assert (training && (n * ceil_half l =? 1) = false) as ->; [|done].
  destruct training; [|done]. simpl. apply Z.eqb_neq. specialize (Htr eq_refl). nia.
Qed.

Lemma linear_block fin fout training n d :
  1 <= n -> (training = true -> 2 <= n) ->
  sequential [linear (mkLinear fin fout); batch_norm1d fout training; relu; dropout]
             [n; d]
  = if decide (d = fin) then Some [n; fout] else None.
Proof.
  intros Hn Htr. unfold sequential. cbn [foldl mbind option_bind].
  unfold linear. cbn [last in_features out_features].
  destruct (decide (d = fin)) as [->|Hne]; [|by ztest_false (d =? fin)].
  rewrite Z.eqb_refl. cbn [mbind option_bind length take app Nat.sub].
  unfold batch_norm1d. rewrite Z.eqb_refl.
  assert (training && (n =? 1) = false) as ->; [|done].
  destruct training; [|done]. simpl. apply Z.eqb_neq. specialize (Htr eq_refl). lia.
Qed.

(** A network built for windows of [history_signal] steps and [num_inputs]
    channels maps a batch of [n] windows to [n] pairs of scores, in
    evaluation mode and, for two samples or more, in training mode.  It
    takes exactly the batches that have [num_inputs] channels and a length
    with the same quotient by 8, rounded up, as [history_signal]: the size
    of the first fully connected layer is the only trace of the window
    length in the network. *)
Theorem forward_accepts (history_signal num_inputs n c l : Z) (training : bool)
    (Hh : 1 <= history_signal) (Hl : 1 <= l) (Hn : 1 <= n)
    (Htr : training = true -> 2 <= n) :
  forward (TCN_Network_init history_signal num_inputs) training [n; c; l]
  = if decide (c = num_inputs /\ (l + 7) / 8 = (history_signal + 7) / 8)
    then Some [n; 2] else None.
Proof.
  unfold forward, TCN_Network_init.
  cbn [b0_tcn0 b0_tcn0_BN b0_tcn1 b0_tcn1_BN b1_tcn0 b1_tcn0_BN b1_tcn1 b1_tcn1_BN
       b2_tcn0 b2_tcn0_BN b2_tcn1 b2_tcn1_BN FC0 FC0_BN FC1 FC1_BN GwayFC].
  pose proof (ceil_half_pos l Hl) as H1.
  pose proof (ceil_half_pos _ H1) as H2.
  pose proof (ceil_half_pos _ H2) as H3.
  rewrite conv_block by done.
  destruct (decide (c = num_inputs)) as [->|Hc].
  2:{ rewrite decide_False by tauto. done. }
  cbn [mbind option_bind].
  rewrite conv_pool_block, decide_True by done. cbn [mbind option_bind].
  rewrite conv_block, decide_True by done. cbn [mbind option_bind].
  rewrite conv_pool_block, decide_True by done. cbn [mbind option_bind].
  rewrite conv_block, decide_True by done. cbn [mbind option_bind].
  rewrite conv_pool_block, decide_True by done. cbn [mbind option_bind].
  cbn [flatten foldr mbind option_bind].
  rewrite linear_block by done. unfold dim_fc.
  rewrite !ceil_half_thrice.
  destruct (decide ((l + 7) / 8 = (history_signal + 7) / 8)) as [Heq|Hne].
  - rewrite decide_True by lia. rewrite decide_True by done. cbn [mbind option_bind].
    rewrite linear_block, decide_True by done. cbn [mbind option_bind].
    unfold linear. cbn [last in_features out_features]. rewrite Z.eqb_refl. done.
  - rewrite decide_False by lia. rewrite decide_False by tauto. done.
Qed.

Lemma forward_accepts_witness :
  forward (TCN_Network_init 5 11) true [256; 11; 8]
  = if decide (11 = 11 /\ (8 + 7) / 8 = (5 + 7) / 8) then Some [256; 2] else None.
Proof. apply (forward_accepts 5 11 256 11 8 true); lia. Defined.

Example forward_window_5 :
  forward (TCN_Network_init 5 11) false [3; 11; 5] = Some [3; 2] /\
  forward (TCN_Network_init 5 11) false [3; 11; 8] = Some [3; 2] /\
  forward (TCN_Network_init 5 11) false [3; 11; 9] = None /\
  forward (TCN_Network_init 5 11) false [3; 12; 5] = None.
Proof. repeat split; vm_compute; reflexivity. Qed.

Lemma conv1d_head layer n c l y :
  conv1d layer [n; c; l] = Some y -> exists c' l', y = [n; c'; l'].
Proof. unfold conv1d. destruct (_ && _); [|done]. intros [= <-]. eauto. Qed.

Lemma avg_pool1d_head k s p n c l y :
  avg_pool1d k s p [n; c; l] = Some y -> exists c' l', y = [n; c'; l'].
Proof. unfold avg_pool1d. destruct (_ <? _); [|done]. intros [= <-]. eauto. Qed.

Lemma batch_norm1d_id num_features training x y :
  batch_norm1d num_features training x = Some y -> y = x.
Proof.
  unfold batch_norm1d. destruct x as [|n [|c [|l [|? ?]]]]; try done.
  - destruct (_ && _); [|done]. by intros [= <-].
  - destruct (_ && _); [|done]. by intros [= <-].
Qed.

Lemma conv_block_head layer num_features training n c l y :
  sequential [conv1d layer; batch_norm1d num_features training; relu] [n; c; l] = Some y ->
  exists c' l', y = [n; c'; l'].
Proof.
  unfold sequential. cbn [foldl mbind option_bind].
  destruct (conv1d layer [n; c; l]) as [x1|] eqn:H1; [|done].
  apply conv1d_head in H1 as (c1 & l1 & ->). cbn [mbind option_bind].
  destruct (batch_norm1d _ _ _) as [x2|] eqn:H2; [|done].
  apply batch_norm1d_id in H2 as ->. cbn [mbind option_bind]. unfold relu.
  intros [= <-]. eauto.
Qed.

Lemma conv_pool_block_head layer num_features training n c l y :
  sequential [conv1d layer; conv_pool; batch_norm1d num_features training; relu]
             [n; c; l] = Some y ->
  exists c' l', y = [n; c'; l'].
Proof.
  unfold sequential. cbn [foldl mbind option_bind].
  destruct (conv1d layer [n; c; l]) as [x1|] eqn:H1; [|done].
  apply conv1d_head in H1 as (c1 & l1 & ->). cbn [mbind option_bind].
  destruct (conv_pool _) as [x2|] eqn:H2; [|done].
  apply avg_pool1d_head in H2 as (c2 & l2 & ->). cbn [mbind option_bind].
  destruct (batch_norm1d _ _ _) as [x3|] eqn:H3; [|done].
  apply batch_norm1d_id in H3 as ->. cbn [mbind option_bind]. unfold relu.
  intros [= <-]. eauto.
Qed.

Lemma linear_block_single layer num_features d :
  sequential [linear layer; batch_norm1d num_features true; relu; dropout] [1; d] = None.
Proof.
  unfold sequential. cbn [foldl mbind option_bind].
  unfold linear. cbn [last]. destruct (d =? in_features layer); [|done].
  cbn [mbind option_bind length take app Nat.sub]. unfold batch_norm1d.
  by rewrite andb_false_r.
Qed.

(** In training mode a batch of one sample is refused, whatever the
    network was built for and whatever the window: at the latest the
    normalisation after the first fully connected layer has a single value
    per channel. *)
Lemma forward_single_sample (net : TCN_Network) (c l : Z) :
  forward net true [1; c; l] = None.
Proof.
  unfold forward.
  destruct (sequential _ [1; c; l]) as [x|] eqn:H; [|done].
  apply conv_block_head in H as (c1 & l1 & ->). cbn [mbind option_bind].
  destruct (sequential _ [1; c1; l1]) as [x|] eqn:H; [|done].
  apply conv_pool_block_head in H as (c2 & l2 & ->). cbn [mbind option_bind].
  destruct (sequential _ [1; c2; l2]) as [x|] eqn:H; [|done].
  apply conv_block_head in H as (c3 & l3 & ->). cbn [mbind option_bind].
  destruct (sequential _ [1; c3; l3]) as [x|] eqn:H; [|done].
  apply conv_pool_block_head in H as (c4 & l4 & ->). cbn [mbind option_bind].
  destruct (sequential _ [1; c4; l4]) as [x|] eqn:H; [|done].
  apply conv_block_head in H as (c5 & l5 & ->). cbn [mbind option_bind].
  destruct (sequential _ [1; c5; l5]) as [x|] eqn:H; [|done].
  apply conv_pool_block_head in H as (c6 & l6 & ->). cbn [mbind option_bind flatten].
  by rewrite linear_block_single.
Qed.

Lemma omap_lookup_consecutive {T} (X : list T) (a k : nat) :
  (a + k <= length X)%nat ->
  omap (fun p => X !! Z.to_nat p) ((fun j => Z.of_nat a + j * 1) <$> seqZ 0 (Z.of_nat k))
  = take k (drop a X).
Proof.
  induction k as [|k IH]; intros Hk; [done|].
  rewrite seqZ_S, fmap_app, omap_app, IH by lia. csimpl.
  replace (Z.to_nat (Z.of_nat a + (0 + Z.of_nat k) * 1)) with (a + k)%nat by lia.
  destruct (lookup_lt_is_Some_2 X (a + k)%nat) as [x Hx]; [lia|].
  rewrite Hx. csimpl.
  rewrite (take_S_r _ _ x); [done|]. by rewrite lookup_drop.
Qed.

Lemma omap_lookup_consecutive_Z {T} (X : list T) (a k : Z) :
  0 <= a -> 0 <= k -> a + k <= Z.of_nat (length X) ->
  omap (fun p => X !! Z.to_nat p) ((fun j => a + j * 1) <$> seqZ 0 k)
  = take (Z.to_nat k) (drop (Z.to_nat a) X).
Proof.
  intros Ha Hk Hlen.
  assert (a = Z.of_nat (Z.to_nat a)) as -> by lia.
  assert (k = Z.of_nat (Z.to_nat k)) as -> by lia.
  rewrite !Nat2Z.id. apply omap_lookup_consecutive. lia.
Qed.

(** A slice with bounds that are not negative is a [take] of a [drop]. *)
Lemma rows_slice_take_drop {T} (X : list T) (start stop : Z) :
  0 <= start <= stop ->
  rows_slice X start stop = take (Z.to_nat (stop - start)) (drop (Z.to_nat start) X).
Proof.
  intros Hb. unfold rows_slice, UnderSampler.slice_positions, UnderSampler.adjust.
  set (len := Z.of_nat (length X)).
  ztest_false (start <? 0). ztest_false (stop <? 0).
  destruct (len <=? start) eqn:Hs; [apply Z.leb_le in Hs|apply Z.leb_gt in Hs].
  - ztest_true (len <=? stop). ztest_false (len <? len).
    rewrite drop_ge by lia. by rewrite take_nil.
  - destruct (len <=? stop) eqn:Ht; [apply Z.leb_le in Ht|apply Z.leb_gt in Ht].
    + ztest_true (start <? len).
      replace ((len - start - 1) / 1 + 1) with (len - start)
        by (rewrite Z.div_1_r; lia).
      rewrite omap_lookup_consecutive_Z by lia.
      rewrite !take_ge; [done|rewrite length_drop; lia..].
    + destruct (start <? stop) eqn:Hlt; [apply Z.ltb_lt in Hlt|apply Z.ltb_ge in Hlt].
      * replace ((stop - start - 1) / 1 + 1) with (stop - start)
          by (rewrite Z.div_1_r; lia).
        by rewrite omap_lookup_consecutive_Z by lia.
      * replace (stop - start) with 0 by lia. done.
Qed.

Lemma join_chunks {T} (X : list T) (size m : nat) :
  (length X <= m * size)%nat ->
  mjoin ((fun i => take size (drop (i * size) X)) <$> seq 0 m) = X.
Proof.
  revert X. induction m as [|m IH]; intros X Hlen.
  - destruct X; [done|simpl in Hlen; lia].
  - csimpl. rewrite <- fmap_S_seq, <- list_fmap_compose.
    transitivity (take size X ++ drop size X); [|apply take_drop]. f_equal.
    etrans; [|apply (IH (drop size X)); rewrite length_drop; lia].
    f_equal. apply list_fmap_ext. intros _ i _. cbn [compose].
    rewrite drop_drop. repeat f_equal; lia.
Qed.

Lemma batches_chunks {T} (X : list T) (batch_size : Z) :
  0 < batch_size ->
  batches X batch_size
  = Some ((fun i => take (Z.to_nat batch_size) (drop (i * Z.to_nat batch_size) X))
            <$> seq 0 (S (length X / Z.to_nat batch_size))).
Proof.
  intros HB. unfold batches. ztest_false (batch_size =? 0). f_equal.
  unfold seqZ. rewrite <- list_fmap_compose.
  replace (Z.to_nat (Z.of_nat (length X) / batch_size + 1))
    with (S (length X / Z.to_nat batch_size)).
  2:{ rewrite <- (Z2Nat.id batch_size) at 2 by lia.
      rewrite <- Nat2Z.inj_div. lia. }
  apply list_fmap_ext. intros _ i _. cbn [compose].
  rewrite rows_slice_take_drop by nia. f_equal; [lia|]. f_equal. nia.
Qed.

(** The batches of an epoch, for a positive [batch_size]: together they
    are the samples, each once and in order; there is one batch more than
    the quotient of the number of samples by [batch_size]; every batch but
    the last is full, and the last holds the remainder, so that it is
    empty when [batch_size] divides the number of samples. *)
Theorem batches_partition {T} (X : list T) (batch_size : Z) (HB : 0 < batch_size) :
  exists bs last_batch,
    batches X batch_size = Some (bs ++ [last_batch]) /\
    mjoin (bs ++ [last_batch]) = X /\
    Z.of_nat (length bs) = Z.of_nat (length X) / batch_size /\
    Forall (fun data => Z.of_nat (length data) = batch_size) bs /\
    Z.of_nat (length last_batch) = Z.of_nat (length X) mod batch_size.
Proof.
  set (size := Z.to_nat batch_size).
  set (chunk := fun i => take size (drop (i * size) X)).
  exists (chunk <$> seq 0 (length X / size)), (chunk (length X / size)%nat).
  assert (Hsize : (0 < size)%nat) by (unfold size; lia).
  pose proof (Nat.div_mod_eq (length X) size) as Hdiv.
  pose proof (Nat.mod_upper_bound (length X) size) as Hmod.
  assert (Hq : Z.of_nat (length X / size) = Z.of_nat (length X) / batch_size).
  { rewrite Nat2Z.inj_div. unfold size. by rewrite Z2Nat.id by lia. }
  assert (Hr : Z.of_nat (length X mod size) = Z.of_nat (length X) mod batch_size).
  { rewrite Nat2Z.inj_mod. unfold size. by rewrite Z2Nat.id by lia. }
  assert (Hall : chunk <$> seq 0 (S (length X / size))
                 = (chunk <$> seq 0 (length X / size)) ++ [chunk (length X / size)%nat]).
  { by rewrite seq_S, fmap_app. }
  split_and!.
  - rewrite batches_chunks by done. by rewrite <- Hall.
  - rewrite <- Hall. apply join_chunks. nia.
  - by rewrite length_fmap, length_seq.
  - apply Forall_fmap, Forall_forall. intros i [_ Hi]%elem_of_seq. cbn [compose].
    unfold chunk. rewrite length_take, length_drop. nia.
  - unfold chunk. rewrite length_take, length_drop. rewrite <- Hr. nia.
Qed.

(** When the number of training samples leaves the remainder 1 by
    [batch_size], the last batch of the epoch has a single sample and
    [train] raises on it: the network is in training mode, and its
    normalisation layers refuse a single value per channel. *)
Theorem train_forward_single_remainder {T} (net : TCN_Network) (Xtrain : list T)
    (num_inputs history_signal batch_size : Z)
    (HB : 0 < batch_size) (Hrem : Z.of_nat (length Xtrain) mod batch_size = 1) :
  train_forward net Xtrain num_inputs history_signal batch_size = None.
Proof.
  unfold train_forward.
  destruct (batches_partition Xtrain batch_size HB)
    as (bs & last_batch & -> & _ & _ & _ & Hlast).
  cbn [mbind option_bind].
  destruct (mapM _ _) as [ys|] eqn:Hmap; [exfalso|done].
  assert (Hsome : is_Some (mapM (fun data : list T =>
            forward net true [Z.of_nat (length data); num_inputs; history_signal])
            (bs ++ [last_batch]))) by (by rewrite Hmap).
  apply mapM_is_Some in Hsome. rewrite Forall_app, Forall_singleton in Hsome.
  destruct Hsome as [_ Hsome]. cbn [compose] in Hsome.
  rewrite Hlast, Hrem, forward_single_sample in Hsome. by destruct Hsome.
Qed.

Lemma batches_partition_witness :
  exists bs last_batch,
    batches [10; 11; 12; 13; 14; 15; 16] 3 = Some (bs ++ [last_batch]) /\
    mjoin (bs ++ [last_batch]) = [10; 11; 12; 13; 14; 15; 16] /\
    Z.of_nat (length bs) = Z.of_nat (length [10; 11; 12; 13; 14; 15; 16]) / 3 /\
    Forall (fun data => Z.of_nat (length data) = 3) bs /\
    Z.of_nat (length last_batch) = Z.of_nat (length [10; 11; 12; 13; 14; 15; 16]) mod 3.
Proof. apply (batches_partition [10; 11; 12; 13; 14; 15; 16] 3). lia. Defined.

Example batches_examples :
  batches [10; 11; 12; 13; 14; 15; 16] 3 = Some [[10; 11; 12]; [13; 14; 15]; [16]] /\
  batches [10; 11; 12; 13; 14; 15] 3 = Some [[10; 11; 12]; [13; 14; 15]; []] /\
  batches [10; 11; 12] 0 = None /\
  batches [10; 11; 12] (-2) = Some [].
Proof. repeat split; vm_compute; reflexivity. Qed.

Lemma train_forward_single_remainder_witness :
  train_forward (TCN_Network_init 5 11) [10; 11; 12; 13; 14; 15; 16] 11 5 3 = None.
Proof.
  apply (train_forward_single_remainder (TCN_Network_init 5 11));
    [lia|reflexivity].
Defined.

Example train_forward_examples :
  train_forward (TCN_Network_init 5 11) [10; 11; 12; 13; 14; 15; 16; 17] 11 5 3
  = Some [[3; 2]; [3; 2]; [2; 2]] /\
  train_forward (TCN_Network_init 5 11) [10; 11; 12; 13; 14; 15; 16] 11 5 3 = None.
Proof. split; vm_compute; reflexivity. Qed.

End NetworksFacts.

(** ** Classification *)

Section ClassificationFacts.
Import Networks Classification.
Local Open Scope Z_scope.
Context {Sample Estimator Path : Type}.
Context (shuffle : list Sample -> list Sample).
Context (search : list Sample -> option Estimator).
Context (fit : Estimator -> list Sample -> option Estimator).
Context (report_and_dump : Estimator -> option Path).

Lemma fit_batches_chunks (X_train : list Sample) (n_iterations : Z) :
  0 < n_iterations -> n_iterations <= Z.of_nat (length X_train) ->
  let batch_size := Z.to_nat (Z.of_nat (length X_train) / n_iterations) in
  (0 < batch_size)%nat /\
  fit_batches X_train n_iterations
  = Some ((fun i => take batch_size (drop (i * batch_size) X_train))
            <$> seq 0 ((length X_train + batch_size - 1) / batch_size)).
Proof.
  intros Hn Hlen batch_size.
  assert (Hb : 1 <= Z.of_nat (length X_train) / n_iterations).
  { apply Z.div_le_lower_bound; lia. }
  split; [unfold batch_size; lia|].
  unfold fit_batches. ztest_false (n_iterations =? 0).
  ztest_false (Z.of_nat (length X_train) / n_iterations =? 0). f_equal.
  unfold range. ztest_true (0 <? Z.of_nat (length X_train) / n_iterations).
  unfold seqZ. rewrite <- !list_fmap_compose.
  replace (Z.to_nat ((Z.of_nat (length X_train) - 0
                      + Z.of_nat (length X_train) / n_iterations - 1)
                     / (Z.of_nat (length X_train) / n_iterations)))
    with ((length X_train + batch_size - 1) / batch_size)%nat.
  2:{ apply Nat2Z.inj. rewrite Nat2Z.inj_div, Z2Nat.id.
      - f_equal; unfold batch_size; lia.
      - apply Z.div_pos; lia. }
  apply list_fmap_ext. intros _ i _. cbn [compose].
  rewrite rows_slice_take_drop by nia. f_equal; [unfold batch_size; lia|].
  f_equal. unfold batch_size. nia.
Qed.

(** With at least [n_iterations] training rows, the loop fits the
    estimator on consecutive batches that together are the training set,
    none of them empty.  It makes [n_iterations] calls exactly when
    [n_iterations] divides the number of rows, and more otherwise, though
    fewer than twice as many. *)
Theorem fit_batches_partition (X_train : list Sample) (n_iterations : Z)
    (Hn : 0 < n_iterations) (Hlen : n_iterations <= Z.of_nat (length X_train)) :
  exists bs,
    fit_batches X_train n_iterations = Some bs /\
    mjoin bs = X_train /\
    Forall (fun b => b <> []) bs /\
    n_iterations <= Z.of_nat (length bs) < 2 * n_iterations /\
    (Z.of_nat (length bs) = n_iterations <->
     Z.of_nat (length X_train) mod n_iterations = 0).
Proof.
  destruct (fit_batches_chunks X_train n_iterations Hn Hlen) as [Hb Heq].
  set (batch_size := Z.to_nat (Z.of_nat (length X_train) / n_iterations)) in *.
  set (m := ((length X_train + batch_size - 1) / batch_size)%nat) in *.
  assert (Hbz : Z.of_nat batch_size = Z.of_nat (length X_train) / n_iterations).
  { unfold batch_size. rewrite Z2Nat.id; [done|]. apply Z.div_pos; lia. }
  assert (Hmz : Z.of_nat m = (Z.of_nat (length X_train) + Z.of_nat batch_size - 1)
                             / Z.of_nat batch_size).
  { unfold m. rewrite Nat2Z.inj_div. f_equal. lia. }
  pose proof (Z.div_mod (Z.of_nat (length X_train)) n_iterations ltac:(lia)) as Hdiv.
  pose proof (Z.mod_pos_bound (Z.of_nat (length X_train)) n_iterations Hn) as Hmod.
  rewrite <- Hbz in Hdiv.
  set (r := Z.of_nat (length X_train) mod n_iterations) in *.
  assert (Hlow : (Z.of_nat m - 1) * Z.of_nat batch_size < Z.of_nat (length X_train)
                 <= Z.of_nat m * Z.of_nat batch_size).
  { rewrite Hmz. clear -Hb. Z.to_euclidean_division_equations. nia. }
  eexists. split; [done|]. split_and!.
  - apply join_chunks. nia.
  - apply Forall_fmap, Forall_forall. intros i [_ Hi]%elem_of_seq. cbn [compose].
    intros Hnil. apply (f_equal length) in Hnil.
    rewrite length_take, length_drop in Hnil. simpl in Hnil. nia.
  - rewrite length_fmap, length_seq. nia.
  - rewrite length_fmap, length_seq. nia.
  - rewrite length_fmap, length_seq. split; intros; nia.
Qed.

(** With fewer training rows than [n_iterations], [train_and_evaluate_model]
    returns no model: after the search has run and saved its parameters,
    the batch size is zero and [range] raises.  [classification] passes
    100 for [n_iterations]. *)
Theorem train_and_evaluate_model_small_set (X_train : list Sample) (n_iterations : Z)
    (Hshuffle : forall l, shuffle l ≡ₚ l)
    (Hn : 0 < n_iterations) (Hlen : Z.of_nat (length X_train) < n_iterations) :
  train_and_evaluate_model shuffle search fit report_and_dump X_train n_iterations
  = None.
Proof.
  unfold train_and_evaluate_model. destruct (search _); [|done]. cbn [mbind option_bind].
  unfold fit_batches. ztest_false (n_iterations =? 0).
  rewrite (Permutation_length (Hshuffle X_train)).
  rewrite Z.div_small by lia. done.
Qed.

End ClassificationFacts.

Section ClassificationExamples.
Import Networks Classification.
Local Open Scope Z_scope.

Lemma fit_batches_partition_witness :
  exists bs,
    fit_batches [1; 2; 3; 4; 5; 6; 7] 3 = Some bs /\
    mjoin bs = [1; 2; 3; 4; 5; 6; 7] /\
    Forall (fun b => b <> []) bs /\
    3 <= Z.of_nat (length bs) < 2 * 3 /\
    (Z.of_nat (length bs) = 3 <-> Z.of_nat (length [1; 2; 3; 4; 5; 6; 7]) mod 3 = 0).
Proof. apply (fit_batches_partition [1; 2; 3; 4; 5; 6; 7] 3); simpl; lia. Defined.

Example fit_batches_examples :
  fit_batches [1; 2; 3; 4; 5; 6; 7] 3 = Some [[1; 2]; [3; 4]; [5; 6]; [7]] /\
  fit_batches [1; 2; 3; 4; 5; 6] 3 = Some [[1; 2]; [3; 4]; [5; 6]] /\
  fit_batches [1; 2] 3 = None /\
  fit_batches [1; 2] 0 = None.
Proof. repeat split; vm_compute; reflexivity. Qed.

Lemma train_and_evaluate_model_small_set_witness :
  train_and_evaluate_model (@reverse Z) (fun X => Some X) (fun est b => Some (est ++ b))
                           (fun est => Some est) [1; 2] 3
  = None.
Proof.
  apply (train_and_evaluate_model_small_set (@reverse Z)).
  - apply reverse_Permutation.
  - lia.
  - simpl. lia.
Defined.

Example train_and_evaluate_model_seven :
  train_and_evaluate_model (@reverse Z) (fun X => Some []) (fun est b => Some (est ++ [b]))
                           (fun est => Some est) [1; 2; 3; 4; 5; 6; 7] 3
  = Some [[7; 6]; [5; 4]; [3; 2]; [1]].
Proof. vm_compute. reflexivity. Qed.

End ClassificationExamples.

(** ** LSTMTrainer *)

Section LSTMTrainerFacts.
Import Networks LSTMTrainer.
Local Open Scope Z_scope.
Context {T : Type}.

Lemma slice_assign_exact (arr vals : list T) (a b : nat) :
  (a <= b <= length arr)%nat -> length vals = (b - a)%nat ->
  slice_assign arr (Z.of_nat a) (Z.of_nat b) vals
  = Some (take a arr ++ vals ++ drop b arr).
Proof.
  intros Hab Hlen. unfold slice_assign, UnderSampler.adjust.
  ztest_false (Z.of_nat a <? 0). ztest_false (Z.of_nat b <? 0).
  destruct (Z.of_nat (length arr) <=? Z.of_nat a) eqn:Ha;
    [apply Z.leb_le in Ha|apply Z.leb_gt in Ha];
  (destruct (Z.of_nat (length arr) <=? Z.of_nat b) eqn:Hb;
    [apply Z.leb_le in Hb|apply Z.leb_gt in Hb]); try lia.
  - rewrite decide_True by lia. do 3 f_equal; [f_equal; lia|]. f_equal. lia.
  - rewrite decide_True by lia. do 3 f_equal; [f_equal; lia|]. f_equal. lia.
  - rewrite decide_True by lia. do 3 f_equal; [f_equal; lia|]. f_equal. lia.
Qed.

Lemma imap_seq_0_diag {A} (f : nat -> nat -> A) (m : nat) :
  imap f (seq 0 m) = (fun i => f i i) <$> seq 0 m.
Proof.
  apply list_eq. intros i. rewrite list_lookup_imap, list_lookup_fmap.
  destruct (decide (i < m)%nat) as [Hi|Hi].
  - by rewrite lookup_seq_lt by done.
  - by rewrite lookup_seq_ge by lia.
Qed.

Section Epoch.
Context (zero : T) (dataset : list T) (batch_size : Z) (HB : 0 < batch_size).

Let size : nat := Z.to_nat batch_size.
Let chunk (i : nat) : list T := take size (drop (i * size) dataset).
Let step (st : option (list T * option (Z * Z))) (p : nat * list T) :=
  st ≫= fun st => record_batch st (Z.of_nat p.1) p.2.

Lemma loader_batches_chunks :
  loader_batches dataset batch_size
  = Some (chunk <$> seq 0 ((length dataset + size - 1) / size)).
Proof.
  unfold loader_batches. ztest_false (batch_size <=? 0). f_equal.
  unfold seqZ. rewrite <- list_fmap_compose.
  replace (Z.to_nat ((Z.of_nat (length dataset) + batch_size - 1) / batch_size))
    with ((length dataset + size - 1) / size)%nat.
  2:{ apply Nat2Z.inj. rewrite Nat2Z.inj_div, Z2Nat.id.
      - f_equal; unfold size; lia.
      - apply Z.div_pos; lia. }
  apply list_fmap_ext. intros _ i _. cbn [compose].
  rewrite rows_slice_take_drop by nia. unfold chunk. f_equal; [unfold size; lia|].
  f_equal. unfold size. nia.
Qed.

(** After [k] full batches the array holds the first [k * batch_size]
    samples and is zero behind them. *)
Lemma record_full_batches (k : nat) :
  (k * size <= length dataset)%nat ->
  foldl step (Some (replicate (length dataset) zero, None))
        ((fun i => (i, chunk i)) <$> seq 0 k)
  = Some (take (k * size) dataset ++ replicate (length dataset - k * size) zero,
          match k with
          | O => None
          | S k' => Some (Z.of_nat k', Z.of_nat size)
          end).
Proof.
  induction k as [|k IH]; intros Hk.
  - simpl. by rewrite Nat.sub_0_r.
  - rewrite seq_S, fmap_app, foldl_app, IH by lia. simpl.
    unfold record_batch. cbn [fst snd].
    assert (Hchunk : length (chunk k) = size).
    { unfold chunk. rewrite length_take, length_drop. lia. }
    rewrite Hchunk.
    replace (Z.of_nat k * Z.of_nat size) with (Z.of_nat (k * size)) by lia.
    replace ((Z.of_nat k + 1) * Z.of_nat size) with (Z.of_nat (S k * size)) by lia.
    rewrite slice_assign_exact.
    2:{ rewrite length_app, length_take, length_replicate. lia. }
    2:{ rewrite Hchunk. lia. }
    cbn [mbind option_bind]. do 2 f_equal.
    rewrite take_app_le by (rewrite length_take; lia).
    rewrite take_take, Nat.min_l by lia.
    rewrite drop_app_ge by (rewrite length_take; lia).
    rewrite length_take, drop_replicate.
    rewrite (Nat.add_comm size), <- (take_take_drop dataset (k * size) size).
    rewrite <- (assoc_L (++)). fold (chunk k). do 2 f_equal. f_equal. lia.
Qed.

Lemma train_records_chunks :
  train_records zero dataset batch_size
  = st ← foldl step (Some (replicate (length dataset) zero, None))
               ((fun i => (i, chunk i)) <$> seq 0 ((length dataset + size - 1) / size));
    '(batch_idx, batchsize) ← st.2;
    Some (rows_slice st.1 0 ((batch_idx + 1) * batchsize)).
Proof.
  unfold train_records. rewrite loader_batches_chunks. cbn [mbind option_bind].
  by rewrite imap_fmap, imap_seq_0_diag.
Qed.

Lemma train_records_nat :
  let q := (length dataset / size)%nat in
  let r := (length dataset mod size)%nat in
  train_records zero dataset batch_size
  = if decide (dataset = []) then None
    else Some (if decide (r = 0%nat) then dataset
               else take (q * r) dataset ++ drop (q * size) dataset).
Proof.
  intros q r. rewrite train_records_chunks.
  assert (Hsize : (0 < size)%nat) by (unfold size; lia).
  pose proof (Nat.div_mod_eq (length dataset) size) as Hdiv.
  pose proof (Nat.mod_upper_bound (length dataset) size ltac:(lia)) as Hmod.
  fold q r in Hdiv, Hmod. clearbody q r.
  destruct (decide (r = 0%nat)) as [Hr|Hr].
  - assert ((length dataset + size - 1) / size = q)%nat as ->.
    { symmetry. apply (Nat.div_unique _ _ _ (size - 1)); lia. }
    rewrite record_full_batches by lia. cbn [mbind option_bind fst snd].
    destruct (decide (dataset = [])) as [Hnil|Hne].
    { rewrite Hnil in Hdiv. simpl in Hdiv. by assert (q = 0%nat) as -> by nia. }
    assert (q <> 0%nat).
    { intros Hq. apply Hne, length_zero_iff_nil. nia. }
    destruct q as [|q']; [done|]. cbn [mbind option_bind]. f_equal.
    rewrite rows_slice_take_drop by lia.
    replace (length dataset - S q' * size)%nat with 0%nat by lia.
    by rewrite app_nil_r, drop_0, take_take, take_ge by lia.
  - rewrite decide_False by (intros Hnil; rewrite Hnil in Hdiv; simpl in Hdiv; lia).
    assert ((length dataset + size - 1) / size = S q)%nat as ->.
    { symmetry. apply (Nat.div_unique _ _ _ (r - 1)); lia. }
    rewrite seq_S, fmap_app, foldl_app, record_full_batches by lia.
    assert (Hchunk : chunk q = drop (q * size) dataset).
    { unfold chunk. apply take_ge. rewrite length_drop. lia. }
    assert (Hlen : length (chunk q) = r).
    { rewrite Hchunk, length_drop. lia. }
    simpl. unfold record_batch. cbn [fst snd]. rewrite Hlen.
    replace (Z.of_nat q * Z.of_nat r) with (Z.of_nat (q * r)) by lia.
    replace ((Z.of_nat q + 1) * Z.of_nat r) with (Z.of_nat (S q * r)) by lia.
    rewrite slice_assign_exact.
    2:{ rewrite length_app, length_take, length_replicate. nia. }
    2:{ rewrite Hlen. lia. }
    cbn [mbind option_bind fst snd]. f_equal.
    rewrite rows_slice_take_drop by lia.
    replace (Z.to_nat ((Z.of_nat q + 1) * Z.of_nat r - 0)) with (S q * r)%nat by lia.
    change (Z.to_nat 0) with 0%nat. rewrite drop_0.
    rewrite (take_app_le (take (q * size) dataset)) by (rewrite length_take; nia).
    rewrite take_take, Nat.min_l by nia.
    rewrite (assoc_L (++)), take_app_length'.
    2:{ rewrite length_app, length_take, Hlen. nia. }
    by rewrite Hchunk.
Qed.

End Epoch.

(** The metrics of an epoch of [LSTMTrainer.train] are computed from every
    sample only when [batch_size] divides the number of samples or exceeds
    it.  Otherwise the shorter last batch is written at a position that
    its own length gives, over rows of earlier batches, and the arrays
    are cut behind it: of [n] samples drawn in the order of [dataset],
    with quotient [q] and remainder [r] by [batch_size], the metrics see
    the first [q * r] and the last [r].  On an empty training set the
    variables of the loop are unbound and [train] raises. *)
Theorem train_records_rows (zero : T) (dataset : list T) (batch_size : Z)
    (HB : 0 < batch_size) :
  let n := Z.of_nat (length dataset) in
  let q := n / batch_size in
  let r := n mod batch_size in
  (dataset = [] -> train_records zero dataset batch_size = None) /\
  (dataset <> [] ->
   exists rows,
     train_records zero dataset batch_size = Some rows /\
     rows = (if decide (r = 0) then dataset
             else take (Z.to_nat (q * r)) dataset
                    ++ drop (Z.to_nat (q * batch_size)) dataset) /\
     Z.of_nat (length rows) = (if decide (r = 0) then n else (q + 1) * r) /\
     (rows = dataset <-> r = 0 \/ q = 0)).
Proof.
  intros n q r. rewrite train_records_nat by done.
  set (size := Z.to_nat batch_size).
  assert (Hsize : (0 < size)%nat) by (unfold size; lia).
  pose proof (Nat.div_mod_eq (length dataset) size) as Hdiv.
  pose proof (Nat.mod_upper_bound (length dataset) size ltac:(lia)) as Hmod.
  assert (Hq : q = Z.of_nat (length dataset / size)).
  { unfold q, n, size. rewrite Nat2Z.inj_div, Z2Nat.id by lia. done. }
  assert (Hr : r = Z.of_nat (length dataset mod size)).
  { unfold r, n, size. rewrite Nat2Z.inj_mod, Z2Nat.id by lia. done. }
  split; [by intros ->|]. intros Hne. rewrite decide_False by done.
  eexists. split; [done|].
  destruct (decide (length dataset mod size = 0)%nat) as [Hz|Hnz].
  - rewrite !decide_True by lia. split_and!; [done..|]. split; [|done].
    intros _. left. lia.
  - rewrite !decide_False by lia.
    assert (Hrows : take (length dataset / size * (length dataset mod size)) dataset
                      ++ drop (length dataset / size * size) dataset
                    = take (Z.to_nat (q * r)) dataset
                        ++ drop (Z.to_nat (q * batch_size)) dataset).
    { rewrite Hq, Hr. replace batch_size with (Z.of_nat size) by (unfold size; lia).
      rewrite <- !Nat2Z.inj_mul, !Nat2Z.id. done. }
    rewrite Hrows. split; [done|].
    assert (Hlen : Z.of_nat (length (take (Z.to_nat (q * r)) dataset
                                       ++ drop (Z.to_nat (q * batch_size)) dataset))
                   = (q + 1) * r).
    { rewrite <- Hrows, length_app, length_take, length_drop, Hq, Hr. nia. }
    split; [done|]. split.
    + intros Heq. rewrite Heq in Hlen. right. rewrite Hq, Hr in Hlen. rewrite Hq. nia.
    + intros [?|Hq0]; [lia|]. rewrite Hq0. simpl. apply drop_0.
Qed.

End LSTMTrainerFacts.

Section LSTMTrainerExamples.
Import LSTMTrainer.
Local Open Scope Z_scope.

Lemma train_records_rows_witness :
  let dataset := [10; 11; 12; 13; 14; 15; 16; 17; 18; 19] in
  let n := Z.of_nat (length dataset) in
  let q := n / 4 in
  let r := n mod 4 in
  (dataset = [] -> train_records 0 dataset 4 = None) /\
  (dataset <> [] ->
   exists rows,
     train_records 0 dataset 4 = Some rows /\
     rows = (if decide (r = 0) then dataset
             else take (Z.to_nat (q * r)) dataset ++ drop (Z.to_nat (q * 4)) dataset) /\
     Z.of_nat (length rows) = (if decide (r = 0) then n else (q + 1) * r) /\
     (rows = dataset <-> r = 0 \/ q = 0)).
Proof. apply (train_records_rows 0 [10; 11; 12; 13; 14; 15; 16; 17; 18; 19] 4). lia. Defined.

Example train_records_examples :
  train_records 0 [10; 11; 12; 13; 14; 15; 16; 17; 18; 19] 4
  = Some [10; 11; 12; 13; 18; 19] /\
  train_records 0 [10; 11; 12; 13; 14; 15; 16; 17] 4
  = Some [10; 11; 12; 13; 14; 15; 16; 17] /\
  train_records 0 [10; 11; 12] 4 = Some [10; 11; 12] /\
  train_records 0 (@nil Z) 4 = None.
Proof. repeat split; vm_compute; reflexivity. Qed.

End LSTMTrainerExamples.

(** ** ColumnReconciler and ValidityFilter, continued: the schema of a
    windowed frame *)

Section WindowedSchema.
Import ColumnReconciler ValidityFilter.

Lemma occurrences_app c (l k : list string) :
  occurrences c (l ++ k) = (occurrences c l + occurrences c k)%nat.
Proof. unfold occurrences. by rewrite filter_app, length_app. Qed.

Lemma occurrences_NoDup c (l : list string) : NoDup l -> (occurrences c l <= 1)%nat.
Proof.
  induction 1 as [|x l Hx _ IH]; [unfold occurrences; simpl; lia|].
  change (x :: l) with ([x] ++ l). rewrite occurrences_app.
  unfold occurrences at 1. rewrite filter_cons, filter_nil.
  destruct (decide (x = c)) as [->|Hne]; simpl; [|lia].
  assert (occurrences c l = 0%nat); [|lia].
  unfold occurrences. apply length_zero_iff_nil, elem_of_nil_inv.
  intros y [-> Hin]%list_elem_of_filter. done.
Qed.

Lemma occurrences_windowed_columns c base depth :
  occurrences c (windowed_columns base depth) = (depth * occurrences c base)%nat.
Proof.
  unfold windowed_columns. induction depth as [|depth IH]; [done|].
  csimpl. rewrite occurrences_app, IH. lia.
Qed.

Lemma windowed_columns_S base depth :
  windowed_columns base (S depth) = windowed_columns base depth ++ base.
Proof.
  unfold windowed_columns. rewrite replicate_S_end, join_app. csimpl.
  by rewrite app_nil_r.
Qed.

Lemma renamed_windowed_blocks (base : list string) (depth : nat) :
  NoDup base ->
  renamed (windowed_columns base depth)
  = mjoin ((fun k => (fun c => numbered c (S k)) <$> base) <$> seq 0 depth).
Proof.
  intros Hbase. rewrite renamed_numbered. induction depth as [|depth IH]; [done|].
  rewrite seq_S, fmap_app, join_app. csimpl. rewrite app_nil_r, <- IH.
  rewrite windowed_columns_S, imap_app. f_equal.
  - apply imap_ext. intros i c Hi. cbn beta.
    rewrite take_app_le; [done|]. apply lookup_lt_Some in Hi. lia.
  - apply list_eq. intros i. rewrite list_lookup_imap, list_lookup_fmap.
    destruct (base !! i) as [c|] eqn:Hi; [|done]. simpl. f_equal.
    replace (S (length (windowed_columns base depth) + i))
      with (length (windowed_columns base depth) + S i)%nat by lia.
    rewrite take_app_add, occurrences_app, occurrences_windowed_columns. f_equal.
    pose proof (occurrences_NoDup c base Hbase).
    pose proof (occurrences_take_pos c base i Hi).
    pose proof (occurrences_take_mono c base (S i) (length base)) as Hmono.
    rewrite firstn_all in Hmono. apply lookup_lt_Some in Hi. nia.
Qed.

(** The labels of a windowed frame before they are sorted: the block
    number [k], counting from the left, carries the suffix [_k] from the
    second block on.  As every join puts the newly shifted frame in front
    (lines 153, 165, 187 and 193), the labels without a suffix belong to
    the most shifted copy of the table, and the highest suffix to the rows
    themselves.  The sorted schema has the same labels. *)
Theorem renamed_windowed_columns (base : list string) (depth : nat)
    (Hbase : NoDup base) :
  renamed (windowed_columns base depth)
  = mjoin ((fun k => (fun c => numbered c (S k)) <$> base) <$> seq 0 depth) /\
  rename_columns (windowed_columns base depth)
  ≡ₚ mjoin ((fun k => (fun c => numbered c (S k)) <$> base) <$> seq 0 depth).
Proof.
  split; [by apply renamed_windowed_blocks|].
  by rewrite rename_columns_Permutation, renamed_windowed_blocks.
Qed.

Lemma is_digit_pretty_N_char x : is_digit (pretty_N_char x) = true.
Proof. unfold pretty_N_char. by repeat case_match. Qed.

(** A decimal numeral starts with a digit and has digits up to its end. *)
Lemma pretty_N_go_digits x s :
  digits_to_end s = true ->
  (0 < x)%N \/ (exists d s', s = String d s' /\ is_digit d = true) ->
  digits_to_end (pretty_N_go x s) = true /\
  exists d s', pretty_N_go x s = String d s' /\ is_digit d = true /\
               digits_to_end s' = true.
Proof.
  revert s. induction (N.lt_wf_0 x) as [x _ IH]; intros s Hs Hx.
  assert (x = 0 \/ 0 < x)%N as [->|Hpos] by lia.
  - rewrite pretty_N_go_0. split; [done|].
    destruct Hx as [?|(d & s' & -> & Hd)]; [lia|].
    exists d, s'. split; [done|]. split; [done|].
    simpl in Hs. by rewrite Hd in Hs.
  - rewrite pretty_N_go_step by done.
    assert (Hd : is_digit (pretty_N_char (x mod 10)) = true).
    { apply is_digit_pretty_N_char. }
    apply IH; [by apply N.div_lt| |eauto].
    simpl. by rewrite Hd.
Qed.

Lemma pretty_nat_digits (n : nat) :
  exists d s', pretty n = String d s' /\ is_digit d = true /\ digits_to_end s' = true.
Proof.
  unfold pretty, pretty_nat, pretty, pretty_N.
  destruct (decide (N.of_nat n = 0%N)) as [|Hn].
  - by exists "0"%char, ""%string.
  - apply pretty_N_go_digits; [done|]. left. lia.
Qed.

Lemma matches_pattern_numbered_base (c : string) (k : nat) :
  c ∈ base_names -> matches_pattern (numbered c k) = bool_decide (1 < k)%nat.
Proof.
  intros Hc. unfold numbered. destruct (decide (1 < k)%nat) as [Hk|Hk].
  - rewrite bool_decide_true by done.
    destruct (pretty_nat_digits k) as (d & s' & -> & Hd & Hs').
    unfold base_names in Hc. rewrite !elem_of_cons, elem_of_nil in Hc.
    destruct Hc as [->|[->|[->|[->|[]]]]];
      cbv -[is_digit digits_to_end]; rewrite Hd, Hs'; reflexivity.
  - rewrite bool_decide_false by done.
    unfold base_names in Hc. rewrite !elem_of_cons, elem_of_nil in Hc.
    destruct Hc as [->|[->|[->|[->|[]]]]]; reflexivity.
Qed.

(** Of the labels that [rename_columns] gives to the occurrences of
    [serial_number], [date], [capacity_bytes] and [model], the pattern of
    line 246 matches all but the first: the first occurrence is kept and
    every numbered copy is dropped. *)
Theorem matches_pattern_numbered (c : string) (k : nat) (Hc : c ∈ base_names) :
  matches_pattern (numbered c k) = bool_decide (1 < k)%nat.
Proof. by apply matches_pattern_numbered_base. Qed.

Lemma matches_pattern_numbered_witness :
  matches_pattern (numbered "date" 3) = bool_decide (1 < 3)%nat.
Proof. apply (matches_pattern_numbered "date" 3). compute_done. Defined.

Lemma renamed_windowed_columns_witness :
  renamed (windowed_columns ["date"; "smart_5_raw"]%string 3)
  = mjoin ((fun k => (fun c => numbered c (S k)) <$> ["date"; "smart_5_raw"]%string)
             <$> seq 0 3) /\
  rename_columns (windowed_columns ["date"; "smart_5_raw"]%string 3)
  ≡ₚ mjoin ((fun k => (fun c => numbered c (S k)) <$> ["date"; "smart_5_raw"]%string)
              <$> seq 0 3).
Proof.
  apply (renamed_windowed_columns ["date"; "smart_5_raw"]%string 3). compute_done.
Defined.

Example renamed_windowed_columns_3 :
  renamed (windowed_columns ["date"; "smart_5_raw"]%string 3)
  = ["date"; "smart_5_raw"; "date_2"; "smart_5_raw_2"; "date_3"; "smart_5_raw_3"]%string /\
  filter (fun col => matches_pattern col = false)
         (rename_columns (windowed_columns ["date"; "smart_5_raw"]%string 3))
  = ["date"; "smart_5_raw"; "smart_5_raw_2"; "smart_5_raw_3"]%string.
Proof. split; vm_compute; reflexivity. Qed.

Lemma rename_columns_order_independent_witness :
  rename_columns ["b"; "a"; "a"]%string = rename_columns ["a"; "b"; "a"]%string.
Proof. apply rename_columns_order_independent. apply Permutation_swap. Defined.

Lemma rename_columns_NoDup_witness :
  NoDup (rename_columns ["b"; "a"; "a"]%string).
Proof.
  apply rename_columns_NoDup. intros c c' n Hc Hc' Hn Heq.
  apply (f_equal has_underscore) in Heq.
  rewrite !has_underscore_app in Heq. simpl in Heq. rewrite orb_true_r in Heq.
  rewrite !elem_of_cons, elem_of_nil in Hc'.
  destruct Hc' as [->|[->|[->|[]]]]; discriminate.
Defined.

Lemma occurrences_Permutation c (l k : list string) :
  l ≡ₚ k -> occurrences c l = occurrences c k.
Proof. intros Hperm. unfold occurrences. by rewrite Hperm. Qed.

Lemma occurrences_at_most_once c (l : list string) :
  (forall i j, l !! i = Some c -> l !! j = Some c -> i = j) ->
  (occurrences c l <= 1)%nat.
Proof.
  induction l as [|x l IH]; intros Hone; [unfold occurrences; simpl; lia|].
  change (x :: l) with ([x] ++ l). rewrite occurrences_app.
  unfold occurrences at 1. rewrite filter_cons, filter_nil.
  destruct (decide (x = c)) as [->|Hne]; simpl.
  - assert (occurrences c l = 0%nat); [|lia].
    unfold occurrences. apply length_zero_iff_nil, elem_of_nil_inv.
    intros y [-> Hin]%list_elem_of_filter.
    apply list_elem_of_lookup in Hin as [j Hj].
    by specialize (Hone 0%nat (S j) eq_refl Hj).
  - apply IH. intros i j Hi Hj. by specialize (Hone (S i) (S j) Hi Hj) as [= ->].
Qed.

(** A label of the index is never the new name of a later occurrence. *)
Lemma numbered_index_column key c o :
  key ∈ Preprocessing.index_columns -> numbered c o = key -> c = key /\ (o <= 1)%nat.
Proof.
  intros Hkey. unfold numbered. destruct (decide (1 < o)%nat) as [Ho|Ho].
  - intros Heq. exfalso. unfold Preprocessing.index_columns in Hkey.
    rewrite !elem_of_cons, elem_of_nil in Hkey. destruct Hkey as [->|[->|[]]].
    + change "serial_number"%string with ("serial" +:+ "_" +:+ "number")%string in Heq.
      apply split_last_underscore in Heq as [_ Heq];
        [|apply pretty_nat_underscore_free|done].
      destruct (pretty_nat_digits o) as (d & s' & Hp & Hd & _).
      rewrite Hp in Heq. by injection Heq as -> _.
    + apply (f_equal has_underscore) in Heq.
      rewrite !has_underscore_app in Heq. simpl in Heq.
      by rewrite orb_true_r in Heq.
  - intros ->. split; [done|lia].
Qed.

(** Whatever the labels of the frame, [rename_columns] leaves at most one
    column named [serial_number] and at most one named [date], also when
    it gives one name to two other columns: [set_index] finds a single
    column for each of its keys. *)
Theorem rename_columns_unique_keys (cols : list string)
    (rows : list (list (option value))) :
  Preprocessing.unique_keys (mkFrame (rename_columns cols) rows).
Proof.
  unfold Preprocessing.unique_keys. cbn [columns].
  apply Forall_forall. intros key Hkey.
  rewrite (occurrences_Permutation key _ _ (rename_columns_Permutation cols)).
  apply occurrences_at_most_once.
  assert (Hlt : forall i j, (i < j)%nat ->
            renamed cols !! i = Some key -> renamed cols !! j = Some key -> False).
  { intros i j Hij. rewrite renamed_numbered, !list_lookup_imap.
    destruct (cols !! i) as [c|] eqn:Hi; [|done].
    destruct (cols !! j) as [c'|] eqn:Hj; [|done]. simpl.
    intros [= Hc] [= Hc'].
    apply numbered_index_column in Hc as [-> Ho]; [|done].
    apply numbered_index_column in Hc' as [-> Ho']; [|done].
    pose proof (occurrences_take_pos key cols i Hi).
    pose proof (occurrences_take_lt key cols i j Hij Hj). lia. }
  intros i j Hi Hj.
  destruct (Nat.lt_trichotomy i j) as [Hij|[->|Hij]]; [|done|];
    exfalso; eauto.
Qed.

End WindowedSchema.

(** ** FPLSTM *)

Section FPLSTMFacts.
Import Reshaper FPLSTM.
Local Open Scope Z_scope.


















Example FPLSTMDataset_items :
  len sample_dataset = 2 /\
  getitem sample_dataset 1 = Some (mk_ndarray [3; 2] [6; 9; 7; 10; 8; 11], 1) /\
  getitem sample_dataset 2 = None /\
  getitem sample_dataset (-1) = None.
Proof. repeat split; vm_compute; reflexivity. Qed.


Example FPLSTM_collate_sample :
  FPLSTM_collate sample_batch
  = Some (mk_ndarray [3; 2; 2] [6; 9; 0; 3; 7; 10; 1; 4; 8; 11; 2; 5], [1; 0]).
Proof. vm_compute. reflexivity. Qed.

End FPLSTMFacts.

(** ** Partition: from the scaled table to the tensor *)

Section FrameFacts.
Import Reshaper ColumnReconciler ValidityFilter Preprocessing.
Local Open Scope Z_scope.

(** *** When [preprocess_dataset] returns *)

Lemma preprocess_dataset_windowed overlap window_dim df d :
  let df1 := dropna_columns (validity_filter_rows df).1 in
  let kept := filter (fun col => col ∉ identifying_columns) (columns df1) in
  identifying_columns ⊆ columns df1 ->
  data_dim overlap window_dim = Some d -> 0 < d ->
  rows df1 = [] \/ Z.of_nat (length kept) = Z.quot (Z.of_nat (length kept)) d * d ->
  exists X,
    preprocess_dataset overlap 1 window_dim df = Returned X /\
    shape X = [Z.of_nat (length (rows df1)); Z.quot (Z.of_nat (length kept)) d; d] /\
    Forall is_Some (data X).
Proof.
  intros df1 kept Hident Hdim Hd Hdiv. unfold preprocess_dataset.
  rewrite Z.eqb_refl.
  destruct (drop_invalid_windows_cases df)
    as [(labels & _ & _ & Hsub & label & Hin & Hnot)
       |(df' & -> & _ & Hcols & Hlen & Hcells)].
  { exfalso. apply Hnot, Hident, index_columns_identifying, Hsub, Hin. }
  fold df1 in Hcols, Hlen. cbn [bind]. unfold drop.
  rewrite decide_True.
  2:{ apply elem_of_nil_inv. intros col [Hnot Hin]%list_elem_of_filter.
      apply Hnot. rewrite Hcols. apply Hident in Hin.
      destruct (decide (col ∈ index_columns)); [by apply elem_of_app; left|].
      apply elem_of_app. right. by apply list_elem_of_filter. }
  cbn [bind].
  assert (Hrect : rectangular (drop_columns identifying_columns df')).
  { apply rectangular_drop_columns. eapply Forall_impl; [done|]. by intros row [_ ?]. }
  apply length_join_rectangular in Hrect.
  assert (Hn : length (rows (drop_columns identifying_columns df'))
               = length (rows df1)).
  { unfold drop_columns. cbn [rows]. by rewrite length_fmap, Hlen. }
  assert (Hc : columns (drop_columns identifying_columns df') = kept).
  { by rewrite columns_drop_columns, Hcols, filter_identifying_reset. }
  rewrite Hn, Hc in Hrect.
  unfold to_tensor. rewrite Z.eqb_refl, Hdim. cbn [mbind option_bind].
  unfold arrays_to_matrix, values. cbn [shape]. rewrite Hn, Hc.
  destruct (d =? 0) eqn:Hd0; [apply Z.eqb_eq in Hd0; lia|].
  unfold reshape. cbn [data].
  assert (Hq : 0 <= Z.quot (Z.of_nat (length kept)) d) by (apply Z.quot_pos; lia).
  assert (Hok : forallb (fun d0 => 0 <=? d0)
                  [Z.of_nat (length (rows df1)); Z.quot (Z.of_nat (length kept)) d; d]
                && (size [Z.of_nat (length (rows df1));
                          Z.quot (Z.of_nat (length kept)) d; d]
                    =? Z.of_nat (length (mjoin (rows (drop_columns identifying_columns df')))))
                = true).
  { apply andb_true_intro. split.
    - cbn [forallb]. rewrite !andb_true_iff, !Z.leb_le. lia.
    - apply Z.eqb_eq. unfold size. cbn [foldr]. rewrite Hrect.
      destruct Hdiv as [->|Hdiv]; [done|nia]. }
  rewrite Hok. eexists. split; [done|]. split; [done|]. cbn [data].
  apply Forall_forall. intros c Hc'.
  apply list_elem_of_join in Hc' as (row & Hc' & Hrow).
  unfold drop_columns in Hrow. cbn [rows] in Hrow.
  apply list_elem_of_fmap in Hrow as (row0 & -> & Hrow0).
  rewrite Forall_forall in Hcells. destruct (Hcells row0 Hrow0) as [Hall _].
  rewrite Forall_forall in Hall. apply Hall. by eapply select_subseteq.
Qed.

(** With windowing, on a frame in which [serial_number] and [date] each
    label at most one column, [preprocess_dataset] returns a tensor
    exactly when the four identifying columns are among the columns that
    the filter and [dropna] leave, the effective depth is positive, and it
    divides the number of the other columns or no row is left; in every
    other case it raises, in [set_index], in [drop], in [factors] or in
    [reshape]. *)
Theorem preprocess_dataset_returns_iff (overlap window_dim : Z) (df : DataFrame)
    (Hkeys : unique_keys df) :
  let df1 := dropna_columns (validity_filter_rows df).1 in
  let kept := filter (fun col => col ∉ identifying_columns) (columns df1) in
  (exists X, preprocess_dataset overlap 1 window_dim df = Returned X) <->
  identifying_columns ⊆ columns df1 /\
  exists d, data_dim overlap window_dim = Some d /\ 0 < d /\
            (rows df1 = [] \/ (d | Z.of_nat (length kept))).
Proof.
  intros df1 kept. split.
  - intros [X HX]. unfold preprocess_dataset in HX. rewrite Z.eqb_refl in HX.
    destruct (drop_invalid_windows_cases df)
      as [(labels & Heq & _)|(df' & Heq & Hidx & Hcols & Hlen & Hcells)];
      rewrite Heq in HX; cbn [bind] in HX; [done|].
    fold df1 in Hidx, Hcols, Hlen.
    unfold drop in HX. destruct (decide _) as [Hnil|]; [|done]. cbn [bind] in HX.
    assert (Hident : identifying_columns ⊆ columns df1).
    { intros key Hkey. destruct (decide (key ∈ columns df')) as [Hin|Hnot].
      - rewrite Hcols in Hin. apply elem_of_app in Hin as [Hin|Hin]; [by apply Hidx|].
        by apply list_elem_of_filter in Hin as [_ ?].
      - by destruct (filter_nil_not_elem_of _ _ key Hnil Hnot). }
    split; [done|].
    assert (Hrect : rectangular (drop_columns identifying_columns df')).
    { apply rectangular_drop_columns. eapply Forall_impl; [done|]. by intros row [_ ?]. }
    apply length_join_rectangular in Hrect.
    assert (Hn : length (rows (drop_columns identifying_columns df'))
                 = length (rows df1)).
    { unfold drop_columns. cbn [rows]. by rewrite length_fmap, Hlen. }
    assert (Hc : columns (drop_columns identifying_columns df') = kept).
    { by rewrite columns_drop_columns, Hcols, filter_identifying_reset. }
    rewrite Hn, Hc in Hrect.
    destruct (to_tensor _ _ _ _) as [X'|] eqn:HT; [|done].
    unfold to_tensor in HT. rewrite Z.eqb_refl in HT.
    destruct (data_dim overlap window_dim) as [d|]; [|done].
    cbn [mbind option_bind] in HT. exists d. split; [done|].
    unfold arrays_to_matrix, values in HT. cbn [shape] in HT. rewrite Hn, Hc in HT.
    destruct (d =? 0) eqn:Hd0; [done|]. apply Z.eqb_neq in Hd0.
    unfold reshape in HT. destruct (_ && _) eqn:Hok; [|done].
    apply andb_prop in Hok as [Hnonneg Hsize%Z.eqb_eq].
    cbn [forallb] in Hnonneg. rewrite !andb_true_iff, !Z.leb_le in Hnonneg.
    split; [lia|].
    unfold size in Hsize. cbn [foldr data] in Hsize. rewrite Hrect in Hsize.
    destruct (rows df1) as [|row rws] eqn:Hrows; [by left|right].
    exists (Z.quot (Z.of_nat (length kept)) d). simpl length in Hsize. nia.
  - intros (Hident & d & Hdim & Hd & Hdiv).
    destruct (preprocess_dataset_windowed overlap window_dim df d)
      as (X & HX & _); [done..| |by exists X].
    destruct Hdiv as [?|[q Hq]]; [by left|right]. fold df1 kept.
    rewrite Hq, Z.quot_mul by lia. done.
Qed.

Lemma preprocess_dataset_returns_iff_witness :
  let df1 := dropna_columns (validity_filter_rows sample_frame).1 in
  let kept := filter (fun col => col ∉ identifying_columns) (columns df1) in
  (exists X, preprocess_dataset 2 1 1 sample_frame = Returned X) <->
  identifying_columns ⊆ columns df1 /\
  exists d, data_dim 2 1 = Some d /\ 0 < d /\
            (rows df1 = [] \/ (d | Z.of_nat (length kept))).
Proof. apply (preprocess_dataset_returns_iff 2 1 sample_frame). compute_done. Defined.

(** *** Without windowing *)

Lemma preprocess_dataset_flat_values overlap windowing window_dim df :
  windowing <> 1 -> identifying_columns ⊆ columns df ->
  preprocess_dataset overlap windowing window_dim df
  = Returned (expand_dims (values (drop_columns identifying_columns df)) 1).
Proof.
  intros Hw Hident. unfold preprocess_dataset.
  apply Z.eqb_neq in Hw. rewrite Hw. cbn [bind]. unfold drop.
  rewrite decide_True.
  2:{ apply elem_of_nil_inv. intros col [Hnot Hin]%list_elem_of_filter. auto. }
  cbn [bind]. unfold to_tensor. by rewrite Hw.
Qed.

(** *** A frame without a missing cell loses no column *)

Lemma select_all_true {A} (mask : list bool) (l : list A) :
  Forall (fun b => b = true) mask -> (length l <= length mask)%nat ->
  select mask l = l.
Proof.
  unfold select. intros Hall. revert l.
  induction Hall as [|b mask -> _ IH]; intros [|x l] Hlen; try done.
  { simpl in Hlen. lia. }
  csimpl. f_equal. apply IH. simpl in Hlen. lia.
Qed.

Lemma dropna_columns_complete df :
  rectangular df -> Forall (Forall is_Some) (rows df) -> dropna_columns df = df.
Proof.
  intros Hrect Hall. unfold dropna_columns.
  assert (Hmask : Forall (fun b => b = true)
                    (imap (fun j _ => column_complete df j) (columns df))).
  { apply Forall_lookup. intros j b Hj. rewrite list_lookup_imap in Hj.
    destruct (columns df !! j) as [c|] eqn:Hc; [|done]. injection Hj as <-.
    unfold column_complete. apply Is_true_true, forallb_True, Forall_forall.
    intros row Hrow. apply bool_decide_pack.
    unfold rectangular in Hrect. rewrite Forall_forall in Hrect, Hall.
    specialize (Hrect row Hrow). specialize (Hall row Hrow).
    apply lookup_lt_Some in Hc. rewrite <- Hrect in Hc.
    apply lookup_lt_is_Some_2 in Hc as [v Hv]. rewrite Hv. simpl.
    rewrite Forall_forall in Hall. apply Hall. by eapply list_elem_of_lookup_2. }
  destruct df as [cols rws]. cbn [columns rows] in *. f_equal.
  - apply select_all_true; [done|]. by rewrite length_imap.
  - transitivity (id <$> rws); [|apply list_fmap_id].
    apply Forall_fmap_ext_1. unfold rectangular in Hrect. cbn [columns rows] in Hrect.
    eapply Forall_impl; [exact Hrect|]. intros row Hrow. cbn beta.
    apply select_all_true; [done|]. rewrite length_imap. unfold id. cbn beta in Hrow. lia.
Qed.

(** *** The cells of a frame with their labels *)

Lemma zip_select {A B} (f : A -> bool) (l : list A) (k : list B) :
  length k = length l ->
  zip (select (f <$> l) l) (select (f <$> l) k)
  = filter (fun p => f p.1 = true) (zip l k).
Proof.
  unfold select. revert k.
  induction l as [|x l IH]; intros [|y k] Hlen; try done.
  injection Hlen as Hlen. csimpl. rewrite !filter_cons. cbn [fst].
  destruct (decide (f x = true)); csimpl; by rewrite IH.
Qed.

Lemma zip_drop_columns to_drop df row :
  length row = length (columns df) ->
  zip (columns (drop_columns to_drop df))
      (select ((fun col => bool_decide (col ∉ to_drop)) <$> columns df) row)
  = filter (fun p : string * option value => p.1 ∉ to_drop) (zip (columns df) row).
Proof.
  intros Hlen. unfold drop_columns. cbn [columns].
  rewrite zip_select by done. apply list_filter_iff.
  intros p. by rewrite bool_decide_eq_true.
Qed.

Lemma complete_in_labelled df subset row :
  complete_in df subset row = true <->
  forall c v, (c, v) ∈ zip (columns df) row -> c ∈ subset -> is_Some v.
Proof.
  unfold complete_in. rewrite <- Is_true_true, forallb_True, Forall_forall. split.
  - intros Hall c v Hin Hc. specialize (Hall _ Hin). cbn [fst snd] in Hall.
    rewrite bool_decide_true in Hall by done. by apply bool_decide_unpack in Hall.
  - intros Hall [c v] Hin. cbn [fst snd]. case_bool_decide; [|done].
    apply bool_decide_pack. eauto.
Qed.

End FrameFacts.

(** *** [rename_columns] on a frame *)

Section RenamedFrame.
Import ColumnReconciler ValidityFilter Preprocessing Partition.

Lemma length_renamed cols : length (renamed cols) = length cols.
Proof. by rewrite renamed_numbered, length_imap. Qed.

Lemma sorted_columns_Permutation cols :
  sorted_columns cols ≡ₚ imap (fun j c => (c, j)) (renamed cols).
Proof. apply stable_sort_Permutation. Qed.

Lemma columns_rename_columns df :
  columns (Partition.rename_columns df) ≡ₚ renamed (columns df).
Proof.
  unfold Partition.rename_columns. cbn [columns].
  rewrite sorted_columns_Permutation.
  replace ((imap (fun j c => (c, j)) (renamed (columns df))).*1)
    with (renamed (columns df)); [done|].
  apply list_eq. intros j. rewrite list_lookup_fmap, list_lookup_imap.
  by destruct (renamed (columns df) !! j).
Qed.

Lemma sorted_columns_bound cols p :
  p ∈ sorted_columns cols -> (p.2 < length cols)%nat.
Proof.
  rewrite sorted_columns_Permutation.
  intros (j & c & -> & Hj)%elem_of_lookup_imap.
  apply lookup_lt_Some in Hj. by rewrite length_renamed in Hj.
Qed.

Lemma omap_total {A B} (f : A -> option B) (g : A -> B) (l : list A) :
  Forall (fun x => f x = Some (g x)) l -> omap f l = g <$> l.
Proof. induction 1 as [|x l Hx _ IH]; [done|]. csimpl. by rewrite Hx, IH. Qed.

Lemma rename_columns_row cols (row : list (option value)) :
  length row = length cols ->
  reorder (sorted_columns cols) row
  = (fun p : string * nat => mjoin (row !! p.2)) <$> sorted_columns cols.
Proof.
  intros Hlen. apply omap_total, Forall_forall. intros p Hp.
  apply sorted_columns_bound in Hp. rewrite <- Hlen in Hp.
  by destruct (lookup_lt_is_Some_2 _ _ Hp) as [v ->].
Qed.

Lemma zip_rename_columns df (row : list (option value)) :
  length row = length (columns df) ->
  zip (columns (Partition.rename_columns df))
      (reorder (sorted_columns (columns df)) row)
  ≡ₚ zip (renamed (columns df)) row.
Proof.
  intros Hlen. rewrite rename_columns_row by done.
  unfold Partition.rename_columns. cbn [columns].
  rewrite zip_with_fmap_l, zip_with_fmap_r, zip_with_diag.
  rewrite sorted_columns_Permutation, fmap_imap.
  replace (zip (renamed (columns df)) row)
    with (imap (fun j c => (c, mjoin (row !! j))) (renamed (columns df))); [done|].
  apply list_eq. intros j. rewrite list_lookup_imap, lookup_zip_with.
  destruct (renamed (columns df) !! j) as [c|] eqn:Hc; [|done]. simpl.
  apply lookup_lt_Some in Hc. rewrite length_renamed, <- Hlen in Hc.
  by destruct (lookup_lt_is_Some_2 _ _ Hc) as [v ->].
Qed.

Lemma rectangular_rename_columns df :
  rectangular df -> rectangular (Partition.rename_columns df).
Proof.
  unfold rectangular. intros Hrect.
  unfold Partition.rename_columns. cbn [rows columns].
  apply Forall_fmap. eapply Forall_impl; [exact Hrect|].
  intros row Hrow. unfold compose. cbn beta in *.
  rewrite rename_columns_row by done. by rewrite !length_fmap.
Qed.

Lemma reorder_subseteq order (row : list (option value)) : reorder order row ⊆ row.
Proof.
  intros v (p & _ & Hv)%list_elem_of_omap. by eapply list_elem_of_lookup_2.
Qed.

End RenamedFrame.

(** *** The frame of the Full branch *)

Section FullPipeline.
Import Factorizer WindowBuilder Windows ColumnReconciler ValidityFilter.
Import Preprocessing Reshaper Partition.
Local Open Scope Z_scope.
Context {F : Type} (cell_of : F -> value) (features : list string).
Implicit Types (df : Table F) (r : DeviceRecord F).

Lemma filter_fmap_comm {A B} (P : B -> Prop) `{forall y, Decision (P y)}
    (f : A -> B) (l : list A) :
  filter P (f <$> l) = f <$> filter (fun x => P (f x)) l.
Proof.
  induction l as [|x l IH]; [done|]. csimpl. rewrite !filter_cons, IH.
  by destruct (decide (P (f x))).
Qed.

Lemma filter_all {A} (P : A -> Prop) `{forall x, Decision (P x)} (l : list A) :
  Forall P l -> filter P l = l.
Proof.
  induction 1 as [|x l Hx _ IH]; [done|]. by rewrite filter_cons_True, IH.
Qed.

Lemma filter_seq_ge (c n : nat) :
  filter (fun i => (c <= i)%nat) (seq 0 n) = seq c (n - c).
Proof.
  induction n as [|n IH]; [done|].
  rewrite seq_S, filter_app, IH, filter_cons, filter_nil. simpl.
  destruct (decide (c <= n)%nat) as [Hle|Hgt].
  - replace (S n - c)%nat with (S (n - c)) by lia.
    rewrite seq_S. do 2 f_equal. lia.
  - replace (S n - c)%nat with 0%nat by lia.
    replace (n - c)%nat with 0%nat by lia. done.
Qed.

Lemma length_filter_join {A} (P : A -> Prop) `{forall x, Decision (P x)}
    (ls : list (list A)) (m : nat) :
  Forall (fun l => length (filter P l) = m) ls ->
  length (filter P (mjoin ls)) = (length ls * m)%nat.
Proof.
  induction 1 as [|l ls Hl _ IH]; [done|].
  csimpl. rewrite filter_app, length_app, Hl, IH. lia.
Qed.

Lemma length_windowed_columns base depth :
  length (windowed_columns base depth) = (depth * length base)%nat.
Proof.
  unfold windowed_columns. induction depth as [|depth IH]; [done|].
  csimpl. rewrite length_app, IH. lia.
Qed.

(** **** The cells of a row *)

Lemma length_record_cells r :
  length (record_cells cell_of r) = (length (WindowBuilder.features r) + 7)%nat.
Proof. unfold record_cells. by rewrite length_app, length_fmap. Qed.

Lemma record_cells_complete w r :
  complete_record w r -> Forall is_Some (record_cells cell_of r).
Proof.
  intros (Hs & Hd & Hf & Hp & Hv & Hm & Hc & Hfeat & _). unfold record_cells.
  apply Forall_app. split.
  - apply Forall_fmap. eapply Forall_impl; [exact Hfeat|].
    intros c [v ->]. by eexists.
  - destruct Hs as [? ->], Hd as [? ->], Hf as [? ->], Hp as [? ->],
      Hv as [? ->], Hm as [? ->], Hc as [? ->].
    repeat constructor; by eexists.
Qed.

Lemma lagged_features w df i j :
  Forall (complete_record w) df -> (i < length df)%nat ->
  length (WindowBuilder.features (lagged df i j)) = w.
Proof.
  intros Hall Hi.
  assert (Hwidth : width df = w).
  { destruct Hall as [|r df' Hr _]; [simpl in Hi; lia|]. simpl. apply Hr. }
  unfold lagged. destruct (decide (j <= i)%nat).
  - destruct (df !! (i - j)%nat) as [r|] eqn:Hr; simpl.
    + rewrite Forall_lookup in Hall. apply (Hall _ _ Hr).
    + by rewrite length_replicate.
  - simpl. by rewrite length_replicate.
Qed.

Lemma lagged_complete w df i j :
  Forall (complete_record w) df -> (j <= i)%nat -> (i < length df)%nat ->
  complete_record w (lagged df i j).
Proof.
  intros Hall Hj Hi. unfold lagged. rewrite decide_True by done.
  destruct (lookup_lt_is_Some_2 df (i - j)) as [r Hr]; [lia|]. rewrite Hr. simpl.
  by eapply Forall_lookup_1.
Qed.

Lemma length_window_cells w df count i :
  Forall (complete_record w) df -> (i < length df)%nat ->
  length (window_cells cell_of (lagged_blocks df count i)) = (S count * (w + 7))%nat.
Proof.
  intros Hall Hi. unfold window_cells, lagged_blocks.
  rewrite (length_join_rectangular _ (w + 7)).
  - by rewrite !length_fmap, length_reverse, length_seq.
  - rewrite <- list_fmap_compose. apply Forall_fmap, Forall_forall. intros j _.
    unfold compose. by rewrite length_record_cells, (lagged_features w).
Qed.

(** From row [count] on, no cell of the row is missing. *)
Lemma window_cells_complete w df count i :
  Forall (complete_record w) df -> (count <= i)%nat -> (i < length df)%nat ->
  Forall is_Some (window_cells cell_of (lagged_blocks df count i)).
Proof.
  intros Hall Hc Hi. apply Forall_forall. intros v Hv.
  unfold window_cells in Hv. apply list_elem_of_join in Hv as (cells & Hv & Hcells).
  apply list_elem_of_fmap in Hcells as (r & -> & Hr).
  unfold lagged_blocks in Hr. apply list_elem_of_fmap in Hr as (j & -> & Hj).
  apply elem_of_reverse, elem_of_seq in Hj.
  assert (Hrec : complete_record w (lagged df i j)) by (apply lagged_complete; [done|lia..]).
  apply (record_cells_complete w) in Hrec. rewrite Forall_forall in Hrec. by apply Hrec.
Qed.

(** Above row [count], the columns of the first block that come from
    [temporal] are missing. *)
Lemma window_cells_nan w df count i t label :
  Forall (complete_record w) df -> (i < count)%nat -> (i < length df)%nat ->
  length features = w -> temporal !! t = Some label ->
  (label, None)
  ∈ zip (mjoin ((fun k => (fun c => numbered c (S k)) <$> df_columns features)
                  <$> seq 0 (S count)))
        (window_cells cell_of (lagged_blocks df count i)).
Proof.
  intros Hall Hc Hi Hw Ht.
  assert (Hlt : (t < 7)%nat) by (by apply lookup_lt_Some in Ht).
  apply (elem_of_lookup_zip_with_2 pair _ _ label None (label, None) (w + t)%nat).
  - cbn [seq fmap list_fmap mjoin list_join].
    rewrite lookup_app_l.
    2:{ rewrite length_fmap. unfold df_columns. rewrite length_app. simpl. lia. }
    rewrite list_lookup_fmap. unfold df_columns.
    rewrite lookup_app_r by lia.
    replace (w + t - length features)%nat with t by lia. by rewrite Ht.
  - unfold window_cells, lagged_blocks. rewrite seq_S, reverse_snoc. csimpl.
    rewrite lookup_app_l.
    2:{ rewrite length_record_cells, (lagged_features w) by done. lia. }
    unfold lagged. rewrite decide_False by lia.
    assert (Hwidth : width df = w).
    { destruct Hall as [|r df' Hr _]; [simpl in Hi; lia|]. simpl. apply Hr. }
    rewrite Hwidth. unfold record_cells, nan_record. cbn [WindowBuilder.features].
    rewrite lookup_app_r by (rewrite length_fmap, length_replicate; lia).
    rewrite length_fmap, length_replicate.
    replace (w + t - w)%nat with t by lia.
    do 7 (destruct t as [|t]; [done|]). lia.
Qed.

(** **** The labels of the columns *)

Lemma identifying_temporal key : key ∈ identifying_columns -> key ∈ temporal.
Proof.
  unfold identifying_columns, temporal. rewrite !elem_of_cons, !elem_of_nil. tauto.
Qed.

Lemma identifying_base_names key : key ∈ identifying_columns <-> key ∈ base_names.
Proof.
  unfold identifying_columns, base_names. rewrite !elem_of_cons, !elem_of_nil. tauto.
Qed.

Lemma matches_pattern_label c n :
  c ∈ ["failure"; "predict_val"; "validate_val"]%string ->
  matches_pattern (numbered c n) = false.
Proof.
  intros Hc. rewrite !elem_of_cons, elem_of_nil in Hc. unfold numbered.
  destruct (decide (1 < n)%nat).
  - destruct (pretty_nat_digits n) as (d & s' & -> & _).
    destruct Hc as [->|[->|[->|[]]]]; reflexivity.
  - destruct Hc as [->|[->|[->|[]]]]; reflexivity.
Qed.

(** Of the columns of a block, the filter and the removal of the four
    identifying columns leave the features and the three labels. *)
Lemma kept_label c k :
  collision_free (df_columns features) ->
  (forall c k, c ∈ features -> matches_pattern (numbered c k) = false) ->
  c ∈ df_columns features ->
  (matches_pattern (numbered c (S k)) = false /\
   numbered c (S k) ∉ identifying_columns) <-> c ∉ identifying_columns.
Proof.
  intros Hfree Hfeat Hc. destruct (decide (c ∈ identifying_columns)) as [Hid|Hid].
  - split; [|done]. intros [Hm Hnot].
    rewrite matches_pattern_numbered_base in Hm by (by apply identifying_base_names).
    apply bool_decide_eq_false in Hm.
    assert (k = 0%nat) as -> by lia. done.
  - split; [done|]. intros _. split.
    + unfold df_columns in Hc. apply elem_of_app in Hc as [Hc|Hc]; [by apply Hfeat|].
      apply matches_pattern_label.
      unfold temporal in Hc. unfold identifying_columns in Hid.
      rewrite !elem_of_cons, !elem_of_nil in *. tauto.
    + intros Hin.
      assert (Hkey : numbered c (S k) ∈ df_columns features).
      { apply elem_of_app. right. by apply identifying_temporal. }
      destruct (numbered_inj (df_columns features) c (numbered c (S k)) (S k) 1)
        as [Heq _]; [done|done|done|lia|lia|done|].
      apply Hid. by rewrite Heq.
Qed.

Lemma length_kept_block k :
  NoDup (df_columns features) -> collision_free (df_columns features) ->
  (forall c k, c ∈ features -> matches_pattern (numbered c k) = false) ->
  length (filter (fun col => (col ∉ identifying_columns) /\ matches_pattern col = false)
                 ((fun c => numbered c (S k)) <$> df_columns features))
  = (length features + 3)%nat.
Proof.
  intros Hnodup Hfree Hfeat.
  rewrite filter_fmap_comm, length_fmap.
  rewrite (filter_ext_elem_of _ (fun c => c ∉ identifying_columns));
    [|intros c Hc; rewrite <- (kept_label c k) by done; tauto].
  unfold df_columns in *. rewrite filter_app, length_app.
  apply NoDup_app in Hnodup as (_ & Hdisj & _).
  rewrite filter_all; [done|].
  apply Forall_forall. intros c Hc Hid. by apply (Hdisj c), identifying_temporal.
Qed.

(** **** The frame that enters the reshaping *)

Lemma full_frame df window_dim :
  Forall (complete_record (length features)) df -> NoDup (df_columns features) ->
  let count := Z.to_nat (window_dim - 1) in
  let frame0 := final_df cell_of features (full df window_dim) in
  columns frame0 = windowed_columns (df_columns features) (S count) /\
  rows frame0 = (fun i => window_cells cell_of (lagged_blocks df count i))
                  <$> seq 0 (length df) /\
  rectangular frame0 /\
  columns (Partition.rename_columns frame0)
  ≡ₚ mjoin ((fun k => (fun c => numbered c (S k)) <$> df_columns features)
              <$> seq 0 (S count)).
Proof.
  intros Hall Hnodup count frame0.
  assert (Hcols0 : columns frame0 = windowed_columns (df_columns features) (S count)).
  { unfold frame0, final_df, full. cbn [columns]. rewrite depth_shift_loop.
    cbn [depth of_table]. f_equal. lia. }
  assert (Hrows0 : rows frame0
            = (fun i => window_cells cell_of (lagged_blocks df count i))
                <$> seq 0 (length df)).
  { unfold frame0, final_df. cbn [rows]. rewrite full_wrows, fmap_imap.
    apply (imap_seq_0 df (fun i => window_cells cell_of (lagged_blocks df count i))). }
  split_and!; [done|done| |].
  - unfold rectangular. rewrite Hrows0, Hcols0.
    apply Forall_fmap, Forall_forall. intros i Hi%elem_of_seq. unfold compose.
    rewrite length_windowed_columns, (length_window_cells (length features)) by (done || lia).
    unfold df_columns. rewrite length_app. done.
  - rewrite columns_rename_columns, Hcols0. by rewrite renamed_windowed_blocks.
Qed.

Lemma partition_full_frame df window_dim :
  1 <= window_dim ->
  Forall (complete_record (length features)) df ->
  NoDup (df_columns features) -> collision_free (df_columns features) ->
  (forall c k, c ∈ features -> matches_pattern (numbered c k) = false) ->
  let frame := Partition.rename_columns (final_df cell_of features (full df window_dim)) in
  let df1 := dropna_columns (validity_filter_rows frame).1 in
  identifying_columns ⊆ columns df1 /\
  length (rows df1) = (length df - Z.to_nat (window_dim - 1))%nat /\
  length (filter (fun col => col ∉ identifying_columns) (columns df1))
  = (Z.to_nat window_dim * (length features + 3))%nat.
Proof.
  intros Hw Hall Hnodup Hfree Hfeat frame df1.
  destruct (full_frame df window_dim Hall Hnodup) as (Hcols0 & Hrows0 & Hrect0 & Hperm).
  fold frame in Hperm.
  set (count := Z.to_nat (window_dim - 1)) in *.
  set (base := df_columns features) in *.
  set (frame0 := final_df cell_of features (full df window_dim)) in *.
  set (rcols := mjoin ((fun k => (fun c => numbered c (S k)) <$> base) <$> seq 0 (S count)))
    in *.
  assert (Hrect : rectangular frame) by (by apply rectangular_rename_columns).
  set (dfn := drop_numbered_identifiers frame).
  assert (Hcolsn : columns dfn = filter (fun c => matches_pattern c = false) (columns frame)).
  { unfold dfn, drop_numbered_identifiers. rewrite columns_drop_columns.
    apply filter_ext_elem_of. intros c Hc. rewrite list_elem_of_filter.
    destruct (matches_pattern c); split; intros H; try done.
    - exfalso. by apply H.
    - by intros [? _]. }
  assert (Hidentn : identifying_columns ⊆ columns dfn).
  { intros key Hkey. rewrite Hcolsn. apply list_elem_of_filter. split.
    - unfold identifying_columns in Hkey. rewrite !elem_of_cons, elem_of_nil in Hkey.
      destruct Hkey as [->|[->|[->|[->|[]]]]]; reflexivity.
    - rewrite Hperm. apply list_elem_of_join.
      exists ((fun c => numbered c 1) <$> base). split.
      + apply list_elem_of_fmap. exists key. split; [done|].
        apply elem_of_app. right. by apply identifying_temporal.
      + apply list_elem_of_fmap. exists 0%nat. split; [done|]. apply elem_of_seq. lia. }
  assert (Hessential : filter (fun col => col ∉ columns dfn) essential_columns = []).
  { apply elem_of_nil_inv. intros col [Hnot Hin]%list_elem_of_filter.
    apply Hnot, Hidentn. unfold essential_columns in Hin. unfold identifying_columns.
    rewrite !elem_of_cons, !elem_of_nil in *. tauto. }
  assert (Hvfr : (validity_filter_rows frame).1 = dropna_rows essential_columns dfn).
  { unfold validity_filter_rows, drop_incomplete_rows. fold dfn.
    by rewrite decide_True. }
  set (to_drop := filter (fun col => matches_pattern col = true) (columns frame)).
  set (mask := (fun col => bool_decide (col ∉ to_drop)) <$> columns frame).
  set (R := fun i => select mask (reorder (sorted_columns (columns frame0))
                                   (window_cells cell_of (lagged_blocks df count i)))).
  assert (Hrowsn : rows dfn = R <$> seq 0 (length df)).
  { unfold dfn, drop_numbered_identifiers, drop_columns. cbn [rows]. fold to_drop mask.
    unfold frame, Partition.rename_columns. cbn [rows]. fold frame0.
    rewrite Hrows0, <- !list_fmap_compose. done. }
  assert (Hlen0 : forall i, (i < length df)%nat ->
            length (window_cells cell_of (lagged_blocks df count i))
            = length (columns frame0)).
  { intros i Hi. unfold rectangular in Hrect0. rewrite Forall_forall in Hrect0.
    apply Hrect0. rewrite Hrows0. apply list_elem_of_fmap. exists i.
    split; [done|]. apply elem_of_seq. lia. }
  assert (Hlen1 : forall i, (i < length df)%nat ->
            length (reorder (sorted_columns (columns frame0))
                      (window_cells cell_of (lagged_blocks df count i)))
            = length (columns frame)).
  { intros i Hi. rewrite rename_columns_row by auto.
    unfold frame, Partition.rename_columns. cbn [columns]. by rewrite !length_fmap. }
  assert (Hkeep : forall i, (i < length df)%nat ->
            complete_in dfn essential_columns (R i) = true <-> (count <= i)%nat).
  { intros i Hi. rewrite complete_in_labelled. split.
    - intros Hcomplete. destruct (decide (count <= i)%nat) as [|Hlt]; [done|exfalso].
      destruct (Hcomplete "date"%string None) as [? [=]]; [|compute_done].
      unfold dfn, drop_numbered_identifiers, R. fold to_drop mask.
      rewrite zip_drop_columns by auto. apply list_elem_of_filter. split.
      + cbn [fst]. unfold to_drop. by intros [[=] _]%list_elem_of_filter.
      + unfold frame. rewrite zip_rename_columns by auto.
        rewrite Hcols0, renamed_windowed_blocks by done.
        apply (window_cells_nan (length features) df count i 1); [done|lia|done..].
    - intros Hc c v Hin _.
      apply elem_of_zip_r in Hin. unfold R in Hin.
      apply select_subseteq, reorder_subseteq in Hin.
      pose proof (window_cells_complete (length features) df count i Hall Hc Hi) as Hsome.
      rewrite Forall_forall in Hsome. by apply Hsome. }
  assert (Hrows1 : rows (dropna_rows essential_columns dfn)
                   = R <$> seq count (length df - count)).
  { unfold dropna_rows. cbn [rows]. rewrite Hrowsn, filter_fmap_comm.
    rewrite (filter_ext_elem_of _ (fun i => (count <= i)%nat)).
    - by rewrite filter_seq_ge.
    - intros i Hi%elem_of_seq. apply Hkeep. lia. }
  assert (Hsome : Forall (Forall is_Some) (rows (dropna_rows essential_columns dfn))).
  { rewrite Hrows1. apply Forall_fmap, Forall_forall. intros i Hi%elem_of_seq.
    unfold compose, R. apply Forall_forall. intros v Hv.
    apply select_subseteq, reorder_subseteq in Hv.
    assert (Hc : (count <= i)%nat) by lia. assert (Hi' : (i < length df)%nat) by lia.
    pose proof (window_cells_complete (length features) df count i Hall Hc Hi') as Hs.
    rewrite Forall_forall in Hs. by apply Hs. }
  assert (Hrect1 : rectangular (dropna_rows essential_columns dfn)).
  { pose proof (rectangular_drop_columns to_drop frame Hrect) as Hr.
    unfold rectangular in *. unfold dropna_rows. cbn [rows columns].
    apply Forall_forall. intros row [_ Hrow]%list_elem_of_filter.
    rewrite Forall_forall in Hr. by apply Hr. }
  assert (Hdf1 : df1 = dropna_rows essential_columns dfn).
  { unfold df1. rewrite Hvfr. by apply dropna_columns_complete. }
  rewrite Hdf1. split_and!.
  - done.
  - by rewrite Hrows1, length_fmap, length_seq.
  - unfold dropna_rows. cbn [columns]. rewrite Hcolsn, list_filter_filter, Hperm.
    unfold rcols. rewrite (length_filter_join _ _ (length features + 3)).
    + rewrite length_fmap, length_seq. unfold count. f_equal. lia.
    + apply Forall_fmap, Forall_forall. intros k _. unfold compose.
      by apply length_kept_block.
Qed.

(** **** The frame that is flattened without windowing *)

Lemma numbered_identifying c k :
  collision_free (df_columns features) -> c ∈ df_columns features ->
  numbered c (S k) ∈ identifying_columns -> c ∈ identifying_columns /\ k = 0%nat.
Proof.
  intros Hfree Hc Hin.
  assert (Hkey : numbered c (S k) ∈ df_columns features).
  { apply elem_of_app. right. by apply identifying_temporal. }
  destruct (numbered_inj (df_columns features) c (numbered c (S k)) (S k) 1)
    as [Heq Hk]; [done|done|done|lia|lia|done|].
  split; [by rewrite Heq|lia].
Qed.

Lemma length_flat_columns count :
  NoDup (df_columns features) -> collision_free (df_columns features) ->
  length (filter (fun col => col ∉ identifying_columns)
            (mjoin ((fun k => (fun c => numbered c (S k)) <$> df_columns features)
                      <$> seq 0 (S count))))
  = (S count * (length features + 7) - 4)%nat.
Proof.
  intros Hnodup Hfree. cbn [seq fmap list_fmap mjoin list_join].
  rewrite filter_app, length_app.
  assert (Hfirst : length (filter (fun col => col ∉ identifying_columns)
                             ((fun c => numbered c 1) <$> df_columns features))
                   = (length features + 3)%nat).
  { rewrite filter_fmap_comm, length_fmap.
    change (filter (fun x => numbered x 1 ∉ identifying_columns) (df_columns features))
      with (filter (fun x => x ∉ identifying_columns) (df_columns features)).
    unfold df_columns in *. rewrite filter_app, length_app.
    apply NoDup_app in Hnodup as (_ & Hdisj & _).
    rewrite filter_all; [done|].
    apply Forall_forall. intros c Hc Hid. by apply (Hdisj c), identifying_temporal. }
  rewrite Hfirst, filter_all.
  - rewrite (length_join_rectangular _ (length features + 7)).
    + rewrite length_fmap, length_seq. lia.
    + apply Forall_fmap, Forall_forall. intros k _. unfold compose.
      rewrite length_fmap. unfold df_columns. by rewrite length_app.
  - apply Forall_forall. intros col (block & Hcol & Hblock)%list_elem_of_join.
    apply list_elem_of_fmap in Hblock as (k & -> & Hk%elem_of_seq).
    apply list_elem_of_fmap in Hcol as (c & -> & Hc).
    destruct k as [|k]; [lia|]. intros Hin.
    apply numbered_identifying in Hin as [_ [=]]; done.
Qed.

Lemma partition_flat_frame df window_dim :
  1 <= window_dim ->
  Forall (complete_record (length features)) df ->
  NoDup (df_columns features) -> collision_free (df_columns features) ->
  let frame := Partition.rename_columns (final_df cell_of features (full df window_dim)) in
  let kept := drop_columns identifying_columns frame in
  identifying_columns ⊆ columns frame /\
  length (rows kept) = length df /\
  length (columns kept) = (Z.to_nat window_dim * (length features + 7) - 4)%nat /\
  (1 < window_dim -> (0 < length df)%nat -> None ∈ mjoin (rows kept)).
Proof.
  intros Hw Hall Hnodup Hfree frame kept.
  destruct (full_frame df window_dim Hall Hnodup) as (Hcols0 & Hrows0 & Hrect0 & Hperm).
  fold frame in Hperm.
  set (count := Z.to_nat (window_dim - 1)) in *.
  set (frame0 := final_df cell_of features (full df window_dim)) in *.
  assert (Hrect : rectangular frame) by (by apply rectangular_rename_columns).
  assert (Hrows : rows kept
            = (fun i => select ((fun col => bool_decide (col ∉ identifying_columns))
                                  <$> columns frame)
                          (reorder (sorted_columns (columns frame0))
                             (window_cells cell_of (lagged_blocks df count i))))
                <$> seq 0 (length df)).
  { unfold kept, drop_columns. cbn [rows].
    unfold frame, Partition.rename_columns. cbn [rows]. fold frame0.
    rewrite Hrows0, <- !list_fmap_compose. done. }
  split_and!.
  - intros key Hkey. rewrite Hperm. apply list_elem_of_join.
    exists ((fun c => numbered c 1) <$> df_columns features). split.
    + apply list_elem_of_fmap. exists key. split; [done|].
      apply elem_of_app. right. by apply identifying_temporal.
    + apply list_elem_of_fmap. exists 0%nat. split; [done|]. apply elem_of_seq. lia.
  - by rewrite Hrows, length_fmap, length_seq.
  - unfold kept. rewrite columns_drop_columns, Hperm, length_flat_columns by done.
    unfold count. f_equal. f_equal. lia.
  - intros Hw1 Hn. apply list_elem_of_join.
    eexists. split; [|rewrite Hrows; apply list_elem_of_fmap; exists 0%nat;
                      split; [done|apply elem_of_seq; lia]].
    cbn beta.
    assert (Hlen0 : length (window_cells cell_of (lagged_blocks df count 0))
                    = length (columns frame0)).
    { unfold rectangular in Hrect0. rewrite Forall_forall in Hrect0.
      apply Hrect0. rewrite Hrows0. apply list_elem_of_fmap. exists 0%nat.
      split; [done|]. apply elem_of_seq. lia. }
    apply (elem_of_zip_r "failure"%string _ (columns kept)).
    unfold kept. rewrite zip_drop_columns.
    2:{ rewrite rename_columns_row by done.
        unfold frame, Partition.rename_columns. cbn [columns]. by rewrite !length_fmap. }
    apply list_elem_of_filter. split; [compute_done|].
    unfold frame. rewrite zip_rename_columns by done.
    rewrite Hcols0, renamed_windowed_blocks by done.
    apply (window_cells_nan (length features) df count 0 2); [done|lia|done..].
Qed.

(** No label of [temporal] is another label with a number behind it. *)
Lemma temporal_not_numbered c' c (n : nat) :
  c' ∈ temporal -> c' <> (c +:+ "_" +:+ pretty n)%string.
Proof.
  intros Hc' Heq. unfold temporal in Hc'.
  assert (Hsplit : forall a b, c' = (a +:+ "_" +:+ b)%string ->
            has_underscore b = false -> (forall d s', b = String d s' -> is_digit d = false) ->
            False).
  { intros a b Hab Hb Hdigit. rewrite Hab in Heq.
    apply split_last_underscore in Heq as [_ Heq];
      [|done|apply pretty_nat_underscore_free].
    destruct (pretty_nat_digits n) as (d & s' & Hp & Hd & _).
    rewrite Hp in Heq. by rewrite (Hdigit d s' Heq) in Hd. }
  assert (Hplain : has_underscore c' = false -> False).
  { intros Hu. rewrite Heq, !has_underscore_app in Hu. simpl in Hu.
    by rewrite orb_true_r in Hu. }
  rewrite !elem_of_cons, elem_of_nil in Hc'.
  destruct Hc' as [->|[->|[->|[->|[->|[->|[->|[]]]]]]]].
  - apply (Hsplit "serial" "number")%string; [done..|]. by intros d s' [= <- _].
  - by apply Hplain.
  - by apply Hplain.
  - apply (Hsplit "predict" "val")%string; [done..|]. by intros d s' [= <- _].
  - apply (Hsplit "validate" "val")%string; [done..|]. by intros d s' [= <- _].
  - by apply Hplain.
  - apply (Hsplit "capacity" "bytes")%string; [done..|]. by intros d s' [= <- _].
Qed.

End FullPipeline.

Section PartitionTheorems.
Import Factorizer WindowBuilder Windows ColumnReconciler ValidityFilter.
Import Preprocessing Reshaper Partition.
Local Open Scope Z_scope.

(** Full overlap with windowing, on a table without a missing cell whose
    labels stay distinct when they are numbered and whose feature labels
    the pattern of line 246 never matches: [partition] returns a tensor
    without a missing value, of [window_dim] time steps for each of the
    features and of [failure], [predict_val] and [validate_val].  The
    first [window_dim - 1] rows of the table give no sample and every
    other row gives one, whatever the devices of the rows: the table is
    shifted as a whole (lines 150-153), so a window that starts on one
    device and ends on the next is kept.  A table shorter than the window
    gives an empty tensor. *)
Theorem partition_full {F : Type} (cell_of : F -> value) (features : list string)
    (df : Table F) (window_dim : Z)
    (Hw : 1 <= window_dim)
    (Hcomplete : Forall (complete_record (length features)) df)
    (Hnodup : NoDup (df_columns features))
    (Hfree : collision_free (df_columns features))
    (Hfeat : forall c k, c ∈ features -> matches_pattern (numbered c k) = false) :
  exists X,
    partition cell_of features df 1 1 window_dim = Some (Returned X) /\
    shape X = [Z.max 0 (Z.of_nat (length df) - window_dim + 1);
               Z.of_nat (length features) + 3; window_dim] /\
    Forall is_Some (data X).
Proof.
  unfold partition, perform_windowing. rewrite Z.eqb_refl. cbn [mbind option_bind].
  destruct (partition_full_frame cell_of features df window_dim)
    as (Hident & Hrows & Hkept); [done..|].
  destruct (preprocess_dataset_windowed 1 window_dim
              (Partition.rename_columns (final_df cell_of features (full df window_dim)))
              window_dim) as (X & HX & Hshape & Hsome); [done|done|lia| |].
  - right. rewrite Hkept, Nat2Z.inj_mul, Z2Nat.id, Z.mul_comm by lia.
    rewrite Z.quot_mul by lia. done.
  - exists X. split; [by rewrite HX|]. split; [|done].
    rewrite Hshape, Hrows, Hkept. f_equal; [lia|]. f_equal.
    rewrite Nat2Z.inj_mul, Z2Nat.id, Z.mul_comm by lia.
    rewrite Z.quot_mul by lia. lia.
Qed.

(** Full overlap without windowing, on such a table: [partition] still
    builds the windowed frame (line 57) and returns it flattened, one row
    for every row of the table and a middle axis of length one.  Only the
    four identifying columns of the first block are removed (line 288): the
    numbered copies of [serial_number], [date], [model] and
    [capacity_bytes] of the other blocks stay in the tensor, and so do the
    missing values of the first rows. *)
Theorem partition_full_flat {F : Type} (cell_of : F -> value) (features : list string)
    (df : Table F) (windowing window_dim : Z)
    (Hflat : windowing <> 1) (Hw : 1 <= window_dim)
    (Hcomplete : Forall (complete_record (length features)) df)
    (Hnodup : NoDup (df_columns features))
    (Hfree : collision_free (df_columns features)) :
  exists X,
    partition cell_of features df 1 windowing window_dim = Some (Returned X) /\
    shape X = [Z.of_nat (length df); 1;
               window_dim * (Z.of_nat (length features) + 7) - 4] /\
    (1 < window_dim -> df <> [] -> None ∈ data X).
Proof.
  unfold partition, perform_windowing. rewrite Z.eqb_refl. cbn [mbind option_bind].
  destruct (partition_flat_frame cell_of features df window_dim)
    as (Hident & Hrows & Hkept & Hnan); [done..|].
  rewrite preprocess_dataset_flat_values by done.
  eexists. split; [done|]. unfold expand_dims, values.
  cbn [shape data take list.drop app]. split.
  - rewrite Hrows, Hkept. do 3 f_equal. nia.
  - intros Hw1 Hdf. apply Hnan; [done|]. destruct df; [done|simpl; lia].
Qed.

Lemma partition_full_witness :
  exists X,
    partition Num ["day"%string] (sample_device "A" 5 0) 1 1 3 = Some (Returned X) /\
    shape X = [Z.max 0 (Z.of_nat (length (sample_device "A" 5 0)) - 3 + 1);
               Z.of_nat (length ["day"%string]) + 3; 3] /\
    Forall is_Some (data X).
Proof.
  apply (partition_full Num ["day"%string] (sample_device "A" 5 0) 3).
  - lia.
  - compute_done.
  - compute_done.
  - intros c c' n Hc Hc' Hn Heq. apply elem_of_cons in Hc' as [->|Hc'].
    + apply (f_equal has_underscore) in Heq.
      rewrite !has_underscore_app in Heq. simpl in Heq.
      by rewrite orb_true_r in Heq.
    + by apply (temporal_not_numbered c' c n).
  - intros c k ->%list_elem_of_singleton. unfold numbered.
    destruct (decide (1 < k)%nat); [|reflexivity].
    by destruct (pretty_nat_digits k) as (d & s' & -> & _).
Defined.

Lemma partition_full_flat_witness :
  exists X,
    partition Num ["day"%string] (sample_device "A" 5 0) 1 0 3 = Some (Returned X) /\
    shape X = [Z.of_nat (length (sample_device "A" 5 0)); 1;
               3 * (Z.of_nat (length ["day"%string]) + 7) - 4] /\
    (1 < 3 -> sample_device "A" 5 0 <> [] -> None ∈ data X).
Proof.
  apply (partition_full_flat Num ["day"%string] (sample_device "A" 5 0) 0 3).
  - lia.
  - lia.
  - compute_done.
  - compute_done.
  - intros c c' n Hc Hc' Hn Heq. apply elem_of_cons in Hc' as [->|Hc'].
    + apply (f_equal has_underscore) in Heq.
      rewrite !has_underscore_app in Heq. simpl in Heq.
      by rewrite orb_true_r in Heq.
    + by apply (temporal_not_numbered c' c n).
Defined.

(** Two devices of two days each and a window of two days: the second
    sample holds day 1 of the first device and day 0 of the second. *)
Example partition_two_devices :
  partition Num ["day"%string] (sample_device "A" 2 0 ++ sample_device "B" 2 0) 1 1 2
  = Some (Returned (mk_ndarray [3; 4; 2]
            (Some <$> (Num <$> [0; 1; 0; 0; 0; 0; 0; 0;
                                1; 0; 0; 0; 0; 0; 0; 0;
                                0; 1; 0; 0; 0; 0; 0; 0])))).
Proof. vm_compute. reflexivity. Qed.

Example partition_short_table :
  partition Num ["day"%string] (sample_device "A" 2 0) 1 1 3
  = Some (Returned (mk_ndarray [0; 4; 3] [])).
Proof. vm_compute. reflexivity. Qed.

Example partition_without_windowing :
  partition Num ["day"%string] (sample_device "A" 2 0) 1 0 2
  = Some (Returned (mk_ndarray [2; 1; 12]
            [Some (Num 4000); Some (Str "0"); None; Some (Num 0); None; Some (Num 0);
             Some (Str "ST4000"); None; Some (Num 0); Some (Str "A"); None; Some (Num 0);
             Some (Num 4000); Some (Str "1"); Some (Num 0); Some (Num 1); Some (Num 0);
             Some (Num 0); Some (Str "ST4000"); Some (Num 0); Some (Num 0);
             Some (Str "A"); Some (Num 0); Some (Num 0)])).
Proof. vm_compute. reflexivity. Qed.

End PartitionTheorems.
